(** * Snowman [build] command: a shallow embedding of cmd/build.go

    The development follows the source file top to bottom.  The Go library
    functions the command calls ([strings], [path/filepath], [os], [io],
    [net/url]) are written out as functions on strings and on an explicit
    file-system state.  The collaborators that live in other packages (YAML
    decoding, view discovery, the SPARQL client, page rendering) are the
    fields of a class [Env].  [buildCmd] threads a [State] through them and
    records every query and every render call, with its result, in a
    trace. *)

From Stdlib Require Import Ascii ZArith.
From stdpp Require Import base option list strings gmap sorting.

Set Default Proof Using "Type".

(** ** Go strings: byte sequences *)

Module Str.

Fixpoint take (n : nat) (s : string) : string :=
  match n, s with
  | S n', String c s' => String c (take n' s')
  | _, _ => ""
  end.

Fixpoint drop (n : nat) (s : string) : string :=
  match n, s with
  | S n', String _ s' => drop n' s'
  | _, _ => s
  end.

(** [strings.HasPrefix(s, prefix)] *)
Definition HasPrefix (s pre : string) : bool := String.prefix pre s.

(** [strings.Index(s, sep)]; [None] stands for Go's [-1]. *)
Fixpoint Index (s sep : string) : option nat :=
  if HasPrefix s sep then Some 0
  else match s with
       | "" => None
       | String _ s' => S <$> Index s' sep
       end.

(** Width in bytes of the first UTF-8 sequence of [s], as
    [utf8.DecodeRuneInString] reports it: an invalid or truncated
    sequence has width 1, the empty string width 0. *)
Definition byte_in (lo hi : N) (c : ascii) : bool :=
  (N.leb lo (N_of_ascii c) && N.leb (N_of_ascii c) hi)%bool.

Definition cont (s : string) (i : nat) (lo hi : N) : bool :=
  match String.get i s with
  | Some c => byte_in lo hi c
  | None => false
  end.

Definition rune_width (s : string) : nat :=
  match s with
  | "" => 0
  | String c _ =>
      let b := N_of_ascii c in
      if N.ltb b 128 then 1
      else if N.ltb b 194 then 1
      else if N.leb b 223 then
        if cont s 1 128 191 then 2 else 1
      else if N.leb b 239 then
        let lo := if N.eqb b 224 then 160%N else 128%N in
        let hi := if N.eqb b 237 then 159%N else 191%N in
        if (cont s 1 lo hi && cont s 2 128 191)%bool then 3 else 1
      else if N.leb b 244 then
        let lo := if N.eqb b 240 then 144%N else 128%N in
        let hi := if N.eqb b 244 then 143%N else 191%N in
        if (cont s 1 lo hi && cont s 2 128 191 && cont s 3 128 191)%bool
        then 4 else 1
      else 1
  end.

(** [utf8.RuneCountInString] *)
Fixpoint rune_count_go (fuel : nat) (s : string) : nat :=
  match fuel, s with
  | S f, String _ _ => S (rune_count_go f (drop (rune_width s) s))
  | _, _ => 0
  end.
Definition RuneCountInString (s : string) : nat :=
  rune_count_go (String.length s) s.

(** [strings.Count(s, substr)]: non-overlapping occurrences; for the empty
    [substr] one more than the number of runes. *)
Fixpoint count_go (fuel : nat) (s sep : string) : nat :=
  match fuel with
  | 0 => 0
  | S f =>
      match Index s sep with
      | None => 0
      | Some i => S (count_go f (drop (i + String.length sep) s) sep)
      end
  end.
Definition Count (s sep : string) : nat :=
  if decide (sep = "") then S (RuneCountInString s)
  else count_go (String.length s) s sep.

(** The replacement loop of [strings.Replace]: [k] replacements remain,
    [first] tells the first iteration ([i == 0]) from the later ones. *)
Fixpoint replace_loop (k : nat) (first : bool) (s old new : string)
  : string :=
  match k with
  | 0 => s
  | S k' =>
      let j :=
        if decide (old = "") then (if first then 0 else rune_width s)
        else default 0 (Index s old) in
      take j s +:+ new +:+
        replace_loop k' false (drop (j + String.length old) s) old new
  end.

(** [strings.Replace(s, old, new, n)] *)
Definition Replace (s old new : string) (n : Z) : string :=
  if decide (old = new ∨ n = 0%Z) then s
  else
    let m := Count s old in
    if decide (m = 0) then s
    else
      let k := if decide (n < 0 ∨ Z.of_nat m < n)%Z then m else Z.to_nat n in
      replace_loop k true s old new.

End Str.

(** ** Paths: [path/filepath] on Unix, and how the kernel resolves a path *)

Module Path.

(** [strings.Split(s, "/")] *)
Fixpoint split (s : string) : list string :=
  match s with
  | "" => [""]
  | String c s' =>
      if decide (c = "/"%char) then "" :: split s'
      else match split s' with
           | [] => [String c ""]
           | h :: t => String c h :: t
           end
  end.

(** [strings.Join(elems, "/")] *)
Fixpoint join (l : list string) : string :=
  match l with
  | [] => ""
  | [x] => x
  | x :: l' => x +:+ "/" +:+ join l'
  end.

(** One element of a path against the elements kept so far, by the rules
    of [filepath.Clean]: empty and [.] elements vanish, [..] removes the
    element before it, stays at the start of a relative path and vanishes
    at the start of a rooted one. *)
Definition clean_step (rooted : bool) (st : list string) (c : string)
  : list string :=
  if decide (c = "" ∨ c = ".") then st
  else if decide (c = "..") then
    match last st with
    | Some t => if decide (t = "..") then st ++ [".."] else removelast st
    | None => if rooted then st else [".."]
    end
  else st ++ [c].

Definition clean_from (rooted : bool) (st l : list string) : list string :=
  fold_left (clean_step rooted) l st.

(** [filepath.Clean] *)
Definition Clean (p : string) : string :=
  let rooted := Str.HasPrefix p "/" in
  let out := join (clean_from rooted [] (split p)) in
  if rooted then "/" +:+ out
  else if decide (out = "") then "." else out.

(** [filepath.Join(a, b)] *)
Definition Join (a b : string) : string :=
  if decide (a = "") then (if decide (b = "") then "" else Clean b)
  else Clean (a +:+ "/" +:+ b).

Fixpoint has_slash (s : string) : bool :=
  match s with
  | "" => false
  | String c s' => if decide (c = "/"%char) then true else has_slash s'
  end.

(** [path[:i+1]] for the last separator [i] of [path]. *)
Fixpoint dir_part (s : string) : string :=
  match s with
  | "" => ""
  | String c s' => if has_slash s then String c (dir_part s') else ""
  end.

(** [filepath.Dir] *)
Definition Dir (p : string) : string := Clean (dir_part p).

(** The location a path names for a process whose working directory is
    [cwd]: the elements from the root, [.] and [..] resolved on the names
    alone (no link is followed). *)
Definition resolve (cwd p : string) : list string :=
  clean_from true []
    ((if Str.HasPrefix p "/" then [] else split cwd) ++ split p).

(** Order of a lexical walk: element by element, a directory before what
    it contains. *)
Fixpoint le (p q : list string) : bool :=
  match p, q with
  | [], _ => true
  | _ :: _, [] => false
  | a :: p', b :: q' =>
      if decide (a = b) then le p' q' else String.ltb a b
  end.

End Path.

(** ** The file system and the [os] / [io] calls of the command

    Files, directories and other nodes (links, devices) at their locations.
    A call fails for what is at a path or on the way to it (nothing there,
    something there already, a file where a directory is needed);
    permissions and device errors are left out. *)

Inductive error : Type :=
  | ENOENT | EEXIST | ENOTDIR | EISDIR | EBADF
  | ErrorString (msg : string).

Global Instance error_eq_dec : EqDecision error.
Proof. solve_decision. Defined.

(** [os.IsNotExist] *)
Definition IsNotExist (e : error) : bool := bool_decide (e = ENOENT).

Inductive Node : Type :=
  | File (data : list Byte.byte)
  | Dir
  | Special.

Global Instance byte_eq_dec : EqDecision Byte.byte := Byte.byte_eq_dec.
Global Instance Node_eq_dec : EqDecision Node.
Proof. solve_decision. Defined.

Definition IsDir (n : Node) : bool :=
  match n with Dir => true | _ => false end.
Definition IsRegular (n : Node) : bool :=
  match n with File _ => true | _ => false end.

(** A file system maps a location (the list of path elements from the root)
    to what is there; the root itself is always a directory. *)
Abbreviation FS := (gmap (list string) Node).

Module Fs.

Definition node_at (fs : FS) (p : list string) : option Node :=
  if decide (p = []) then Some Dir else fs !! p.

Definition parent (p : list string) : list string := removelast p.

Definition proper_prefixes (p : list string) : list (list string) :=
  (λ i, firstn i p) <$> seq 0 (length p).

(** Some element on the way to [p] is there and is not a directory. *)
Definition blocked (fs : FS) (p : list string) : bool :=
  existsb (λ q, match node_at fs q with
                | Some Dir | None => false
                | Some _ => true
                end) (proper_prefixes p).

(** [os.Lstat] / [os.Stat] (a [Special] node is not followed) *)
Definition stat (fs : FS) (p : list string) : error + Node :=
  match node_at fs p with
  | Some n => inr n
  | None => inl (if blocked fs p then ENOTDIR else ENOENT)
  end.

(** [os.Mkdir] *)
Definition mkdir (fs : FS) (p : list string) : option error * FS :=
  match node_at fs p with
  | Some _ => (Some EEXIST, fs)
  | None =>
      match stat fs (parent p) with
      | inl e => (Some e, fs)
      | inr Dir => (None, <[p := Dir]> fs)
      | inr _ => (Some ENOTDIR, fs)
      end
  end.

(** [os.MkdirAll], on the elements of the path last element first:
    nothing to do for a directory that exists, otherwise the parent is
    made first and the directory itself last. *)
Fixpoint mkdir_all_rev (fs : FS) (rp : list string) : option error * FS :=
  match stat fs (rev rp) with
  | inr n => (if IsDir n then None else Some ENOTDIR, fs)
  | inl _ =>
      match rp with
      | [] => mkdir fs []
      | _ :: rp' =>
          match mkdir_all_rev fs rp' with
          | (Some e, fs') => (Some e, fs')
          | (None, fs') =>
              match mkdir fs' (rev rp) with
              | (Some e, fs'') =>
                  match stat fs'' (rev rp) with
                  | inr Dir => (None, fs'')
                  | _ => (Some e, fs'')
                  end
              | (None, fs'') => (None, fs'')
              end
          end
      end
  end.
Definition mkdir_all (fs : FS) (p : list string) : option error * FS :=
  mkdir_all_rev fs (rev p).

(** [os.Open]: the handle is the location. *)
Definition open (fs : FS) (p : list string) : error + list string :=
  match stat fs p with
  | inl e => inl e
  | inr _ => inr p
  end.

(** [os.Create]: the file is made, or emptied when it is there. *)
Definition create (fs : FS) (p : list string)
  : (error + list string) * FS :=
  match node_at fs p with
  | Some (File _) => (inr p, <[p := File []]> fs)
  | Some Dir => (inl EISDIR, fs)
  | Some Special => (inl EBADF, fs)
  | None =>
      match stat fs (parent p) with
      | inl e => (inl e, fs)
      | inr Dir => (inr p, <[p := File []]> fs)
      | inr _ => (inl ENOTDIR, fs)
      end
  end.

(** [io.Copy(dst, src)] for two handles at offset 0: the bytes of [src]
    as they are now are written over the start of [dst]. *)
Definition copy (fs : FS) (dst src : list string) : option error * FS :=
  match node_at fs src, node_at fs dst with
  | Some (File c), Some (File d) =>
      (None, <[dst := File (c ++ drop (length c) d)]> fs)
  | Some Dir, _ => (Some EISDIR, fs)
  | _, _ => (Some EBADF, fs)
  end.

(** [ioutil.ReadFile] *)
Definition read_file (fs : FS) (p : list string)
  : error + list Byte.byte :=
  match stat fs p with
  | inl e => inl e
  | inr (File c) => inr c
  | inr Dir => inl EISDIR
  | inr Special => inl EBADF
  end.

(** What [filepath.Walk] finds strictly below the directory [root], in
    its lexical order. *)
Definition below (root p : list string) : bool :=
  bool_decide (firstn (length root) p = root ∧ length root < length p).

Definition tree (fs : FS) (root : list string)
  : list (list string * Node) :=
  merge_sort (λ a b, Path.le a.1 b.1)
    (filter (λ kv, below root kv.1 = true) (map_to_list fs)).

End Fs.

(** ** [net/url]: the parser behind [url.ParseRequestURI]

    After [parse], [getScheme], [parseAuthority], [parseHost] and
    [unescape] of the Go standard library. *)

Module Url.

Definition is_alpha (c : ascii) : bool :=
  (Str.byte_in 97 122 c || Str.byte_in 65 90 c)%bool.
Definition is_digit (c : ascii) : bool := Str.byte_in 48 57 c.
Definition ishex (c : ascii) : bool :=
  (is_digit c || Str.byte_in 97 102 c || Str.byte_in 65 70 c)%bool.
Definition unhex (c : ascii) : N :=
  let b := N_of_ascii c in
  if is_digit c then b - 48
  else if Str.byte_in 97 102 c then b - 97 + 10
  else if Str.byte_in 65 70 c then b - 65 + 10
  else 0.

Fixpoint all_bytes (P : ascii → bool) (s : string) : bool :=
  match s with
  | "" => true
  | String c s' => (P c && all_bytes P s')%bool
  end.

Definition is_ctl (c : ascii) : bool :=
  (N.ltb (N_of_ascii c) 32 || N.eqb (N_of_ascii c) 127)%bool.
Definition stringContainsCTLByte (s : string) : bool :=
  negb (all_bytes (λ c, negb (is_ctl c)) s).

Inductive encoding : Type :=
  | encodePath | encodePathSegment | encodeHost | encodeZone
  | encodeUserPassword | encodeQueryComponent | encodeFragment.

Global Instance encoding_eq_dec : EqDecision encoding.
Proof. solve_decision. Defined.

Definition one_of (c : ascii) (chars : string) : bool :=
  negb (all_bytes (λ d, negb (bool_decide (c = d))) chars).

Definition shouldEscape (c : ascii) (mode : encoding) : bool :=
  if (is_alpha c || is_digit c)%bool then false
  else if (bool_decide (mode = encodeHost ∨ mode = encodeZone)
           && (one_of c "!$&'()*+,;=:[]<>"
               || N.eqb (N_of_ascii c) 34))%bool then false
  else if one_of c "-_.~" then false
  else if one_of c "$&+,/:;=?@" then
    match mode with
    | encodePath => bool_decide (c = "?"%char)
    | encodePathSegment => one_of c "/;,?"
    | encodeUserPassword => one_of c "@/?:"
    | encodeQueryComponent => true
    | encodeFragment => false
    | _ => true
    end
  else if (bool_decide (mode = encodeFragment) && one_of c "!()*")%bool
  then false
  else true.

Definition EscapeError : error := ErrorString "invalid URL escape".
Definition InvalidHostError : error :=
  ErrorString "invalid character in host name".

(** The checking pass of [unescape]: the first error, if any. *)
Fixpoint unescape_err (s : string) (mode : encoding) : option error :=
  match s with
  | "" => None
  | String c s1 =>
      if decide (c = "%"%char) then
        match s1 with
        | String a (String b s3) =>
            if negb (ishex a && ishex b) then Some EscapeError
            else if (bool_decide (mode = encodeHost) && N.ltb (unhex a) 8
                     && negb (bool_decide (a = "2"%char ∧ b = "5"%char)))%bool
            then Some EscapeError
            else if (bool_decide (mode = encodeZone)
                     && negb (bool_decide (a = "2"%char ∧ b = "5"%char))
                     && negb (N.eqb (unhex a * 16 + unhex b) 32)
                     && shouldEscape
                          (ascii_of_N (unhex a * 16 + unhex b)) encodeHost)%bool
            then Some EscapeError
            else unescape_err s3 mode
        | _ => Some EscapeError
        end
      else if (bool_decide (mode = encodeHost ∨ mode = encodeZone)
               && N.ltb (N_of_ascii c) 128 && shouldEscape c encodeHost)%bool
      then Some InvalidHostError
      else unescape_err s1 mode
  end.

(** [strings.LastIndex] *)
Fixpoint LastIndex (s sep : string) : option nat :=
  match s with
  | "" => if decide (sep = "") then Some 0 else None
  | String _ s' =>
      match LastIndex s' sep with
      | Some i => Some (S i)
      | None => if Str.HasPrefix s sep then Some 0 else None
      end
  end.

(** [strings.Cut] *)
Definition Cut (s sep : string) : string * string * bool :=
  match Str.Index s sep with
  | Some i => (Str.take i s, Str.drop (i + String.length sep) s, true)
  | None => (s, "", false)
  end.

Definition HasSuffix (s suf : string) : bool :=
  bool_decide (Str.drop (String.length s - String.length suf) s = suf).

Fixpoint getScheme_from (i : nat) (rawURL rest : string)
  : error + (string * string) :=
  match rest with
  | "" => inr ("", rawURL)
  | String c rest' =>
      if is_alpha c then getScheme_from (S i) rawURL rest'
      else if (is_digit c || one_of c "+-.")%bool then
        if decide (i = 0) then inr ("", rawURL)
        else getScheme_from (S i) rawURL rest'
      else if decide (c = ":"%char) then
        if decide (i = 0) then inl (ErrorString "missing protocol scheme")
        else inr (Str.take i rawURL, rest')
      else inr ("", rawURL)
  end.
Definition getScheme (rawURL : string) : error + (string * string) :=
  getScheme_from 0 rawURL rawURL.

Definition validOptionalPort (port : string) : bool :=
  match port with
  | "" => true
  | String c digits => (bool_decide (c = ":"%char) && all_bytes is_digit digits)%bool
  end.

Definition validUserinfo (s : string) : bool :=
  all_bytes (λ r, is_alpha r || is_digit r || one_of r "-._:~!$&'()*+,;=%@")%bool s.

Definition parseHost (host : string) : option error :=
  let plain := unescape_err host encodeHost in
  if Str.HasPrefix host "[" then
    match LastIndex host "]" with
    | None => Some (ErrorString "missing ']' in host")
    | Some i =>
        if negb (validOptionalPort (Str.drop (S i) host))
        then Some (ErrorString "invalid port after host")
        else
          match Str.Index (Str.take i host) "%25" with
          | Some zone =>
              match unescape_err (Str.take zone host) encodeHost with
              | Some e => Some e
              | None =>
                  match unescape_err
                          (Str.drop zone (Str.take i host)) encodeZone with
                  | Some e => Some e
                  | None => unescape_err (Str.drop i host) encodeHost
                  end
              end
          | None => plain
          end
    end
  else
    match LastIndex host ":" with
    | Some i =>
        if negb (validOptionalPort (Str.drop i host))
        then Some (ErrorString "invalid port after host")
        else plain
    | None => plain
    end.

Definition parseAuthority (authority : string) : option error :=
  match LastIndex authority "@" with
  | None => parseHost authority
  | Some i =>
      match parseHost (Str.drop (S i) authority) with
      | Some e => Some e
      | None =>
          let userinfo := Str.take i authority in
          if negb (validUserinfo userinfo)
          then Some (ErrorString "net/url: invalid userinfo")
          else
            match Str.Index userinfo ":" with
            | None => unescape_err userinfo encodeUserPassword
            | Some _ =>
                let '(username, password, _) := Cut userinfo ":" in
                match unescape_err username encodeUserPassword with
                | Some e => Some e
                | None => unescape_err password encodeUserPassword
                end
            end
      end
  end.

(** [parse(rawURL, viaRequest)]: only the error is kept, the one thing
    [IsValid] looks at. *)
Definition parse (rawURL : string) (viaRequest : bool) : option error :=
  if stringContainsCTLByte rawURL
  then Some (ErrorString "net/url: invalid control character in URL")
  else if (bool_decide (rawURL = "") && viaRequest)%bool
  then Some (ErrorString "empty url")
  else if decide (rawURL = "*") then None
  else
    match getScheme rawURL with
    | inl e => Some e
    | inr (scheme, rest) =>
        let rest :=
          if (HasSuffix rest "?" && bool_decide (Str.Count rest "?" = 1))%bool
          then Str.take (String.length rest - 1) rest
          else (Cut rest "?").1.1 in
        if (negb (Str.HasPrefix rest "/")
            && negb (bool_decide (scheme = "")))%bool then None
        else if (negb (Str.HasPrefix rest "/") && viaRequest)%bool
        then Some (ErrorString "invalid URI for request")
        else if (negb (Str.HasPrefix rest "/")
                 && match Str.Index rest ":", Str.Index rest "/" with
                    | Some colon, None => true
                    | Some colon, Some slash => bool_decide (colon < slash)
                    | None, _ => false
                    end)%bool
        then Some (ErrorString
                     "first path segment in URL cannot contain colon")
        else if ((negb (bool_decide (scheme = ""))
                  || negb viaRequest && negb (Str.HasPrefix rest "///"))
                 && Str.HasPrefix rest "//")%bool
        then
          let authority := Str.drop 2 rest in
          let '(authority, rest) :=
            match Str.Index authority "/" with
            | Some i => (Str.take i authority, Str.drop i authority)
            | None => (authority, "")
            end in
          match parseAuthority authority with
          | Some e => Some e
          | None => unescape_err rest encodePath
          end
        else unescape_err rest encodePath
    end.

(** [url.ParseRequestURI] *)
Definition ParseRequestURI (rawURL : string) : option error :=
  parse rawURL true.

End Url.

(** ** Data of the command *)

(** One cell of a SPARQL result row ([sparql.binding]). *)
Record binding : Type := {
  Type_ : string;
  Value : string;
  Lang : string;
  DataType : string
}.

(** A result row is a Go [map[string]binding]; indexing it with a key it
    does not hold yields the zero [binding]. *)
Abbreviation Row := (gmap string binding).

Definition zero_binding : binding :=
  {| Type_ := ""; Value := ""; Lang := ""; DataType := "" |}.

Definition row_index (row : Row) (key : string) : binding :=
  default zero_binding (row !! key).

Record viewConfig : Type := { Output : string }.

(** [views.View], with the fields the command reads. *)
Record View (T : Type) : Type := {
  ViewConfig : viewConfig;
  Sparql : string;
  MultipageVariableHook : option string;
  Template : T
}.
Arguments ViewConfig {T} _.
Arguments Sparql {T} _.
Arguments MultipageVariableHook {T} _.
Arguments Template {T} _.

(** The [data interface{}] handed to [RenderPage]: one row, or all of them. *)
Inductive Context : Type :=
  | OneRow (row : Row)
  | AllRows (results : list Row).

Record siteConfig : Type := { Endpoint : string }.

(** What the process can see and change: its working directory (or the
    error [os.Getwd] gives), the file system, the lines printed so far, and
    the state [E] of everything outside (the SPARQL endpoint). *)
Record World (E : Type) : Type := {
  cwd : string;
  getwd_err : option error;
  fs : FS;
  stdout : list string;
  ext : E
}.
Arguments cwd {E} _.
Arguments getwd_err {E} _.
Arguments fs {E} _.
Arguments stdout {E} _.
Arguments ext {E} _.

Definition set_fs {E} (w : World E) (f : FS) : World E :=
  {| cwd := cwd w; getwd_err := getwd_err w; fs := f;
     stdout := stdout w; ext := ext w |}.

Definition print {E} (w : World E) (line : string) : World E :=
  {| cwd := cwd w; getwd_err := getwd_err w; fs := fs w;
     stdout := stdout w ++ [line]; ext := ext w |}.

(** The collaborators of the command that live in other packages:
    [yaml.Unmarshal], [views.DiscoverViews], [sparql.NewRepo],
    [Repo.Query] (its [Results.Bindings]) and [View.RenderPage]. *)
Class Env : Type := {
  Ext : Type;
  Tmpl : Type;
  Repo : Type;
  yaml_Unmarshal : list Byte.byte → siteConfig → option error * siteConfig;
  views_DiscoverViews :
    list string → World Ext → (error + list (View Tmpl)) * World Ext;
  sparql_NewRepo : string → World Ext → (error + Repo) * World Ext;
  repo_Query : Repo → string → World Ext → (error + list Row) * World Ext;
  view_RenderPage :
    View Tmpl → string → Context → World Ext → option error * World Ext
}.

(** Calls to the SPARQL endpoint and to the renderer, with what they
    returned, in the order the command makes them. *)
Inductive Event `{Env} : Type :=
  | EvQuery (view : View Tmpl) (res : error + list Row)
  | EvRender (view : View Tmpl) (outputPath : string) (data : Context)
      (res : option error).

Record State `{Env} : Type := {
  world : World Ext;
  trace : list Event
}.

(** ** A state monad with panics *)

Inductive outcome (A : Type) : Type :=
  | Val (a : A)
  | Panicked.
Arguments Val {A} _.
Arguments Panicked {A}.

Definition M `{Env} (A : Type) : Type := State → outcome A * State.

Global Instance M_ret `{Env} : MRet M := λ A a st, (Val a, st).
Global Instance M_bind `{Env} : MBind M := λ A B f m st,
  match m st with
  | (Val a, st') => f a st'
  | (Panicked, st') => (Panicked, st')
  end.

Definition panic `{Env} {A} : M A := λ st, (Panicked, st).

(** An action on the world alone. *)
Definition on_world `{Env} {A} (f : World Ext → A * World Ext) : M A :=
  λ st, let '(a, w) := f (world st) in
        (Val a, {| world := w; trace := trace st |}).

Definition log `{Env} (ev : Event) : M unit :=
  λ st, (Val (), {| world := world st; trace := trace st ++ [ev] |}).

Section Calls.
Context `{Env}.

Definition at_ (w : World Ext) (path : string) : list string :=
  Path.resolve (cwd w) path.

Definition fmt_Println (line : string) : M unit :=
  on_world (λ w, ((), print w line)).

Definition os_Getwd : M (error + string) :=
  on_world (λ w, (match getwd_err w with
                  | Some e => inl e
                  | None => inr (cwd w)
                  end, w)).

Definition os_Stat (path : string) : M (error + Node) :=
  on_world (λ w, (Fs.stat (fs w) (at_ w path), w)).

Definition os_Mkdir (path : string) : M (option error) :=
  on_world (λ w, let '(e, f) := Fs.mkdir (fs w) (at_ w path) in
                 (e, set_fs w f)).

Definition os_MkdirAll (path : string) : M (option error) :=
  on_world (λ w, let '(e, f) := Fs.mkdir_all (fs w) (at_ w path) in
                 (e, set_fs w f)).

Definition os_Open (path : string) : M (error + list string) :=
  on_world (λ w, (Fs.open (fs w) (at_ w path), w)).

Definition os_Create (path : string) : M (error + list string) :=
  on_world (λ w, let '(r, f) := Fs.create (fs w) (at_ w path) in
                 (r, set_fs w f)).

Definition io_Copy (dst src : list string) : M (option error) :=
  on_world (λ w, let '(e, f) := Fs.copy (fs w) dst src in (e, set_fs w f)).

Definition ioutil_ReadFile (path : string) : M (error + list Byte.byte) :=
  on_world (λ w, (Fs.read_file (fs w) (at_ w path), w)).

(** The function [filepath.Walk] calls at each file; [A] is the variable
    the closure captures and updates. *)
Definition WalkFunc (A : Type) : Type :=
  string → option Node → option error → A → M (option error * A).

(** The name [Walk] gives to what it finds [rel] below [root]: one
    [filepath.Join] per level. *)
Definition walk_name (root : string) (rel : list string) : string :=
  fold_left Path.Join rel root.

Fixpoint walk_entries {A} (fn : WalkFunc A) (root : string) (depth : nat)
    (entries : list (list string * Node)) (a : A) : M (option error * A) :=
  match entries with
  | [] => mret (None, a)
  | (p, info) :: rest =>
      '(err, a) ← fn (walk_name root (drop depth p)) (Some info) None a;
      match err with
      | Some e => mret (Some e, a)
      | None => walk_entries fn root depth rest a
      end
  end.

(** [filepath.Walk(root, fn)]: [fn] at the root, and when that is a
    directory at everything below it in lexical order, until [fn]
    returns an error.  A root that cannot be examined is reported to [fn]
    with no [FileInfo].  The tree is the one found when the walk starts. *)
Definition filepath_Walk {A} (root : string) (fn : WalkFunc A) (a : A)
  : M (option error * A) :=
  λ st,
    let r := at_ (world st) root in
    match Fs.stat (fs (world st)) r with
    | inl e => fn root None (Some e) a st
    | inr info =>
        ('(err, a) ← fn root (Some info) None a;
         match err with
         | Some e => mret (Some e, a)
         | None =>
             if IsDir info
             then walk_entries fn root (length r)
                    (Fs.tree (fs (world st)) r) a
             else mret (None, a)
         end) st
    end.

End Calls.

(** ** cmd/build.go *)

(** Modelled from the spec: [utils.ErrorExit] (package internal/utils is not
    among the sources).  A failure is reported as one message naming the
    failing stage together with the underlying cause, and the process exits
    with a non-zero status. *)
Record Failure : Type := { message : string; cause : error }.

Definition ErrorExit (message : string) (err : error) : option Failure :=
  Some {| message := message; cause := err |}.

Definition exit_status (res : option Failure) : Z :=
  match res with
  | None => 0
  | Some _ => 1
  end.

Section Build.
Context `{Env}.

(** [func (c *siteConfig) Parse(data []byte) error] *)
Definition Parse (c : siteConfig) (data : list Byte.byte)
  : option error * siteConfig :=
  yaml_Unmarshal data c.

(** [func (c siteConfig) IsValid() error] *)
Definition IsValid (c : siteConfig) : option error :=
  match Url.ParseRequestURI (Endpoint c) with
  | Some err => Some err
  | None => None
  end.

(** [func DiscoverIncludes() ([]string, error)] *)
Definition DiscoverIncludes : M (error + list string) :=
  '(err, paths) ← filepath_Walk "templates/includes"
    (λ path info err paths,
       match err with
       | Some e => mret (Some e, paths)
       | None =>
           match info with
           | None => panic
           | Some info =>
               if negb (IsDir info) then mret (None, paths ++ [path])
               else mret (None, paths)
           end
       end) [];
  match err with
  | Some e => mret (inl e)
  | None => mret (inr paths)
  end.

(** The function [CopyStatic] walks with.  It reads [info] before it looks
    at [err], so a walk that hands it no [FileInfo] panics. *)
Definition copy_file : WalkFunc unit := λ path info err _,
  match info with
  | None => panic
  | Some info =>
      if IsRegular info then
        let newPath := Str.Replace path "static/" "site/" 1 in
        e ← os_MkdirAll (Path.Dir newPath);
        match e with
        | Some e => mret (Some e, ())
        | None =>
            o ← os_Open path;
            match o with
            | inl e => mret (Some e, ())
            | inr original =>
                n ← os_Create newPath;
                match n with
                | inl e => mret (Some e, ())
                | inr new =>
                    c ← io_Copy new original;
                    match c with
                    | Some e => mret (Some e, ())
                    | None =>
                        fmt_Println ("Copied static file to: " +:+ newPath);;
                        mret (err, ())
                    end
                end
            end
        end
      else mret (err, ())
  end.

(** [func CopyStatic() error] *)
Definition CopyStatic : M (option error) :=
  '(err, _) ← filepath_Walk "static" copy_file ();
  mret err.

Definition siteDir : string := "site/".

Definition RenderPage (view : View Tmpl) (outputPath : string)
    (data : Context) : M (option error) :=
  res ← on_world (view_RenderPage view outputPath data);
  log (EvRender view outputPath data res);;
  mret res.

Definition Query (repo : Repo) (view : View Tmpl)
  : M (error + list Row) :=
  res ← on_world (repo_Query repo (Sparql view));
  log (EvQuery view res);;
  mret res.

(** The path of the page of one row (line 150). *)
Definition outputPath_of (view : View Tmpl) (hook : string) (row : Row)
  : string :=
  siteDir +:+ Str.Replace (Output (ViewConfig view))
                ("{{" +:+ hook +:+ "}}") (Value (row_index row hook)) 1.

(** Lines 149-154: [for _, row := range results]. *)
Fixpoint render_rows (view : View Tmpl) (hook : string)
    (results : list Row) : M (option Failure) :=
  match results with
  | [] => mret None
  | row :: rest =>
      let outputPath := outputPath_of view hook row in
      err ← RenderPage view outputPath (OneRow row);
      match err with
      | Some e => mret (ErrorExit ("Failed to render page at " +:+ outputPath) e)
      | None => render_rows view hook rest
      end
  end.

(** Lines 148-159: one page for all rows, or one page per row. *)
Definition render_view (view : View Tmpl) (results : list Row)
  : M (option Failure) :=
  match MultipageVariableHook view with
  | Some hook => render_rows view hook results
  | None =>
      err ← RenderPage view (siteDir +:+ Output (ViewConfig view))
              (AllRows results);
      match err with
      | Some e =>
          mret (ErrorExit
                  ("Failed to render page at " +:+ siteDir
                     +:+ Output (ViewConfig view)) e)
      | None => mret None
      end
  end.

(** Lines 138-159: the body of [for _, view := range discoveredViews]. *)
Definition build_view (config : siteConfig) (view : View Tmpl)
  : M (option Failure) :=
  repo ← on_world (sparql_NewRepo (Endpoint config));
  match repo with
  | inl e => mret (ErrorExit "Failed to connect to SPARQL endpoint." e)
  | inr repo =>
      res ← Query repo view;
      match res with
      | inl e => mret (ErrorExit "SPARQL query failed." e)
      | inr results => render_view view results
      end
  end.

(** Lines 137-163. *)
Fixpoint build_views (config : siteConfig) (views : list (View Tmpl))
  : M (option Failure) :=
  match views with
  | [] => mret None
  | view :: rest =>
      r ← build_view config view;
      match r with
      | Some f => mret (Some f)
      | None => build_views config rest
      end
  end.

(** Lines 127-163: includes, views, pages. *)
Definition build_pages (config : siteConfig) : M (option Failure) :=
  layouts ← DiscoverIncludes;
  match layouts with
  | inl e => mret (ErrorExit "Failed to discover layouts." e)
  | inr layouts =>
      discoveredViews ← on_world (views_DiscoverViews layouts);
      match discoveredViews with
      | inl e => mret (ErrorExit "Failed to discover views." e)
      | inr discoveredViews => build_views config discoveredViews
      end
  end.

(** Lines 119-125: the static files. *)
Definition copy_static_files : M (option Failure) :=
  st ← os_Stat "static";
  if match st with inl e => IsNotExist e | inr _ => false end then
    fmt_Println "Failed to locate static files. Skipping...";;
    mret None
  else
    err ← CopyStatic;
    match err with
    | Some e => mret (ErrorExit "Failed to copy static files." e)
    | None => mret None
    end.

(** Lines 119-163. *)
Definition build_static (config : siteConfig) : M (option Failure) :=
  r ← copy_static_files;
  match r with
  | Some f => mret (Some f)
  | None => build_pages config
  end.

(** Lines 113-163: the site directory, then the rest. *)
Definition build_site (config : siteConfig) : M (option Failure) :=
  err ← os_Mkdir "site";
  match err with
  | Some e => mret (ErrorExit "Failed to create site directory." e)
  | None => build_static config
  end.

(** [buildCmd.RunE] *)
Definition buildCmd : M (option Failure) :=
  wd ← os_Getwd;
  match wd with
  | inl e =>
      mret (ErrorExit "Failed to get the current working directory." e)
  | inr currentDirectory =>
      st ← os_Stat (currentDirectory +:+ "/snowman.yaml");
      match st with
      | inl e =>
          mret (ErrorExit
            "Unable to locate snowman.yaml in the current working directory." e)
      | inr _ =>
          data ← ioutil_ReadFile (currentDirectory +:+ "/snowman.yaml");
          match data with
          | inl e => mret (ErrorExit "Failed to read snowman.yaml." e)
          | inr data =>
              let '(err, config) := Parse {| Endpoint := "" |} data in
              match err with
              | Some e => mret (ErrorExit "Failed to parse snowman.yaml." e)
              | None =>
                  match IsValid config with
                  | Some e =>
                      mret (ErrorExit "Failed to validate snowman.yaml." e)
                  | None => build_site config
                  end
              end
          end
      end
  end.

End Build.

(** ** What a run looks like

    The events of a run, read off the loops of lines 137-161: the rows of a
    view in order up to the first page that fails, the views in order up to
    the first one that fails. *)

Section Runs.
Context `{Env}.

(** The event of a page of one row that rendered. *)
Definition page_ok (view : View Tmpl) (hook : string) (row : Row) : Event :=
  EvRender view (outputPath_of view hook row) (OneRow row) None.

Inductive rows_run (view : View Tmpl) (hook : string)
  : list Row → list Event → option Failure → Prop :=
  | rows_done : rows_run view hook [] [] None
  | rows_fail row rest e :
      rows_run view hook (row :: rest)
        [EvRender view (outputPath_of view hook row) (OneRow row) (Some e)]
        (ErrorExit
           ("Failed to render page at " +:+ outputPath_of view hook row) e)
  | rows_next row rest evs r :
      rows_run view hook rest evs r →
      rows_run view hook (row :: rest)
        (EvRender view (outputPath_of view hook row) (OneRow row) None
           :: evs) r.

Inductive pages_run (view : View Tmpl)
  : list Row → list Event → option Failure → Prop :=
  | pages_multi hook results evs r :
      MultipageVariableHook view = Some hook →
      rows_run view hook results evs r →
      pages_run view results evs r
  | pages_single results res :
      MultipageVariableHook view = None →
      pages_run view results
        [EvRender view (siteDir +:+ Output (ViewConfig view))
           (AllRows results) res]
        (match res with
         | Some e =>
             ErrorExit ("Failed to render page at " +:+ siteDir
                          +:+ Output (ViewConfig view)) e
         | None => None
         end).

Inductive view_run (view : View Tmpl)
  : list Event → option Failure → Prop :=
  | view_no_repo e :
      view_run view [] (ErrorExit "Failed to connect to SPARQL endpoint." e)
  | view_no_rows e :
      view_run view [EvQuery view (inl e)]
        (ErrorExit "SPARQL query failed." e)
  | view_pages results evs r :
      pages_run view results evs r →
      view_run view (EvQuery view (inr results) :: evs) r.

Inductive views_run
  : list (View Tmpl) → list Event → option Failure → Prop :=
  | views_done : views_run [] [] None
  | views_fail view rest evs f :
      view_run view evs (Some f) →
      views_run (view :: rest) evs (Some f)
  | views_next view rest evs evs' r :
      view_run view evs None →
      views_run rest evs' r →
      views_run (view :: rest) (evs ++ evs') r.

(** A call that returned an error. *)
Definition failed (ev : Event) : Prop :=
  match ev with
  | EvQuery _ (inl _) => True
  | EvRender _ _ _ (Some _) => True
  | _ => False
  end.

(** The views queried, in the order of the queries. *)
Fixpoint queried (evs : list Event) : list (View Tmpl) :=
  match evs with
  | [] => []
  | EvQuery view _ :: evs' => view :: queried evs'
  | EvRender _ _ _ _ :: evs' => queried evs'
  end.

(** The pages rendered: path and data of every [RenderPage] call. *)
Fixpoint rendered (evs : list Event) : list (string * Context) :=
  match evs with
  | [] => []
  | EvQuery _ _ :: evs' => rendered evs'
  | EvRender _ p d _ :: evs' => (p, d) :: rendered evs'
  end.

(** An action that makes no query and renders no page. *)
Definition quiet {A} (m : M A) : Prop :=
  ∀ st, trace (m st).2 = trace st.

(** The events a run of the command adds to the trace are those of the loop
    over the views that [views.DiscoverViews] returned, if the run gets
    there. *)
Definition loop_events (m : M (option Failure)) : Prop :=
  ∀ st,
    trace (m st).2 = trace st
    ∨ ∃ layouts w w' views evs r,
        views_DiscoverViews layouts w = (inr views, w')
        ∧ (m st).1 = Val r
        ∧ trace (m st).2 = trace st ++ evs
        ∧ views_run views evs r.

End Runs.

(** ** Words of the specification used in the statements *)


(** The failures of lines 95-111 (configuration file missing, unreadable,
    unparsable, invalid) are the specification's [ConfigError]. *)
Definition ConfigError (f : Failure) : Prop :=
  message f ∈ [ "Unable to locate snowman.yaml in the current working directory.";
                "Failed to read snowman.yaml.";
                "Failed to parse snowman.yaml.";
                "Failed to validate snowman.yaml." ].

(** Absolute URLs [scheme://host[:port][/path][?query]] written with the
    characters RFC 3986 gives each part: a scheme of letters, digits, [+],
    [-] and [.] that starts with a letter, a host of unreserved characters,
    a port of digits, and a path and a query without control bytes, the
    path with well-formed [%XX] escapes only. *)
Definition scheme_ok (s : string) : bool :=
  match s with
  | "" => false
  | String c s' =>
      (Url.is_alpha c
       && Url.all_bytes
            (λ d, Url.is_alpha d || Url.is_digit d || Url.one_of d "+-.") s')%bool
  end.

Definition unreserved (c : ascii) : bool :=
  (Url.is_alpha c || Url.is_digit c || Url.one_of c "-._~")%bool.

Definition host_ok (h : string) : bool := Url.all_bytes unreserved h.

Definition port_ok (p : string) : bool :=
  match p with
  | "" => true
  | String c digits =>
      (bool_decide (c = ":"%char) && Url.all_bytes Url.is_digit digits)%bool
  end.

Fixpoint escapes_ok (s : string) : bool :=
  match s with
  | "" => true
  | String c s1 =>
      if decide (c = "%"%char) then
        match s1 with
        | String a (String b s3) =>
            (Url.ishex a && Url.ishex b && escapes_ok s3)%bool
        | _ => false
        end
      else escapes_ok s1
  end.

Definition path_ok (p : string) : bool :=
  (match p with "" => true | String c _ => bool_decide (c = "/"%char) end
   && Url.all_bytes
        (λ c, negb (Url.is_ctl c) && negb (bool_decide (c = "?"%char))) p
   && escapes_ok p)%bool.

Definition query_ok (q : string) : bool :=
  (match q with "" => true | String c _ => bool_decide (c = "?"%char) end
   && Url.all_bytes (λ c, negb (Url.is_ctl c)) q)%bool.

(** A string without the byte [c]. *)
Definition lacks (c : ascii) (s : string) : bool :=
  Url.all_bytes (λ d, negb (bool_decide (c = d))) s.

Definition absolute_url (scheme host port path query : string) : string :=
  scheme +:+ "://" +:+ host +:+ port +:+ path +:+ query.

(** File names: not empty, not [.] or [..], no separator. *)
Definition valid_name (n : string) : Prop :=
  n ≠ "" ∧ n ≠ "." ∧ n ≠ ".." ∧ Path.has_slash n = false.

Global Instance valid_name_dec n : Decision (valid_name n).
Proof. unfold valid_name. apply _. Defined.

(** A well-formed file system: every entry has a proper name and sits in
    a directory. *)
Definition wf (f : FS) : Prop :=
  map_Forall (λ p _, Forall valid_name p ∧ p ≠ []
                     ∧ Fs.node_at f (Fs.parent p) = Some Dir) f.

Global Instance wf_dec f : Decision (wf f).
Proof. unfold wf. apply _. Defined.

(** While the static files are copied: the file system stays well formed,
    nothing changes outside the site directory [T], and what is below [T]
    is found, path for path, below the static directory [S] of the file
    system [f0] in which the copy started. *)
Definition copying (S T : list string) (f0 f : FS) : Prop :=
  wf f
  ∧ (∀ q, Fs.below T q = false → f !! q = f0 !! q)
  ∧ (∀ rel n, rel ≠ [] → f !! (T ++ rel) = Some n → f0 !! (S ++ rel) = Some n).

(** The elements of the working directory. *)
Definition workdir {E} (w : World E) : list string :=
  Path.clean_from true [] (Path.split (cwd w)).

(** Modelled from the spec: [View.RenderPage] (package internal/views is not
    among the sources).  The template is rendered against the context, then
    the bytes are written to the path, missing parent directories being
    created; [render] stands for the template engine. *)
Definition RenderPage_spec {E T : Type}
    (render : T → Context → error + list Byte.byte)
    (view : View T) (path : string) (data : Context) (w : World E)
  : option error * World E :=
  match render (Template view) data with
  | inl e => (Some e, w)
  | inr bytes =>
      match Fs.mkdir_all (fs w) (Path.resolve (cwd w) (Path.Dir path)) with
      | (Some e, f) => (Some e, set_fs w f)
      | (None, f) =>
          match Fs.create f (Path.resolve (cwd w) path) with
          | (inl e, f') => (Some e, set_fs w f')
          | (inr p, f') => (None, set_fs w (<[p := File bytes]> f'))
          end
      end
  end.

(** The messages of the stages of the command other than a page that fails
    to render (lines 92-144), in the order of the stages. *)
Definition stage_messages : list string :=
  [ "Failed to get the current working directory.";
    "Unable to locate snowman.yaml in the current working directory.";
    "Failed to read snowman.yaml.";
    "Failed to parse snowman.yaml.";
    "Failed to validate snowman.yaml.";
    "Failed to create site directory.";
    "Failed to copy static files.";
    "Failed to discover layouts.";
    "Failed to discover views.";
    "Failed to connect to SPARQL endpoint.";
    "SPARQL query failed." ].

(** What a failure of the command tells: the message of its stage, or, for
    a page, the path of the page that was rendered last together with the
    error the renderer gave. *)
Definition reported `{Env} (f : Failure) (tr : list Event) : Prop :=
  message f ∈ stage_messages
  ∨ ∃ view p data,
      last tr = Some (EvRender view p data (Some (cause f)))
      ∧ message f = "Failed to render page at " +:+ p.

(** Every failure an action returns is reported so. *)
Definition reports `{Env} (m : M (option Failure)) : Prop :=
  ∀ st f, (m st).1 = Val (Some f) → reported f (trace (m st).2).

(** Nothing is removed from a file system: what was at a location is still
    there, except that a regular file may hold other bytes. *)
Definition kept (f f' : FS) : Prop :=
  ∀ q n, f !! q = Some n →
         f' !! q = Some n ∨ (IsRegular n = true ∧ ∃ c, f' !! q = Some (File c)).

(** A world some file operations later: the same working directory and
    surroundings, the lines printed so far still at the start of the output,
    nothing removed from the file system. *)
Definition later {E} (w w' : World E) : Prop :=
  cwd w' = cwd w ∧ getwd_err w' = getwd_err w ∧ ext w' = ext w
  ∧ stdout w `prefix_of` stdout w' ∧ kept (fs w) (fs w').

(** An action that only adds to the file system and to the output,
    however it ends. *)
Definition keeps `{Env} {A} (m : M A) : Prop :=
  ∀ st, later (world st) (world (m st).2).

(** What is below the site directory [T] came from the static directory
    [S] of [f0]: a regular file is the copy of the file at the same place
    below [S], a directory leads to such a file, and there is nothing
    else. *)
Definition mirrors (S T : list string) (f0 f : FS) : Prop :=
  ∀ rel n, rel ≠ [] → f !! (T ++ rel) = Some n →
    (∃ c, n = File c ∧ f0 !! (S ++ rel) = Some (File c))
    ∨ (n = Dir
       ∧ ∃ rel' c, rel' ≠ [] ∧ f0 !! (S ++ rel ++ rel') = Some (File c)).

(** The line [CopyStatic] prints for the file it found at [k], [depth]
    elements of which lead to the static directory. *)
Definition copied_line (depth : nat) (k : list string) : string :=
  "Copied static file to: " +:+ Path.join ("site" :: drop depth k).

(** ** A small site, for the concrete runs *)

Module Example.

Definition cell (v : string) : binding :=
  {| Type_ := "literal"; Value := v; Lang := ""; DataType := "" |}.

(** A template engine that prints the [title] of each row it is given. *)
Definition titles (t : string) (data : Context) : error + list Byte.byte :=
  inr (String.list_byte_of_string
         (t +:+ match data with
                | OneRow row => Value (row_index row "title")
                | AllRows rows =>
                    Path.join ((λ row, Value (row_index row "title")) <$> rows)
                end)).

Definition posts_view : View string :=
  {| ViewConfig := {| Output := "posts/{{slug}}.html" |};
     Sparql := "SELECT ?slug ?title WHERE { ?p a :Post }";
     MultipageVariableHook := Some "slug";
     Template := "post:" |}.

Definition index_view : View string :=
  {| ViewConfig := {| Output := "index.html" |};
     Sparql := "SELECT ?a WHERE { ?s :a ?a }";
     MultipageVariableHook := None;
     Template := "index:" |}.

Definition post_x : Row := {[ "slug" := cell "x"; "title" := cell "First" ]}.
Definition post_y : Row := {[ "slug" := cell "y"; "title" := cell "Second" ]}.
Definition posts : list Row := [post_x; post_y].

(** The two rows [{a:1},{a:2}]. *)
Definition two_rows : list Row := [ {[ "a" := cell "1" ]}; {[ "a" := cell "2" ]} ].

Definition rows_for (query : string) : list Row :=
  if decide (query = Sparql posts_view) then posts else two_rows.

Definition unmarshal (data : list Byte.byte) (c : siteConfig)
  : option error * siteConfig :=
  let text := String.string_of_list_byte data in
  if Str.HasPrefix text "sparql_endpoint: "
  then (None, {| Endpoint := Str.drop 17 text |})
  else (Some (ErrorString "yaml: unmarshal errors"), c).

Definition site : Env :=
  {| Ext := unit; Tmpl := string; Repo := string;
     yaml_Unmarshal := unmarshal;
     views_DiscoverViews := λ _ w, (inr [index_view; posts_view], w);
     sparql_NewRepo := λ endpoint w, (inr endpoint, w);
     repo_Query := λ _ query w, (inr (rows_for query), w);
     view_RenderPage := RenderPage_spec titles |}.

Definition b (s : string) : list Byte.byte := String.list_byte_of_string s.

Definition project : FS :=
  list_to_map
    [ (["srv"], Dir);
      (["srv"; "blog"], Dir);
      (["srv"; "blog"; "snowman.yaml"],
         File (b "sparql_endpoint: https://example.org/sparql"));
      (["srv"; "blog"; "static"], Dir);
      (["srv"; "blog"; "static"; "css"], Dir);
      (["srv"; "blog"; "static"; "css"; "site.css"], File (b "body{}"));
      (["srv"; "blog"; "static"; "robots.txt"], File (b "User-agent: *"));
      (["srv"; "blog"; "static"; "latest"], Special);
      (["srv"; "blog"; "templates"], Dir);
      (["srv"; "blog"; "templates"; "includes"], Dir);
      (["srv"; "blog"; "templates"; "includes"; "base.html"],
         File (b "<html>")) ].

(** The project once line 114 has made the site directory. *)
Definition project_with_site : FS := <[ ["srv"; "blog"; "site"] := Dir ]> project.

(** The project without its configuration file. *)
Definition project_without_config : FS :=
  delete ["srv"; "blog"; "snowman.yaml"] project.

(** A project that has no static files. *)
Definition bare_project : FS :=
  list_to_map
    [ (["srv"], Dir);
      (["srv"; "blog"], Dir);
      (["srv"; "blog"; "snowman.yaml"],
         File (b "sparql_endpoint: https://example.org/sparql"));
      (["srv"; "blog"; "site"], Dir) ].

Definition world_of (f : FS) : World unit :=
  {| cwd := "/srv/blog"; getwd_err := None; fs := f; stdout := [];
     ext := () |}.

Definition start (f : FS) : @State site :=
  @Build_State site (world_of f) [].

(** Two posts that share a slug. *)
Definition post_x' : Row := {[ "slug" := cell "x"; "title" := cell "Second" ]}.
Definition same_slug : list Row := [post_x; post_x'].

(** A post without a slug. *)
Definition untitled : Row := {[ "title" := cell "Second" ]}.
Definition no_slug : list Row := [post_x; untitled].

(** The bare project before a build: no site directory yet. *)
Definition unbuilt : FS := delete ["srv"; "blog"; "site"] bare_project.


(** A project where [static] is a regular file. *)
Definition static_file : FS :=
  <[ ["srv"; "blog"; "static"] := File (b "body{}") ]> bare_project.

(** A view whose pages are named by the row alone, and a row that names
    its page [../index]. *)
Definition flat_view : View string :=
  {| ViewConfig := {| Output := "{{slug}}.html" |};
     Sparql := "SELECT ?slug WHERE { ?p a :Post }";
     MultipageVariableHook := Some "slug";
     Template := "post:" |}.
Definition upward : Row := {[ "slug" := cell "../index" ]}.

End Example.


(** * Properties *)

(** ** Strings *)

Section StringFacts.
Implicit Types s t old new pre post : string.
Local Arguments String.append !_ _ / : simpl nomatch.
Local Arguments Str.HasPrefix : simpl never.

Lemma str_app_nil_r s : s +:+ "" = s.
Proof. induction s; simpl; congruence. Qed.

Lemma str_app_assoc s t u : (s +:+ t) +:+ u = s +:+ t +:+ u.
Proof. induction s; simpl; congruence. Qed.

Lemma str_length_app s t :
  String.length (s +:+ t) = String.length s + String.length t.
Proof. induction s; simpl; auto. Qed.

Lemma str_take_app s t : Str.take (String.length s) (s +:+ t) = s.
Proof. induction s; simpl; [by destruct t | congruence]. Qed.

Lemma str_drop_app s t : Str.drop (String.length s) (s +:+ t) = t.
Proof. induction s; simpl; auto. Qed.

Lemma str_drop_add n m s : Str.drop (n + m) s = Str.drop m (Str.drop n s).
Proof.
  revert s. induction n as [|n IH]; intros s; simpl; [done|].
  destruct s; simpl; [by destruct m | apply IH].
Qed.

Lemma str_take_drop n s : Str.take n s +:+ Str.drop n s = s.
Proof.
  revert s. induction n as [|n IH]; intros [|c s]; simpl; try done.
  by rewrite IH.
Qed.

Lemma HasPrefix_spec s pre :
  Str.HasPrefix s pre = true ↔ ∃ t, s = pre +:+ t.
Proof.
  unfold Str.HasPrefix. revert s.
  induction pre as [|a pre IH]; intros s; simpl.
  - destruct s; simpl; split; eauto.
  - destruct s as [|b s]; simpl.
    + split; [done | by intros [t ?]].
    + destruct (ascii_dec a b) as [->|Hne].
      * rewrite IH. split; intros [t Ht]; exists t; congruence.
      * split; [done | intros [t Ht]; congruence].
Qed.

Lemma HasPrefix_app pre t : Str.HasPrefix (pre +:+ t) pre = true.
Proof. apply HasPrefix_spec. eauto. Qed.

(** [Index] finds the leftmost occurrence. *)
Lemma Index_Some s old i :
  Str.Index s old = Some i →
  s = Str.take i s +:+ old +:+ Str.drop (i + String.length old) s
  ∧ String.length (Str.take i s) = i
  ∧ ∀ pre post, s = pre +:+ old +:+ post → i ≤ String.length pre.
Proof.
  revert i. induction s as [|c s IH]; intros i; simpl.
  - destruct (Str.HasPrefix "" old) eqn:Hp; [|done].
    intros [= <-]. apply HasPrefix_spec in Hp as [t Ht].
    destruct old; [|done]. simpl. split; [done|]. split; [done|]. lia.
  - destruct (Str.HasPrefix (String c s) old) eqn:Hp.
    + intros [= <-]. apply HasPrefix_spec in Hp as [t Ht].
      simpl. rewrite Ht at 2. rewrite str_drop_app.
      split; [done|]. split; [done|]. lia.
    + destruct (Str.Index s old) as [j|] eqn:Hj; [|done].
      intros [= <-]. destruct (IH j eq_refl) as (Heq & Hlen & Hmin).
      simpl. split; [by rewrite <- Heq|]. split; [by rewrite Hlen|].
      intros [|a pre] post Hs; simpl in *.
      * assert (Str.HasPrefix (String c s) old = true) as Hp'
          by (apply HasPrefix_spec; eauto).
        congruence.
      * injection Hs as -> Hs. apply Hmin in Hs. lia.
Qed.

Lemma Index_None s old :
  Str.Index s old = None → ∀ pre post, s ≠ pre +:+ old +:+ post.
Proof.
  induction s as [|c s IH]; simpl.
  - destruct (Str.HasPrefix "" old) eqn:Hp; [done|].
    intros _ [|a pre] post Hs; simpl in *; [|done].
    assert (Str.HasPrefix "" old = true) by (apply HasPrefix_spec; eauto).
    congruence.
  - destruct (Str.HasPrefix (String c s) old) eqn:Hp; [done|].
    destruct (Str.Index s old) eqn:Hj; [done|]. intros _.
    intros [|a pre] post Hs; simpl in *.
    + assert (Str.HasPrefix (String c s) old = true)
        by (apply HasPrefix_spec; eauto).
      congruence.
    + injection Hs as -> Hs. by eapply IH.
Qed.

Lemma Count_zero s old :
  old ≠ "" → Str.Count s old = 0 ↔ Str.Index s old = None.
Proof.
  intros Hold. unfold Str.Count. destruct (decide (old = "")); [done|].
  destruct s as [|c s].
  - split; [|done]. intros _. simpl.
    destruct (Str.HasPrefix "" old) eqn:Hp; [|done].
    apply HasPrefix_spec in Hp as [t Ht]. by destruct old.
  - change (String.length (String c s)) with (S (String.length s)).
    change (Str.count_go (S ?f) ?a ?b) with
      (match Str.Index a b with
       | None => 0
       | Some i => S (Str.count_go f (Str.drop (i + String.length b) a) b)
       end).
    destruct (Str.Index (String c s) old); split; done.
Qed.

(** [strings.Replace] with [n = 1]. *)
Lemma Replace_one s old new :
  Str.Replace s old new 1 =
    match Str.Index s old with
    | Some i => Str.take i s +:+ new +:+ Str.drop (i + String.length old) s
    | None => s
    end.
Proof.
  unfold Str.Replace.
  destruct (decide (old = new ∨ 1%Z = 0%Z)) as [[->|?]|Hne]; [|lia|].
  - destruct (Str.Index s new) as [i|] eqn:Hi; [|done].
    by apply Index_Some in Hi as [<- _].
  - destruct (decide (old = "")) as [->|Hold].
    + unfold Str.Count. simpl decide.
      destruct (decide (S (Str.RuneCountInString s) = 0)); [done|].
      destruct (decide _) as [?|_]; [lia|]. simpl.
      assert (Str.Index s "" = Some 0) as ->; [|done].
      destruct s; done.
    + destruct (decide (Str.Count s old = 0)) as [Hc|Hc].
      * apply Count_zero in Hc as ->; done.
      * destruct (Str.Index s old) as [i|] eqn:Hi;
          [|by apply Count_zero in Hi].
        destruct (decide _) as [?|_]; [lia|].
        simpl. destruct (decide (old = "")); [done|].
        by rewrite Hi.
Qed.


End StringFacts.

(** ** Runs of the page loops *)

Section RunFacts.
Context `{Env}.
Implicit Types (st : State) (view : View Tmpl) (results : list Row).

Ltac run := unfold mbind, M_bind, mret, M_ret, on_world, log; simpl.

Lemma RenderPage_run view p d st :
  RenderPage view p d st =
    let '(res, w') := view_RenderPage view p d (world st) in
    (Val res, {| world := w'; trace := trace st ++ [EvRender view p d res] |}).
Proof.
  unfold RenderPage. run. by destruct (view_RenderPage _ _ _ _).
Qed.

Lemma Query_run repo view st :
  Query repo view st =
    let '(res, w') := repo_Query repo (Sparql view) (world st) in
    (Val res, {| world := w'; trace := trace st ++ [EvQuery view res] |}).
Proof. unfold Query. run. by destruct (repo_Query _ _ _). Qed.

Lemma render_rows_run view hook results st :
  ∃ evs r w',
    render_rows view hook results st
      = (Val r, {| world := w'; trace := trace st ++ evs |})
    ∧ rows_run view hook results evs r.
Proof.
  revert st. induction results as [|row rest IH]; intros st; simpl.
  - exists [], None, (world st). rewrite app_nil_r. split; [|constructor].
    by destruct st.
  - unfold mbind, M_bind. rewrite RenderPage_run.
    destruct (view_RenderPage _ _ _ _) as [[e|] w'].
    + eexists [_], _, w'. split; [done|]. apply rows_fail.
    + destruct (IH {| world := w';
                      trace := trace st ++
                        [EvRender view (outputPath_of view hook row)
                           (OneRow row) None] |})
        as (evs & r & w'' & Hrun & Hrel).
      eexists (_ :: evs), r, w''. split; [|by apply rows_next].
      rewrite Hrun. simpl. by rewrite <- app_assoc.
Qed.

Lemma render_view_run view results st :
  ∃ evs r w',
    render_view view results st
      = (Val r, {| world := w'; trace := trace st ++ evs |})
    ∧ pages_run view results evs r.
Proof.
  unfold render_view.
  destruct (MultipageVariableHook view) as [hook|] eqn:Hhook.
  - destruct (render_rows_run view hook results st)
      as (evs & r & w' & Hrun & Hrel).
    exists evs, r, w'. split; [done|]. by eapply pages_multi.
  - unfold mbind, M_bind. rewrite RenderPage_run.
    destruct (view_RenderPage _ _ _ _) as [res w'] eqn:Hr.
    eexists [_], _, w'. split; [|by apply (pages_single _ _ res)].
    by destruct res.
Qed.

Lemma build_view_run config view st :
  ∃ evs r w',
    build_view config view st
      = (Val r, {| world := w'; trace := trace st ++ evs |})
    ∧ view_run view evs r.
Proof.
  unfold build_view. unfold mbind at 1, M_bind at 1. unfold on_world at 1.
  destruct (sparql_NewRepo _ _) as [[e|repo] w1].
  - exists [], (ErrorExit "Failed to connect to SPARQL endpoint." e), w1.
    rewrite app_nil_r. split; [done | constructor].
  - unfold mbind, M_bind. rewrite Query_run. simpl.
    destruct (repo_Query _ _ _) as [[e|results] w2].
    + eexists [_], _, w2. split; [done | constructor].
    + destruct (render_view_run view results
                  {| world := w2;
                     trace := trace st ++ [EvQuery view (inr results)] |})
        as (evs & r & w' & Hrun & Hrel).
      exists (EvQuery view (inr results) :: evs), r, w'.
      split; [|by constructor].
      rewrite Hrun. simpl. by rewrite <- app_assoc.
Qed.

Lemma build_views_run config (views : list (View Tmpl)) st :
  ∃ evs r w',
    build_views config views st
      = (Val r, {| world := w'; trace := trace st ++ evs |})
    ∧ views_run views evs r.
Proof.
  revert st. induction views as [|view rest IH]; intros st; simpl.
  - exists [], None, (world st). rewrite app_nil_r.
    split; [by destruct st | constructor].
  - unfold mbind, M_bind.
    destruct (build_view_run config view st)
      as (evs & r & w' & -> & Hrel).
    destruct r as [f|].
    + exists evs, (Some f), w'. split; [done | by constructor].
    + destruct (IH {| world := w'; trace := trace st ++ evs |})
        as (evs' & r & w'' & -> & Hrel').
      exists (evs ++ evs'), r, w''. simpl. rewrite app_assoc.
      split; [done | by constructor].
Qed.

End RunFacts.

Section LoopFacts.
Context `{Env}.
Implicit Types (st : State) (view : View Tmpl) (results : list Row).

Lemma rows_run_ok view hook results evs :
  rows_run view hook results evs None →
  evs = page_ok view hook <$> results.
Proof.
  intros Hrun. remember None as r eqn:Hr.
  induction Hrun as [|row rest e|row rest evs r _ IH]; simpl;
    [done | done | by rewrite IH].
Qed.

Lemma rows_run_failure view hook results evs f :
  rows_run view hook results evs (Some f) →
  ∃ i row e,
    results !! i = Some row
    ∧ evs = (page_ok view hook <$> take i results)
            ++ [EvRender view (outputPath_of view hook row) (OneRow row)
                  (Some e)]
    ∧ f = {| message := "Failed to render page at "
                          +:+ outputPath_of view hook row;
             cause := e |}.
Proof.
  intros Hrun. remember (Some f) as r eqn:Hr.
  induction Hrun as [|row rest e|row rest evs r _ IH]; [done| |].
  - injection Hr as <-. by exists 0, row, e.
  - destruct (IH Hr) as (i & row' & e & Hi & -> & ->).
    by exists (S i), row', e.
Qed.

Lemma rows_run_queried view hook results evs r :
  rows_run view hook results evs r → queried evs = [].
Proof. induction 1; simpl; auto. Qed.

Lemma rows_run_failed_last view hook results evs r pre ev post :
  rows_run view hook results evs r →
  evs = pre ++ ev :: post → failed ev → post = [] ∧ r ≠ None.
Proof.
  intros Hrun. revert pre.
  induction Hrun as [|row rest e|row rest evs r _ IH]; intros pre Heq Hf.
  - by destruct pre.
  - destruct pre as [|? [|]]; simplify_eq/=. done.
  - destruct pre as [|? pre]; simplify_eq/=; [done|]. by eapply IH.
Qed.

Lemma pages_run_queried view results evs r :
  pages_run view results evs r → queried evs = [].
Proof. destruct 1; [by eapply rows_run_queried | done]. Qed.

Lemma pages_run_failed_last view results evs r pre ev post :
  pages_run view results evs r →
  evs = pre ++ ev :: post → failed ev → post = [] ∧ r ≠ None.
Proof.
  destruct 1 as [hook results evs r _ Hrows|results res _]; intros Heq Hf.
  - by eapply rows_run_failed_last.
  - destruct pre as [|? [|]]; simplify_eq/=. by destruct res.
Qed.

Lemma view_run_queried view evs r :
  view_run view evs r → queried evs = [] ∨ queried evs = [view].
Proof.
  destruct 1 as [| |results evs r Hp]; simpl; auto.
  right. by rewrite (pages_run_queried _ _ _ _ Hp).
Qed.

Lemma view_run_ok_queried view evs :
  view_run view evs None → queried evs = [view].
Proof.
  inversion 1 as [| |results evs' r Hp]; subst. simpl.
  by rewrite (pages_run_queried _ _ _ _ Hp).
Qed.

Lemma view_run_failed_last view evs r pre ev post :
  view_run view evs r →
  evs = pre ++ ev :: post → failed ev → post = [] ∧ r ≠ None.
Proof.
  destruct 1 as [e|e|results evs r Hp]; intros Heq Hf.
  - by destruct pre.
  - destruct pre as [|? [|]]; simplify_eq/=. done.
  - destruct pre as [|? pre]; simplify_eq/=; [done|].
    by eapply pages_run_failed_last.
Qed.

Lemma queried_app (evs evs' : list Event) :
  queried (evs ++ evs') = queried evs ++ queried evs'.
Proof.
  induction evs as [|[] evs IH]; simpl; [done | by rewrite IH | done].
Qed.

Lemma views_run_queried (views : list (View Tmpl)) evs r :
  views_run views evs r →
  ∃ n, queried evs = take n views ∧ (r = None → n = length views).
Proof.
  induction 1 as [|view rest evs f Hv|view rest evs evs' r Hv _ IH].
  - by exists 0.
  - destruct (view_run_queried _ _ _ Hv) as [-> | ->].
    + by exists 0.
    + by exists 1.
  - destruct IH as (n & Hq & Hn). exists (S n).
    rewrite queried_app, (view_run_ok_queried _ _ Hv), Hq. simpl.
    split; [done|]. intros Hr. by rewrite Hn.
Qed.

Lemma views_run_failed_last (views : list (View Tmpl)) evs r pre ev post :
  views_run views evs r →
  evs = pre ++ ev :: post → failed ev → post = [] ∧ r ≠ None.
Proof.
  intros Hrun. revert pre.
  induction Hrun as [|view rest evs f Hv|view rest evs evs' r Hv _ IH];
    intros pre Heq Hf.
  - by destruct pre.
  - by eapply view_run_failed_last.
  - (* the failing event cannot lie in the events of a view that passed *)
    assert (∀ pre1 post1, evs = pre1 ++ ev :: post1 → False) as Hnot.
    { intros pre1 post1 Hev.
      by destruct (view_run_failed_last _ _ _ _ _ _ Hv Hev Hf). }
    apply app_eq_app in Heq as [k [[-> Hk]|[-> Hk]]].
    + destruct k as [|ev' k]; simpl in *.
      * by eapply IH with (pre := []).
      * simplify_eq. exfalso. by eapply Hnot.
    + by eapply IH.
Qed.

End LoopFacts.

(** ** The pages of a view (lines 148-159) *)

Section Pages.
Context `{Env}.
Implicit Types (st : State) (view : View Tmpl) (results : list Row).


(** C4 (as amended): in single-page mode [RenderPage] is called exactly
    once, at ["site/"] followed by the output pattern as it is, with all the
    rows as data. *)
Theorem single_page_job view results st :
  MultipageVariableHook view = None →
  ∃ res w',
    render_view view results st
      = (Val (match res with
              | Some e =>
                  ErrorExit ("Failed to render page at site/"
                               +:+ Output (ViewConfig view)) e
              | None => None
              end),
         {| world := w';
            trace := trace st ++
              [EvRender view ("site/" +:+ Output (ViewConfig view))
                 (AllRows results) res] |}).
Proof.
  intros Hhook.
  destruct (render_view_run view results st) as (evs & r & w' & Hrun & Hrel).
  destruct Hrel as [hook' results evs r Hhook' Hrows|results res Hnone];
    [congruence|].
  by exists res, w'.
Qed.

(** C1 (as amended): the rows of a multi-page view are not checked for
    colliding paths: when two rows substitute to the same output path the
    step fails only if a [RenderPage] call returns an error, and otherwise
    both rows are rendered, in row order, at that one path. *)
Theorem same_path_rows_both_rendered view hook results st i j row_i row_j :
  MultipageVariableHook view = Some hook →
  i < j → results !! i = Some row_i → results !! j = Some row_j →
  outputPath_of view hook row_i = outputPath_of view hook row_j →
  ∃ evs r w',
    render_view view results st
      = (Val r, {| world := w'; trace := trace st ++ evs |})
    ∧ match r with
      | None =>
          evs !! i = Some (EvRender view (outputPath_of view hook row_i)
                             (OneRow row_i) None)
          ∧ evs !! j = Some (EvRender view (outputPath_of view hook row_i)
                               (OneRow row_j) None)
      | Some f =>
          ∃ row e,
            row ∈ results
            ∧ last evs = Some (EvRender view (outputPath_of view hook row)
                                 (OneRow row) (Some e))
            ∧ f = {| message := "Failed to render page at "
                                  +:+ outputPath_of view hook row;
                     cause := e |}
      end.
Proof.
  intros Hhook Hij Hi Hj Hsame.
  destruct (render_view_run view results st) as (evs & r & w' & Hrun & Hrel).
  exists evs, r, w'. split; [done|].
  destruct Hrel as [hook' results evs r Hhook' Hrows|results res Hnone];
    [|congruence].
  assert (hook' = hook) as -> by congruence.
  destruct r as [f|].
  - apply rows_run_failure in Hrows as (k & rowk & e & Hk & -> & ->).
    exists rowk, e. split; [by eapply list_elem_of_lookup_2|].
    by rewrite last_snoc.
  - apply rows_run_ok in Hrows as ->.
    rewrite !list_lookup_fmap, Hi, Hj. simpl. unfold page_ok.
    by rewrite Hsame.
Qed.

(** C2 (as amended): a row of a multi-page view that lacks the
    [multipageKey] column is given the empty string as its value: its page
    goes to the pattern with the placeholder replaced by nothing, and the
    step fails only if a [RenderPage] call returns an error. *)
Theorem row_without_key_rendered view hook results st i row :
  MultipageVariableHook view = Some hook →
  results !! i = Some row → row !! hook = None →
  outputPath_of view hook row
    = "site/" +:+ Str.Replace (Output (ViewConfig view))
                    ("{{" +:+ hook +:+ "}}") "" 1
  ∧ ∃ evs r w',
      render_view view results st
        = (Val r, {| world := w'; trace := trace st ++ evs |})
      ∧ match r with
        | None =>
            evs !! i = Some (EvRender view (outputPath_of view hook row)
                               (OneRow row) None)
        | Some f =>
            ∃ row' e,
              row' ∈ results
              ∧ last evs = Some (EvRender view (outputPath_of view hook row')
                                   (OneRow row') (Some e))
              ∧ f = {| message := "Failed to render page at "
                                    +:+ outputPath_of view hook row';
                       cause := e |}
        end.
Proof.
  intros Hhook Hi Hrow. split.
  { unfold outputPath_of, row_index. by rewrite Hrow. }
  destruct (render_view_run view results st) as (evs & r & w' & Hrun & Hrel).
  exists evs, r, w'. split; [done|].
  destruct Hrel as [hook' results evs r Hhook' Hrows|results res Hnone];
    [|congruence].
  assert (hook' = hook) as -> by congruence.
  destruct r as [f|].
  - apply rows_run_failure in Hrows as (k & rowk & e & Hk & -> & ->).
    exists rowk, e. split; [by eapply list_elem_of_lookup_2|].
    by rewrite last_snoc.
  - apply rows_run_ok in Hrows as ->.
    by rewrite list_lookup_fmap, Hi.
Qed.

End Pages.


(** ** Before the loop: nothing is queried, nothing is rendered *)

Section Quiet.
Context `{Env}.

Lemma quiet_ret {A} (a : A) : quiet (mret a).
Proof. by intros st. Qed.

Lemma quiet_panic {A} : quiet (@panic _ A).
Proof. by intros st. Qed.

Lemma quiet_on_world {A} (f : World Ext → A * World Ext) : quiet (on_world f).
Proof. intros st. unfold on_world. by destruct (f (world st)). Qed.

Lemma quiet_bind {A B} (m : M A) (f : A → M B) :
  quiet m → (∀ a, quiet (f a)) → quiet (m ≫= f).
Proof.
  intros Hm Hf st. unfold mbind, M_bind. specialize (Hm st).
  destruct (m st) as [[a|] st1]; simpl in *; [|done].
  by rewrite Hf.
Qed.

Lemma quiet_walk_entries {A} (fn : WalkFunc A) root depth entries a :
  (∀ p i e a, quiet (fn p i e a)) →
  quiet (walk_entries fn root depth entries a).
Proof.
  intros Hfn. revert a.
  induction entries as [|[p info] rest IH]; intros a; simpl.
  - apply quiet_ret.
  - apply quiet_bind; [apply Hfn|]. intros [[e|] a']; [apply quiet_ret | apply IH].
Qed.

Lemma quiet_Walk {A} root (fn : WalkFunc A) a :
  (∀ p i e a, quiet (fn p i e a)) → quiet (filepath_Walk root fn a).
Proof.
  intros Hfn st. unfold filepath_Walk.
  destruct (Fs.stat _ _) as [e|info]; [apply Hfn|].
  apply (quiet_bind (fn root (Some info) None a)); [apply Hfn|].
  intros [[e|] a']; [apply quiet_ret|].
  destruct (IsDir info); [by apply quiet_walk_entries | apply quiet_ret].
Qed.

Lemma quiet_copy_file p i e a : quiet (copy_file p i e a).
Proof.
  unfold copy_file. destruct i as [info|]; [|apply quiet_panic].
  destruct (IsRegular info); [|apply quiet_ret].
  apply quiet_bind; [apply quiet_on_world|]. intros [?|]; [apply quiet_ret|].
  apply quiet_bind; [apply quiet_on_world|]. intros [?|?]; [apply quiet_ret|].
  apply quiet_bind; [apply quiet_on_world|]. intros [?|?]; [apply quiet_ret|].
  apply quiet_bind; [apply quiet_on_world|]. intros [?|]; [apply quiet_ret|].
  apply quiet_bind; [apply quiet_on_world|]. intros _. apply quiet_ret.
Qed.

Lemma quiet_CopyStatic : quiet CopyStatic.
Proof.
  unfold CopyStatic. apply quiet_bind.
  - apply quiet_Walk, quiet_copy_file.
  - intros [e []]. apply quiet_ret.
Qed.

Lemma quiet_DiscoverIncludes : quiet DiscoverIncludes.
Proof.
  unfold DiscoverIncludes. apply quiet_bind.
  - apply quiet_Walk. intros p i e a.
    destruct e; [apply quiet_ret|].
    destruct i as [info|]; [|apply quiet_panic].
    destruct (negb (IsDir info)); apply quiet_ret.
  - intros [[e|] paths]; apply quiet_ret.
Qed.

Lemma quiet_copy_static_files : quiet copy_static_files.
Proof.
  unfold copy_static_files. apply quiet_bind; [apply quiet_on_world|].
  intros st. destruct (match st with inl e => IsNotExist e | inr _ => false end).
  - apply quiet_bind; [apply quiet_on_world | intros; apply quiet_ret].
  - apply quiet_bind; [apply quiet_CopyStatic|]. intros [?|]; apply quiet_ret.
Qed.

Lemma loop_events_quiet (m : M (option Failure)) : quiet m → loop_events m.
Proof. intros Hm st. by left. Qed.

Lemma loop_events_bind {A} (m : M A) (f : A → M (option Failure)) :
  quiet m → (∀ a, loop_events (f a)) → loop_events (m ≫= f).
Proof.
  intros Hm Hf st. unfold mbind, M_bind. specialize (Hm st).
  destruct (m st) as [[a|] st1]; simpl in *; [|by left].
  rewrite <- Hm. apply Hf.
Qed.

Lemma loop_events_build_pages config : loop_events (build_pages config).
Proof.
  unfold build_pages. apply loop_events_bind; [apply quiet_DiscoverIncludes|].
  intros [e|layouts]; [apply loop_events_quiet, quiet_ret|].
  intros st. unfold mbind, M_bind, on_world.
  destruct (views_DiscoverViews layouts (world st)) as [[e|views] w'] eqn:Hd.
  - by left.
  - destruct (build_views_run config views
                {| world := w'; trace := trace st |})
      as (evs & r & w'' & Hrun & Hrel).
    right. exists layouts, (world st), w', views, evs, r.
    rewrite Hrun. by simpl.
Qed.

Lemma loop_events_buildCmd : loop_events buildCmd.
Proof.
  unfold buildCmd. apply loop_events_bind; [apply quiet_on_world|].
  intros [e|wd]; [apply loop_events_quiet, quiet_ret|].
  apply loop_events_bind; [apply quiet_on_world|].
  intros [e|_]; [apply loop_events_quiet, quiet_ret|].
  apply loop_events_bind; [apply quiet_on_world|].
  intros [e|data]; [apply loop_events_quiet, quiet_ret|].
  destruct (Parse _ data) as [[e|] config]; [apply loop_events_quiet, quiet_ret|].
  destruct (IsValid config); [apply loop_events_quiet, quiet_ret|].
  unfold build_site. apply loop_events_bind; [apply quiet_on_world|].
  intros [e|]; [apply loop_events_quiet, quiet_ret|].
  unfold build_static.
  apply loop_events_bind; [apply quiet_copy_static_files|].
  intros [f|]; [apply loop_events_quiet, quiet_ret|].
  apply loop_events_build_pages.
Qed.

End Quiet.

(** ** The whole command: order of the calls, and where pages go *)

Section Command.
Context `{Env}.

Lemma rows_run_paths view hook results evs r :
  rows_run view hook results evs r →
  ∀ v p d res, EvRender v p d res ∈ evs →
    v = view ∧ ∃ row, row ∈ results ∧ d = OneRow row
                      ∧ p = outputPath_of view hook row.
Proof.
  induction 1 as [|row rest e|row rest evs r _ IH]; intros v p d res Hin.
  - by apply elem_of_nil in Hin.
  - apply list_elem_of_singleton in Hin. simplify_eq.
    split; [done|]. exists row. split; [left | done].
  - apply elem_of_cons in Hin as [Heq|Hin].
    + simplify_eq. split; [done|]. exists row. split; [left | done].
    + destruct (IH _ _ _ _ Hin) as (-> & row' & Hrow & -> & ->).
      split; [done|]. exists row'. split; [by right | done].
Qed.

Lemma view_run_paths view evs r :
  view_run view evs r →
  ∀ v p d res, EvRender v p d res ∈ evs →
    v = view
    ∧ ((MultipageVariableHook v = None
        ∧ p = siteDir +:+ Output (ViewConfig v))
       ∨ ∃ hook row, MultipageVariableHook v = Some hook ∧ d = OneRow row
                     ∧ p = outputPath_of v hook row).
Proof.
  destruct 1 as [e|e|results evs r Hp]; intros v p d res Hin.
  - by apply elem_of_nil in Hin.
  - apply list_elem_of_singleton in Hin. done.
  - apply elem_of_cons in Hin as [Heq|Hin]; [done|].
    destruct Hp as [hook results evs r Hhook Hrows|results res' Hnone].
    + destruct (rows_run_paths _ _ _ _ _ Hrows _ _ _ _ Hin)
        as (-> & row & _ & -> & ->).
      split; [done|]. right. by exists hook, row.
    + apply list_elem_of_singleton in Hin. simplify_eq.
      split; [done|]. by left.
Qed.

Lemma views_run_paths (views : list (View Tmpl)) evs r :
  views_run views evs r →
  ∀ v p d res, EvRender v p d res ∈ evs →
    v ∈ views
    ∧ ((MultipageVariableHook v = None
        ∧ p = siteDir +:+ Output (ViewConfig v))
       ∨ ∃ hook row, MultipageVariableHook v = Some hook ∧ d = OneRow row
                     ∧ p = outputPath_of v hook row).
Proof.
  induction 1 as [|view rest evs f Hv|view rest evs evs' r Hv _ IH];
    intros v p d res Hin.
  - by apply elem_of_nil in Hin.
  - destruct (view_run_paths _ _ _ Hv _ _ _ _ Hin) as [-> Hshape].
    split; [left | done].
  - apply elem_of_app in Hin as [Hin|Hin].
    + destruct (view_run_paths _ _ _ Hv _ _ _ _ Hin) as [-> Hshape].
      split; [left | done].
    + destruct (IH _ _ _ _ Hin) as [Hv' Hshape]. split; [by right | done].
Qed.

(** C9: the command queries the views one at a time in the order
    [views.DiscoverViews] returned them and renders the rows of a view in
    row order ([views_run]); a call that returns an error is the last call
    of the run and the command then returns a failure, so no later view is
    queried, no later page is rendered and nothing is tried twice. *)
Theorem build_one_at_a_time (st : State) :
  ∃ evs,
    trace (buildCmd st).2 = trace st ++ evs
    ∧ (evs = []
       ∨ ∃ layouts w w' views r,
           views_DiscoverViews layouts w = (inr views, w')
           ∧ (buildCmd st).1 = Val r
           ∧ views_run views evs r
           ∧ ∃ n, queried evs = take n views
                  ∧ (r = None → n = length views))
    ∧ ∀ pre ev post,
        evs = pre ++ ev :: post → failed ev →
        post = [] ∧ ∃ f, (buildCmd st).1 = Val (Some f).
Proof.
  destruct (loop_events_buildCmd st)
    as [Hq|(layouts & w & w' & views & evs & r & Hd & Hr & Ht & Hrun)].
  - exists []. rewrite app_nil_r. split; [done|]. split; [by left|].
    intros pre ev post Heq. by destruct pre.
  - exists evs. split; [done|]. split.
    + right. exists layouts, w, w', views, r.
      repeat split; try done. by eapply views_run_queried.
    + intros pre ev post Heq Hf.
      destruct (views_run_failed_last _ _ _ _ _ _ Hrun Heq Hf) as [-> Hr'].
      split; [done|]. destruct r as [f|]; [by exists f | done].
Qed.

(** C10: every path the command passes to [RenderPage] is ["site/"] put in
    front of the view's output pattern, after the substitution of the
    placeholder in multi-page mode; so it begins with ["site/"]. *)
Theorem pages_under_site (st : State) :
  ∃ evs,
    trace (buildCmd st).2 = trace st ++ evs
    ∧ ∀ view p data res,
        EvRender view p data res ∈ evs →
        Str.HasPrefix p "site/" = true
        ∧ ((MultipageVariableHook view = None
            ∧ p = "site/" +:+ Output (ViewConfig view))
           ∨ ∃ hook row,
               MultipageVariableHook view = Some hook
               ∧ data = OneRow row
               ∧ p = "site/" +:+
                       Str.Replace (Output (ViewConfig view))
                         ("{{" +:+ hook +:+ "}}")
                         (Value (row_index row hook)) 1).
Proof.
  destruct (loop_events_buildCmd st)
    as [Hq|(layouts & w & w' & views & evs & r & Hd & Hr & Ht & Hrun)].
  - exists []. rewrite app_nil_r. split; [done|].
    intros view p data res Hin. by apply elem_of_nil in Hin.
  - exists evs. split; [done|]. intros view p data res Hin.
    destruct (views_run_paths _ _ _ Hrun _ _ _ _ Hin)
      as [_ [[Hnone ->]|(hook & row & Hhook & -> & ->)]].
    + split; [apply HasPrefix_app|]. by left.
    + split; [apply HasPrefix_app|]. right. by exists hook, row.
Qed.

End Command.

(** ** Before the site directory: configuration (lines 90-117) *)

Section Prelude.
Context `{Env}.

Lemma state_eta (st : State) : {| world := world st; trace := trace st |} = st.
Proof. by destruct st. Qed.

Lemma set_fs_same {E} (w : World E) : set_fs w (fs w) = w.
Proof. by destruct w. Qed.

Lemma on_world_same {A} (f : World Ext → A * World Ext) a (st : State) :
  f (world st) = (a, world st) → on_world f st = (Val a, st).
Proof. intros Hf. unfold on_world. by rewrite Hf, state_eta. Qed.

Lemma os_Getwd_run (st : State) :
  os_Getwd st = (Val (match getwd_err (world st) with
                      | Some e => inl e
                      | None => inr (cwd (world st))
                      end), st).
Proof. by apply on_world_same. Qed.

Lemma os_Stat_run path (st : State) :
  os_Stat path st
    = (Val (Fs.stat (fs (world st)) (at_ (world st) path)), st).
Proof. by apply on_world_same. Qed.

Lemma ioutil_ReadFile_run path (st : State) :
  ioutil_ReadFile path st
    = (Val (Fs.read_file (fs (world st)) (at_ (world st) path)), st).
Proof. by apply on_world_same. Qed.

Lemma os_Mkdir_run path (st : State) :
  os_Mkdir path st
    = (Val (Fs.mkdir (fs (world st)) (at_ (world st) path)).1,
       {| world := set_fs (world st)
                     (Fs.mkdir (fs (world st)) (at_ (world st) path)).2;
          trace := trace st |}).
Proof. unfold os_Mkdir, on_world. by destruct (Fs.mkdir _ _). Qed.

(** What [os.Mkdir] does, by what is at the path and above it. *)
Lemma mkdir_exists (f : FS) p :
  is_Some (Fs.node_at f p) → Fs.mkdir f p = (Some EEXIST, f).
Proof. intros [n Hn]. unfold Fs.mkdir. by rewrite Hn. Qed.

Lemma mkdir_new (f : FS) p :
  Fs.node_at f p = None → Fs.node_at f (Fs.parent p) = Some Dir →
  Fs.mkdir f p = (None, <[p := Dir]> f).
Proof.
  intros Hp Hparent. unfold Fs.mkdir, Fs.stat. by rewrite Hp, Hparent.
Qed.

Lemma mkdir_cases (f : FS) p :
  (∃ e, Fs.mkdir f p = (Some e, f))
  ∨ (Fs.node_at f p = None ∧ Fs.node_at f (Fs.parent p) = Some Dir
     ∧ Fs.mkdir f p = (None, <[p := Dir]> f)).
Proof.
  unfold Fs.mkdir, Fs.stat.
  destruct (Fs.node_at f p); [by eauto|].
  destruct (Fs.node_at f (Fs.parent p)) as [[]|]; eauto.
Qed.

(** Lines 90-111 leave the state alone. *)
Lemma buildCmd_unfold (st : State) :
  buildCmd st =
    match getwd_err (world st) with
    | Some e =>
        (Val (ErrorExit "Failed to get the current working directory." e), st)
    | None =>
        let yaml := at_ (world st) (cwd (world st) +:+ "/snowman.yaml") in
        match Fs.stat (fs (world st)) yaml with
        | inl e =>
            (Val (ErrorExit
               "Unable to locate snowman.yaml in the current working directory."
               e), st)
        | inr _ =>
            match Fs.read_file (fs (world st)) yaml with
            | inl e => (Val (ErrorExit "Failed to read snowman.yaml." e), st)
            | inr data =>
                match Parse {| Endpoint := "" |} data with
                | (Some e, _) =>
                    (Val (ErrorExit "Failed to parse snowman.yaml." e), st)
                | (None, config) =>
                    match IsValid config with
                    | Some e =>
                        (Val (ErrorExit "Failed to validate snowman.yaml." e),
                         st)
                    | None => build_site config st
                    end
                end
            end
        end
    end.
Proof.
  unfold buildCmd, mbind at 1, M_bind at 1. rewrite os_Getwd_run.
  destruct (getwd_err (world st)); [done|].
  unfold mbind at 1, M_bind at 1. rewrite os_Stat_run. simpl.
  destruct (Fs.stat _ _); [done|].
  unfold mbind at 1, M_bind at 1. rewrite ioutil_ReadFile_run.
  destruct (Fs.read_file _ _) as [e|data]; [done|].
  destruct (Parse _ data) as [[e|] config]; [done|].
  by destruct (IsValid config).
Qed.

(** The command up to the site directory: it fails without touching the
    state, or it reaches line 113 with the configuration it read. *)
Lemma buildCmd_to_site (st : State) :
  (∃ f, buildCmd st = (Val (Some f), st))
  ∨ (∃ config, buildCmd st = build_site config st).
Proof.
  rewrite buildCmd_unfold.
  destruct (getwd_err (world st)); [left; by eexists|]. simpl.
  destruct (Fs.stat _ _); [left; by eexists|].
  destruct (Fs.read_file _ _) as [e|data]; [left; by eexists|].
  destruct (Parse _ data) as [[e|] config]; [left; by eexists|].
  destruct (IsValid config); [left; by eexists|].
  right. by exists config.
Qed.

(** C6: when there is nothing at [snowman.yaml] in the working directory
    the command fails, with a non-zero exit status, and leaves the state as
    it found it: no directory is created (and nothing is queried or
    rendered).  The failure is that of line 96, a [ConfigError], whenever
    the working directory itself could be determined. *)
Theorem missing_config_fails (st : State) :
  Fs.node_at (fs (world st))
    (at_ (world st) (cwd (world st) +:+ "/snowman.yaml")) = None →
  ∃ f,
    buildCmd st = (Val (Some f), st)
    ∧ exit_status (Some f) ≠ 0%Z
    ∧ (getwd_err (world st) = None →
       ConfigError f
       ∧ message f
         = "Unable to locate snowman.yaml in the current working directory.").
Proof.
  intros Hnone. rewrite buildCmd_unfold.
  destruct (getwd_err (world st)) as [e|] eqn:Hwd.
  - eexists. split; [done|]. split; [done|]. done.
  - simpl. unfold Fs.stat. rewrite Hnone.
    eexists. split; [done|]. split; [done|]. intros _.
    split; [|done]. unfold ConfigError. simpl. left.
Qed.

Lemma build_site_exists config (st : State) :
  is_Some (Fs.node_at (fs (world st)) (at_ (world st) "site")) →
  build_site config st
    = (Val (ErrorExit "Failed to create site directory." EEXIST), st).
Proof.
  intros Hsite. unfold build_site, mbind, M_bind.
  rewrite os_Mkdir_run, mkdir_exists by done. simpl.
  by rewrite set_fs_same, state_eta.
Qed.

End Prelude.

(** ** Paths *)

Section PathFacts.
Implicit Types (a b n : string) (l rel : list string).
Local Arguments String.append !_ _ / : simpl nomatch.
Local Arguments Str.HasPrefix : simpl never.

Lemma split_nonempty a : Path.split a ≠ [].
Proof.
  induction a as [|c a IH]; simpl; [done|].
  destruct (decide _); [done|]. by destruct (Path.split a).
Qed.

Lemma split_no_slash n : Path.has_slash n = false → Path.split n = [n].
Proof.
  induction n as [|c n IH]; simpl; [done|].
  destruct (decide _); [done|]. intros Hn. by rewrite IH.
Qed.

Lemma split_app_slash a b :
  Path.split (a +:+ "/" +:+ b) = Path.split a ++ Path.split b.
Proof.
  induction a as [|c a IH]; simpl in *; [done|].
  destruct (decide _); [by rewrite IH|].
  rewrite IH. pose proof (split_nonempty a). by destruct (Path.split a).
Qed.

Lemma join_cons n l : l ≠ [] → Path.join (n :: l) = n +:+ "/" +:+ Path.join l.
Proof. by destruct l. Qed.

Lemma join_snoc l n :
  l ≠ [] → Path.join (l ++ [n]) = Path.join l +:+ "/" +:+ n.
Proof.
  induction l as [|x l IH]; [done|]. intros _.
  destruct l as [|y l]; [done|].
  change ((x :: y :: l) ++ [n]) with (x :: ((y :: l) ++ [n])).
  rewrite join_cons by done. rewrite IH by done.
  rewrite (join_cons x (y :: l)) by done. by rewrite !str_app_assoc.
Qed.

Lemma split_join l :
  l ≠ [] → Forall (λ n, Path.has_slash n = false) l →
  Path.split (Path.join l) = l.
Proof.
  induction l as [|x l IH]; [done|]. intros _ Hl.
  apply Forall_cons in Hl as [Hx Hl].
  destruct l as [|y l]; [by apply split_no_slash|].
  rewrite join_cons by done. rewrite split_app_slash, IH by done.
  by rewrite split_no_slash.
Qed.

Lemma valid_no_slash l :
  Forall valid_name l → Forall (λ n, Path.has_slash n = false) l.
Proof.
  intros Hl. eapply Forall_impl; [done|]. by intros n (_ & _ & _ & ?).
Qed.

Lemma clean_step_valid rooted st n :
  valid_name n → Path.clean_step rooted st n = st ++ [n].
Proof.
  intros (H1 & H2 & H3 & _). unfold Path.clean_step.
  destruct (decide (n = "" ∨ n = ".")) as [[?|?]|_]; [done..|].
  by destruct (decide (n = "..")).
Qed.

Lemma clean_from_valid rooted st l :
  Forall valid_name l → Path.clean_from rooted st l = st ++ l.
Proof.
  unfold Path.clean_from. revert st.
  induction l as [|n l IH]; intros st Hl; simpl; [by rewrite app_nil_r|].
  apply Forall_cons in Hl as [Hn Hl].
  rewrite clean_step_valid, IH by done. by rewrite <- app_assoc.
Qed.

Lemma clean_from_app rooted st l1 l2 :
  Path.clean_from rooted st (l1 ++ l2)
    = Path.clean_from rooted (Path.clean_from rooted st l1) l2.
Proof. apply fold_left_app. Qed.

Lemma join_not_rooted l :
  l ≠ [] → Forall valid_name l → Str.HasPrefix (Path.join l) "/" = false.
Proof.
  destruct l as [|x l]; [done|]. intros _ Hl.
  apply Forall_cons in Hl as [(Hx & _ & _ & Hs) _].
  destruct x as [|c x]; [done|]. simpl in Hs.
  destruct (decide (c = "/"%char)) as [|Hc]; [done|].
  destruct (Str.HasPrefix _ _) eqn:Hp; [|done].
  apply HasPrefix_spec in Hp as [t Ht].
  destruct l; simpl in Ht; congruence.
Qed.

Lemma app_not_rooted a b :
  a ≠ "" → Str.HasPrefix a "/" = false → Str.HasPrefix (a +:+ b) "/" = false.
Proof.
  intros Ha Hr. destruct a as [|c a]; [done|].
  destruct (Str.HasPrefix (_ +:+ _) _) eqn:Hp; [|done].
  apply HasPrefix_spec in Hp as [t Ht]. simpl in Ht.
  injection Ht as -> _.
  assert (Str.HasPrefix (String "/" a) "/" = true) as Hp'
    by (apply HasPrefix_spec; by exists a).
  congruence.
Qed.

Lemma join_not_empty l : l ≠ [] → Forall valid_name l → Path.join l ≠ "".
Proof.
  destruct l as [|x l]; [done|]. intros _ Hl.
  apply Forall_cons in Hl as [(Hx & _) _].
  destruct x; [done|]. by destruct l.
Qed.

(** A relative path of proper names is clean, with or without a trailing
    separator. *)
Lemma Clean_join l :
  l ≠ [] → Forall valid_name l → Path.Clean (Path.join l) = Path.join l.
Proof.
  intros Hne Hl. unfold Path.Clean.
  rewrite join_not_rooted, split_join by auto using valid_no_slash.
  rewrite clean_from_valid by done. simpl.
  destruct (decide _) as [He|]; [|done]. by apply join_not_empty in He.
Qed.

Lemma Clean_join_slash l :
  l ≠ [] → Forall valid_name l →
  Path.Clean (Path.join l +:+ "/") = Path.join l.
Proof.
  intros Hne Hl. unfold Path.Clean.
  rewrite app_not_rooted by auto using join_not_rooted, join_not_empty.
  change (Path.join l +:+ "/") with (Path.join l +:+ "/" +:+ "").
  rewrite split_app_slash, split_join by auto using valid_no_slash.
  rewrite clean_from_app, (clean_from_valid false [] l) by done.
  change (Path.clean_from false ([] ++ l) (Path.split "")) with l.
  destruct (decide _) as [He|]; [|done]. by apply join_not_empty in He.
Qed.

Lemma Join_join l n :
  l ≠ [] → Forall valid_name l → valid_name n →
  Path.Join (Path.join l) n = Path.join (l ++ [n]).
Proof.
  intros Hne Hl Hn. unfold Path.Join.
  destruct (decide _) as [He|_]; [by apply join_not_empty in He|].
  rewrite <- join_snoc by done.
  apply Clean_join; [by destruct l | by apply Forall_app; auto].
Qed.

Lemma walk_name_join l rel :
  l ≠ [] → Forall valid_name l → Forall valid_name rel →
  walk_name (Path.join l) rel = Path.join (l ++ rel).
Proof.
  unfold walk_name. revert l.
  induction rel as [|n rel IH]; intros l Hne Hl Hrel; simpl.
  - by rewrite app_nil_r.
  - apply Forall_cons in Hrel as [Hn Hrel].
    rewrite Join_join by done.
    rewrite IH; [by rewrite <- app_assoc | by destruct l | | done].
    apply Forall_app; auto.
Qed.

Lemma has_slash_app a b : Path.has_slash (a +:+ "/" +:+ b) = true.
Proof. induction a as [|c a IH]; simpl; [done|]. by destruct (decide _). Qed.

Lemma dir_part_no_slash n : Path.has_slash n = false → Path.dir_part n = "".
Proof.
  destruct n as [|c n]; [done|]. intros Hn.
  change (Path.dir_part (String c n))
    with (if Path.has_slash (String c n)
          then String c (Path.dir_part n) else "").
  by rewrite Hn.
Qed.

Lemma dir_part_app a n :
  Path.has_slash n = false → Path.dir_part (a +:+ "/" +:+ n) = a +:+ "/".
Proof.
  intros Hn. induction a as [|c a IH].
  - simpl. by rewrite dir_part_no_slash.
  - change (String c a +:+ "/" +:+ n) with (String c (a +:+ "/" +:+ n)).
    change (Path.dir_part (String c (a +:+ "/" +:+ n)))
      with (if Path.has_slash (String c a +:+ "/" +:+ n)
            then String c (Path.dir_part (a +:+ "/" +:+ n)) else "").
    by rewrite has_slash_app, IH.
Qed.

Lemma Dir_join l n :
  l ≠ [] → Forall valid_name l → valid_name n →
  Path.Dir (Path.join (l ++ [n])) = Path.join l.
Proof.
  intros Hne Hl Hn. unfold Path.Dir.
  rewrite join_snoc, dir_part_app by (done || apply Hn).
  by apply Clean_join_slash.
Qed.

(** Where a relative path of proper names leads. *)
Lemma resolve_join cwd l :
  l ≠ [] → Forall valid_name l →
  Path.resolve cwd (Path.join l)
    = Path.clean_from true [] (Path.split cwd) ++ l.
Proof.
  intros Hne Hl. unfold Path.resolve.
  rewrite join_not_rooted, split_join by auto using valid_no_slash.
  by rewrite clean_from_app, clean_from_valid.
Qed.

Lemma Index_prefix a b : Str.HasPrefix a b = true → Str.Index a b = Some 0.
Proof. intros Hp. destruct a; simpl; by rewrite Hp. Qed.

Lemma Replace_static rel :
  rel ≠ [] →
  Str.Replace (Path.join ("static" :: rel)) "static/" "site/" 1
    = Path.join ("site" :: rel).
Proof.
  intros Hne. rewrite !join_cons by done.
  change ("static" +:+ "/" +:+ Path.join rel)
    with ("static/" +:+ Path.join rel).
  rewrite Replace_one.
  rewrite (Index_prefix _ _ (HasPrefix_app "static/" (Path.join rel))).
  change (0 + String.length "static/") with (String.length "static/").
  by rewrite str_drop_app.
Qed.

End PathFacts.

(** ** The file system *)

Section FsFacts.
Implicit Types (f : FS) (p q : list string) (n : Node).

Lemma node_at_lookup f p : p ≠ [] → Fs.node_at f p = f !! p.
Proof. intros Hp. unfold Fs.node_at. by destruct (decide (p = [])). Qed.

Lemma node_at_insert_ne f p n q :
  p ≠ q → Fs.node_at (<[p := n]> f) q = Fs.node_at f q.
Proof.
  intros Hne. unfold Fs.node_at. destruct (decide (q = [])); [done|].
  by rewrite lookup_insert_ne.
Qed.

Lemma node_at_insert_eq f p n :
  p ≠ [] → Fs.node_at (<[p := n]> f) p = Some n.
Proof.
  intros Hp. rewrite node_at_lookup by done. by rewrite lookup_insert_eq.
Qed.

Lemma parent_snoc p x : Fs.parent (p ++ [x]) = p.
Proof. apply removelast_last. Qed.

Lemma parent_ne p : p ≠ [] → Fs.parent p ≠ p.
Proof.
  intros Hp Heq. destruct (decide (p = [])) as [|_]; [done|].
  induction p as [|x p _] using rev_ind; [done|].
  rewrite parent_snoc in Heq. apply (f_equal length) in Heq.
  rewrite length_app in Heq. simpl in Heq. lia.
Qed.

Lemma wf_lookup f p n :
  wf f → f !! p = Some n →
  Forall valid_name p ∧ p ≠ [] ∧ Fs.node_at f (Fs.parent p) = Some Dir.
Proof. intros Hwf Hp. by apply (Hwf p n). Qed.

(** In a well-formed file system whatever leads to an entry is a
    directory. *)
Lemma wf_prefix_dir f p i :
  wf f → is_Some (Fs.node_at f p) → i < length p →
  Fs.node_at f (take i p) = Some Dir.
Proof.
  intros Hwf. revert i. induction p as [|x p IH] using rev_ind; intros i.
  { simpl. lia. }
  intros [n Hn] Hi. rewrite length_app in Hi. simpl in Hi.
  rewrite node_at_lookup in Hn by (by destruct p).
  destruct (wf_lookup _ _ _ Hwf Hn) as (_ & _ & Hpar).
  rewrite parent_snoc in Hpar.
  destruct (decide (i = length p)) as [->|Hne].
  - by rewrite take_app_length.
  - rewrite take_app_le by lia. apply IH; [by eexists | lia].
Qed.

Lemma below_spec p q :
  Fs.below p q = true ↔ ∃ rel, rel ≠ [] ∧ q = p ++ rel.
Proof.
  unfold Fs.below. rewrite bool_decide_eq_true. split.
  - intros [Htake Hlen]. exists (drop (length p) q). split.
    + intros Hnil. apply (f_equal length) in Hnil.
      rewrite length_drop in Hnil. simpl in Hnil. lia.
    + by rewrite <- Htake at 1; rewrite take_drop.
  - intros (rel & Hrel & ->). split.
    + by rewrite take_app_length.
    + rewrite length_app. destruct rel; [done|]. simpl. lia.
Qed.

Lemma wf_none_below f p q :
  wf f → Fs.node_at f p = None → Fs.below p q = true → f !! q = None.
Proof.
  intros Hwf Hp Hq. apply below_spec in Hq as (rel & Hrel & ->).
  destruct (f !! (p ++ rel)) as [n|] eqn:Hn; [|done].
  assert (Fs.node_at f (take (length p) (p ++ rel)) = Some Dir) as Hdir.
  { apply wf_prefix_dir; [done| |].
    - rewrite node_at_lookup by (by destruct p, rel). by eexists.
    - rewrite length_app. destruct rel; [done|]. simpl. lia. }
  rewrite take_app_length in Hdir. congruence.
Qed.

Lemma wf_insert f p n :
  wf f → Forall valid_name p → p ≠ [] →
  Fs.node_at f (Fs.parent p) = Some Dir →
  n = Dir ∨ f !! p ≠ Some Dir →
  wf (<[p := n]> f).
Proof.
  intros Hwf Hvalid Hp Hparent Hn k m Hk.
  destruct (decide (p = k)) as [<-|Hne].
  - split; [done|]. split; [done|].
    rewrite node_at_insert_ne by (by apply not_eq_sym, parent_ne). done.
  - rewrite lookup_insert_ne in Hk by done.
    destruct (wf_lookup _ _ _ Hwf Hk) as (Hv & Hk' & Hpar).
    split; [done|]. split; [done|].
    destruct (decide (p = Fs.parent k)) as [Heq|Hne'].
    + rewrite <- Heq in *. rewrite node_at_lookup in Hpar by done.
      destruct Hn as [->|Hn]; [|done]. by apply node_at_insert_eq.
    + by rewrite node_at_insert_ne.
Qed.

Lemma take_min {A} (l : list A) i : take (i `min` length l) l = take i l.
Proof.
  destruct (decide (i ≤ length l)).
  - by rewrite Nat.min_l.
  - rewrite Nat.min_r, firstn_all by lia. by rewrite take_ge by lia.
Qed.

Lemma stat_Some f p n : Fs.node_at f p = Some n → Fs.stat f p = inr n.
Proof. intros Hn. unfold Fs.stat. by rewrite Hn. Qed.

(** [os.MkdirAll] where nothing but directories is in the way: it
    succeeds, adds directories on the way to [p] and changes nothing
    else. *)
Lemma mkdir_all_rev_ok f rp :
  wf f → Forall valid_name rp →
  (∀ i, Fs.node_at f (take i (rev rp)) = None
        ∨ Fs.node_at f (take i (rev rp)) = Some Dir) →
  ∃ f', Fs.mkdir_all_rev f rp = (None, f')
        ∧ wf f'
        ∧ Fs.node_at f' (rev rp) = Some Dir
        ∧ ∀ q, f' !! q = f !! q
               ∨ (f !! q = None ∧ f' !! q = Some Dir
                  ∧ ∃ i, q = take i (rev rp)).
Proof.
  intros Hwf. induction rp as [|x rp IH]; intros Hvalid Hfree.
  - exists f. split; [reflexivity|]. split; [done|]. split; [reflexivity|].
    by left.
  - apply Forall_cons in Hvalid as [Hx Hvalid].
    assert (rev (x :: rp) = rev rp ++ [x]) as Hrev by done.
    simpl Fs.mkdir_all_rev. rewrite Hrev.
    destruct (Fs.node_at f (rev rp ++ [x])) as [n|] eqn:Hn.
    + rewrite (stat_Some _ _ _ Hn).
      destruct (Hfree (length (rev rp ++ [x]))) as [Hnone|Hdir];
        rewrite firstn_all, Hrev in *; [congruence|].
      assert (n = Dir) as -> by congruence.
      exists f. auto.
    + assert (Fs.stat f (rev rp ++ [x])
              = inl (if Fs.blocked f (rev rp ++ [x]) then ENOTDIR else ENOENT))
        as -> by (unfold Fs.stat; by rewrite Hn).
      destruct IH as (f1 & -> & Hwf1 & Hdir1 & Hkeys1); [done| |].
      { intros i. specialize (Hfree (i `min` length (rev rp))).
        rewrite Hrev, take_app_le in Hfree by lia.
        by rewrite take_min in Hfree. }
      assert (f1 !! (rev rp ++ [x]) = None) as Hnone1.
      { rewrite node_at_lookup in Hn by (by destruct (rev rp)).
        destruct (Hkeys1 (rev rp ++ [x])) as [->|(_ & _ & i & Hi)]; [done|].
        apply (f_equal length) in Hi.
        rewrite length_app, length_take in Hi. simpl in Hi. lia. }
      rewrite mkdir_new; [| by rewrite node_at_lookup by (by destruct (rev rp))
                          | by rewrite parent_snoc].
      exists (<[rev rp ++ [x] := Dir]> f1). split; [done|]. split.
      { apply wf_insert; auto.
        - apply Forall_app. split; [by apply Forall_rev | by constructor].
        - by destruct (rev rp).
        - by rewrite parent_snoc. }
      split; [apply node_at_insert_eq; by destruct (rev rp)|].
      intros q. destruct (decide (rev rp ++ [x] = q)) as [<-|Hne].
      * right. rewrite lookup_insert_eq.
        rewrite node_at_lookup in Hn by (by destruct (rev rp)).
        split; [done|]. split; [done|].
        exists (length (rev rp ++ [x])). by rewrite firstn_all.
      * rewrite lookup_insert_ne by done.
        destruct (Hkeys1 q) as [->|(Hq & Hq1 & i & ->)]; [by left|].
        right. split; [done|]. split; [done|].
        exists (i `min` length (rev rp)).
        rewrite take_app_le by lia. by rewrite take_min.
Qed.

Lemma mkdir_all_ok f p :
  wf f → Forall valid_name p →
  (∀ i, Fs.node_at f (take i p) = None ∨ Fs.node_at f (take i p) = Some Dir) →
  ∃ f', Fs.mkdir_all f p = (None, f')
        ∧ wf f'
        ∧ Fs.node_at f' p = Some Dir
        ∧ ∀ q, f' !! q = f !! q
               ∨ (f !! q = None ∧ f' !! q = Some Dir ∧ ∃ i, q = take i p).
Proof.
  intros Hwf Hvalid Hfree. unfold Fs.mkdir_all.
  destruct (mkdir_all_rev_ok f (rev p)) as (f' & Hrun & Hwf' & Hdir & Hkeys);
    [done | by apply Forall_rev
     | intros i; rewrite rev_involutive; apply Hfree |].
  rewrite rev_involutive in Hdir.
  exists f'. split; [done|]. split; [done|]. split; [done|].
  intros q. specialize (Hkeys q). by rewrite rev_involutive in Hkeys.
Qed.

Lemma create_ok f p :
  p ≠ [] →
  Fs.node_at f (Fs.parent p) = Some Dir →
  (f !! p = None ∨ ∃ c, f !! p = Some (File c)) →
  Fs.create f p = (inr p, <[p := File []]> f).
Proof.
  intros Hp Hparent Hnode. unfold Fs.create, Fs.stat.
  rewrite node_at_lookup by done.
  destruct Hnode as [->|[c ->]]; [|done]. by rewrite Hparent.
Qed.

Lemma copy_ok f dst src c :
  Fs.node_at f src = Some (File c) → Fs.node_at f dst = Some (File []) →
  Fs.copy f dst src = (None, <[dst := File c]> f).
Proof.
  intros Hsrc Hdst. unfold Fs.copy. rewrite Hsrc, Hdst.
  by rewrite drop_nil, app_nil_r.
Qed.

End FsFacts.

(** ** Copying the static files (lines 52-82 and 119-125) *)

Section Static.
Context `{Env}.
Implicit Types (st : State) (f : FS) (rel : list string).

Lemma os_MkdirAll_run path st e f' :
  Fs.mkdir_all (fs (world st)) (at_ (world st) path) = (e, f') →
  os_MkdirAll path st
    = (Val e, {| world := set_fs (world st) f'; trace := trace st |}).
Proof. intros Hrun. unfold os_MkdirAll, on_world. by rewrite Hrun. Qed.

Lemma os_Open_run path st :
  os_Open path st = (Val (Fs.open (fs (world st)) (at_ (world st) path)), st).
Proof. by apply on_world_same. Qed.

Lemma os_Create_run path st r f' :
  Fs.create (fs (world st)) (at_ (world st) path) = (r, f') →
  os_Create path st
    = (Val r, {| world := set_fs (world st) f'; trace := trace st |}).
Proof. intros Hrun. unfold os_Create, on_world. by rewrite Hrun. Qed.

Lemma io_Copy_run dst src st e f' :
  Fs.copy (fs (world st)) dst src = (e, f') →
  io_Copy dst src st
    = (Val e, {| world := set_fs (world st) f'; trace := trace st |}).
Proof. intros Hrun. unfold io_Copy, on_world. by rewrite Hrun. Qed.

Lemma valid_static : valid_name "static".
Proof. split; [done|]. split; [done|]. split; [done|]. reflexivity. Qed.

Lemma valid_site : valid_name "site".
Proof. split; [done|]. split; [done|]. split; [done|]. reflexivity. Qed.

Lemma at_static (w : World Ext) rel :
  Forall valid_name rel →
  at_ w (Path.join ("static" :: rel)) = (workdir w ++ ["static"]) ++ rel.
Proof.
  intros Hrel. unfold at_. rewrite resolve_join; [by rewrite <- app_assoc|done|].
  constructor; [apply valid_static | done].
Qed.

Lemma at_site (w : World Ext) rel :
  Forall valid_name rel →
  at_ w (Path.join ("site" :: rel)) = (workdir w ++ ["site"]) ++ rel.
Proof.
  intros Hrel. unfold at_. rewrite resolve_join; [by rewrite <- app_assoc|done|].
  constructor; [apply valid_site | done].
Qed.

Section SiteAndStatic.
Variables (base S T : list string).
Hypothesis HS : S = base ++ ["static"].
Hypothesis HT : T = base ++ ["site"].

Lemma static_not_below_site rel : Fs.below T (S ++ rel) = false.
Proof using HS HT.
  subst. unfold Fs.below. apply bool_decide_eq_false. intros [Htake _].
  rewrite <- app_assoc in Htake. rewrite length_app in Htake. simpl in Htake.
  rewrite take_app_ge in Htake by lia.
  replace (length base + 1 - length base) with 1 in Htake by lia.
  simpl in Htake. by apply app_inv_head in Htake.
Qed.

Lemma site_not_below_site : Fs.below T T = false.
Proof using Type.
  unfold Fs.below. apply bool_decide_eq_false. intros [_ ?]. lia.
Qed.

Lemma site_below_site rel : rel ≠ [] → Fs.below T (T ++ rel) = true.
Proof using Type. intros Hrel. apply below_spec. by exists rel. Qed.

Lemma static_ne_site rel : S ++ rel ≠ T ++ rel.
Proof using HS HT.
  subst. rewrite <- !app_assoc. intros Heq. by apply app_inv_head in Heq.
Qed.

End SiteAndStatic.

(** One file, at the level of the file system: the directories on the way
    are made, the source opens, the target is created and receives the
    bytes; the copy invariant is kept and nothing disappears. *)
Lemma copy_one f0 f base rel c :
  let S := base ++ ["static"] in
  let T := base ++ ["site"] in
  wf f0 → copying S T f0 f → Fs.node_at f0 T = Some Dir →
  rel ≠ [] → f0 !! (S ++ rel) = Some (File c) →
  ∃ f1,
    Fs.mkdir_all f (T ++ removelast rel) = (None, f1)
    ∧ Fs.open f1 (S ++ rel) = inr (S ++ rel)
    ∧ Fs.create f1 (T ++ rel) = (inr (T ++ rel), <[T ++ rel := File []]> f1)
    ∧ Fs.copy (<[T ++ rel := File []]> f1) (T ++ rel) (S ++ rel)
      = (None, <[T ++ rel := File c]> f1)
    ∧ copying S T f0 (<[T ++ rel := File c]> f1)
    ∧ ∀ q, is_Some (f !! q) → is_Some (<[T ++ rel := File c]> f1 !! q).
Proof.
  intros S T Hwf0 (Hwf & Hout & Hmirror) HT Hrel Hfile.
  assert (T ≠ []) as HTne by (unfold T; by destruct base).
  assert (S ≠ []) as HSne by (unfold S; by destruct base).
  pose proof (static_not_below_site base S T eq_refl eq_refl) as Hnb.
  pose proof (site_below_site T) as Hb.
  pose proof (static_ne_site base S T eq_refl eq_refl) as Hdiff'.
  assert (f0 !! T = Some Dir) as HT0 by by rewrite <- node_at_lookup.
  assert (f !! T = Some Dir) as HTf.
  { rewrite Hout; [done|]. apply site_not_below_site. }
  destruct (wf_lookup _ _ _ Hwf0 HT0) as (HTvalid & _ & _).
  destruct (wf_lookup _ _ _ Hwf0 Hfile) as (Hvalid & _ & _).
  apply Forall_app in Hvalid as [_ Hvalid].
  destruct rel as [|x rel' _] using rev_ind; [done|]. clear Hrel.
  apply Forall_app in Hvalid as [Hvalid' Hx].
  rewrite removelast_last.
  (* whatever leads to the source is a directory of [f0] *)
  assert (∀ j, j ≤ length rel' → f0 !! (S ++ take j rel') = Some Dir) as Hdirs0.
  { intros j Hj.
    rewrite <- (node_at_lookup f0) by (by destruct S).
    replace (S ++ take j rel')
      with (take (length S + j) (S ++ rel' ++ [x])).
    - apply wf_prefix_dir; [done | |].
      + rewrite node_at_lookup by (by destruct S). by eexists.
      + rewrite !length_app. simpl. lia.
    - rewrite take_app_ge by lia.
      replace (length S + j - length S) with j by lia.
      by rewrite take_app_le by lia. }
  destruct (mkdir_all_ok f (T ++ rel')) as (f1 & Hmk & Hwf1 & Hdir1 & Hkeys1).
  { done. }
  { by apply Forall_app. }
  { intros i. destruct (decide (i < length T)) as [Hi|Hi].
    - right. rewrite take_app_le by lia.
      apply wf_prefix_dir; [done | | done].
      rewrite node_at_lookup by done. by eexists.
    - rewrite take_app_ge by lia.
      destruct (f !! (T ++ take (i - length T) rel')) as [n|] eqn:Hn.
      + right. rewrite node_at_lookup by (by destruct T).
        destruct (take (i - length T) rel') as [|y r] eqn:Hr.
        * rewrite app_nil_r in *. congruence.
        * rewrite Hn. apply Hmirror in Hn; [|done].
          rewrite <- Hr in Hn.
          rewrite <- (take_min rel'), Hdirs0 in Hn by lia. congruence.
      + left. rewrite node_at_lookup by (by destruct T). done. }
  exists f1. split; [done|].
  (* what [MkdirAll] added lies below the site directory, over directories *)
  assert (∀ q, f1 !! q ≠ f !! q →
               f !! q = None ∧ f1 !! q = Some Dir
               ∧ ∃ j, 0 < j ≤ length rel' ∧ q = T ++ take j rel') as Hnew.
  { intros q Hq. destruct (Hkeys1 q) as [?|(Hnone & Hdir & i & ->)]; [done|].
    split; [done|]. split; [done|].
    destruct (decide (i ≤ length T)) as [Hi|Hi].
    - exfalso. rewrite take_app_le in Hnone, Hdir by lia.
      destruct (decide (i = length T)) as [->|Hne].
      + rewrite firstn_all in Hnone. congruence.
      + assert (Fs.node_at f (take i T) = Some Dir) as Hd.
        { apply wf_prefix_dir; [done | | lia].
          rewrite node_at_lookup by done. by eexists. }
        destruct (wf_lookup _ _ _ Hwf1 Hdir) as (_ & Hne' & _).
        rewrite node_at_lookup in Hd by done. congruence.
    - exists ((i - length T) `min` length rel').
      rewrite take_app_ge in Hnone |- * by lia. rewrite take_min.
      split; [|done]. split; [|lia].
      destruct rel' as [|y r]; [|simpl; lia].
      rewrite take_nil, app_nil_r in Hnone. congruence. }
  assert (copying S T f0 f1) as (_ & Hout1 & Hmirror1).
  { split; [done|]. split.
    - intros q Hq. destruct (decide (f1 !! q = f !! q)) as [->|Hne]; [auto|].
      destruct (Hnew q Hne) as (_ & _ & j & Hj & ->).
      rewrite Hb in Hq; [done|].
      destruct rel'; [simpl in *; lia|]. destruct j; [lia|done].
    - intros rel2 n Hrel2 Hn.
      destruct (decide (f1 !! (T ++ rel2) = f !! (T ++ rel2))) as [Heq|Hne].
      + rewrite Heq in Hn. by apply Hmirror.
      + destruct (Hnew _ Hne) as (_ & Hd & j & Hj & Heq).
        apply app_inv_head in Heq as ->.
        rewrite Hdirs0 by lia. congruence. }
  assert (f1 !! (S ++ rel' ++ [x]) = Some (File c)) as Hsrc1.
  { rewrite Hout1; [done|]. apply Hnb. }
  assert (f1 !! (T ++ rel' ++ [x]) = None
          ∨ f1 !! (T ++ rel' ++ [x]) = Some (File c)) as Hdst1.
  { destruct (f1 !! (T ++ rel' ++ [x])) as [n|] eqn:Hn; [|by left].
    right. apply Hmirror1 in Hn; [|by destruct rel']. congruence. }
  assert (T ++ rel' ++ [x] ≠ []) as Hdne by (by destruct T).
  pose proof (Hdiff' (rel' ++ [x])) as Hdiff.
  split.
  { unfold Fs.open. rewrite (stat_Some _ _ (File c)); [done|].
    by rewrite node_at_lookup by (by destruct S). }
  split.
  { apply create_ok; [done| |].
    - by rewrite app_assoc, parent_snoc.
    - destruct Hdst1; eauto. }
  split.
  { rewrite (copy_ok _ _ _ c).
    - by rewrite insert_insert_eq.
    - rewrite node_at_insert_ne by done.
      by rewrite node_at_lookup by (by destruct S).
    - by apply node_at_insert_eq. }
  split.
  { split.
    - apply wf_insert; [done| | done | |].
      + apply Forall_app. split; [done|]. by apply Forall_app.
      + by rewrite app_assoc, parent_snoc.
      + right. destruct Hdst1 as [->| ->]; done.
    - split.
      + intros q Hq. rewrite lookup_insert_ne; [by apply Hout1|].
        intros <-. rewrite Hb in Hq; [done | by destruct rel'].
      + intros rel2 n Hrel2 Hn.
        destruct (decide (rel2 = rel' ++ [x])) as [->|Hne].
        * rewrite lookup_insert_eq in Hn. congruence.
        * rewrite lookup_insert_ne in Hn by (intros ?%app_inv_head; done).
          by apply Hmirror1. }
  intros q [n Hq].
  destruct (decide (T ++ rel' ++ [x] = q)) as [<-|Hne].
  - rewrite lookup_insert_eq. by eexists.
  - rewrite lookup_insert_ne by done.
    destruct (decide (f1 !! q = f !! q)) as [->|Hne']; [by eexists|].
    destruct (Hnew q Hne') as (_ & -> & _). by eexists.
Qed.


Lemma at_set_fs (w : World Ext) f path : at_ (set_fs w f) path = at_ w path.
Proof. done. Qed.

Lemma world_mk (w : World Ext) t : world {| world := w; trace := t |} = w.
Proof. done. Qed.

Lemma fs_set_fs (w : World Ext) f : fs (set_fs w f) = f.
Proof. done. Qed.

Lemma fmt_Println_run line st :
  fmt_Println line st
    = (Val (), {| world := print (world st) line; trace := trace st |}).
Proof. done. Qed.

(** One regular file, as [CopyStatic] handles it. *)
Lemma copy_file_regular st f0 rel c :
  let S := workdir (world st) ++ ["static"] in
  let T := workdir (world st) ++ ["site"] in
  wf f0 → copying S T f0 (fs (world st)) → Fs.node_at f0 T = Some Dir →
  rel ≠ [] → f0 !! (S ++ rel) = Some (File c) →
  ∃ st',
    copy_file (walk_name "static" rel) (Some (File c)) None () st
      = (Val (None, ()), st')
    ∧ cwd (world st') = cwd (world st)
    ∧ copying S T f0 (fs (world st'))
    ∧ (∀ q, is_Some (fs (world st) !! q) → is_Some (fs (world st') !! q))
    ∧ is_Some (fs (world st') !! (T ++ rel)).
Proof.
  intros S T Hwf0 Hcopying HT Hrel Hfile.
  destruct (wf_lookup _ _ _ Hwf0 Hfile) as (Hvalid & _ & _).
  apply Forall_app in Hvalid as [_ Hvalid].
  destruct (copy_one f0 (fs (world st)) (workdir (world st)) rel c)
    as (f1 & Hmk & Hopen & Hcreate & Hcopy & Hcopying' & Hmono); [done..|].
  fold S in Hopen, Hcopy, Hcopying'. fold T in Hmk, Hcreate, Hcopy, Hcopying', Hmono.
  assert (walk_name "static" rel = Path.join ("static" :: rel)) as ->.
  { change "static" with (Path.join ["static"]) at 1.
    rewrite walk_name_join; [done | done | | done].
    constructor; [apply valid_static | done]. }
  unfold copy_file. cbv beta iota delta [IsRegular].
  rewrite Replace_static by done.
  destruct rel as [|x rel' _] using rev_ind; [done|].
  apply Forall_app in Hvalid as [Hvalid' Hx].
  rewrite Forall_singleton in Hx.
  rewrite removelast_last in Hmk.
  assert (Path.Dir (Path.join ("site" :: rel' ++ [x]))
          = Path.join ("site" :: rel')) as ->.
  { apply (Dir_join ("site" :: rel') x); [done| |done].
    constructor; [apply valid_site | done]. }
  unfold mbind, M_bind.
  rewrite (os_MkdirAll_run _ _ None f1) by (by rewrite at_site).
  rewrite os_Open_run, !world_mk, fs_set_fs, at_set_fs.
  rewrite at_static by (apply Forall_app; split; [done | by constructor]).
  fold S. rewrite Hopen.
  rewrite (os_Create_run _ _ (inr (T ++ rel' ++ [x]))
             (<[T ++ rel' ++ [x] := File []]> f1)).
  2:{ rewrite !world_mk, fs_set_fs, at_set_fs.
      rewrite at_site by (apply Forall_app; split; [done | by constructor]).
      done. }
  rewrite (io_Copy_run _ _ _ None (<[T ++ rel' ++ [x] := File c]> f1))
    by done.
  rewrite fmt_Println_run.
  eexists. split; [done|]. split; [done|]. split; [done|].
  split; [done|]. rewrite !world_mk. simpl. rewrite lookup_insert_eq.
  by eexists.
Qed.

(** Anything else (a directory, a link) is passed over. *)
Lemma copy_file_other st info :
  IsRegular info = false →
  copy_file "static" (Some info) None () st = (Val (None, ()), st)
  ∧ ∀ path, copy_file path (Some info) None () st = (Val (None, ()), st).
Proof. intros Hinfo. unfold copy_file. by rewrite Hinfo. Qed.


Lemma tree_spec f root k n :
  (k, n) ∈ Fs.tree f root ↔ f !! k = Some n ∧ Fs.below root k = true.
Proof.
  unfold Fs.tree. rewrite merge_sort_Permutation.
  rewrite list_elem_of_filter, elem_of_map_to_list. simpl. tauto.
Qed.

Lemma walk_entries_cons {A} (fn : WalkFunc A) root depth p info rest a st :
  walk_entries fn root depth ((p, info) :: rest) a st =
    match fn (walk_name root (drop depth p)) (Some info) None a st with
    | (Val (Some e, a'), st') => (Val (Some e, a'), st')
    | (Val (None, a'), st') => walk_entries fn root depth rest a' st'
    | (Panicked, st') => (Panicked, st')
    end.
Proof.
  simpl. unfold mbind, M_bind.
  by destruct (fn _ _ _ _ _) as [[[[e|] a']|] st'].
Qed.

(** The files below the static directory, one after the other. *)
Lemma walk_entries_copy entries st f0 base :
  let S := base ++ ["static"] in
  let T := base ++ ["site"] in
  workdir (world st) = base →
  wf f0 → Fs.node_at f0 T = Some Dir → copying S T f0 (fs (world st)) →
  (∀ k n, (k, n) ∈ entries → f0 !! k = Some n ∧ Fs.below S k = true) →
  ∃ st',
    walk_entries copy_file "static" (length S) entries () st
      = (Val (None, ()), st')
    ∧ cwd (world st') = cwd (world st)
    ∧ copying S T f0 (fs (world st'))
    ∧ (∀ q, is_Some (fs (world st) !! q) → is_Some (fs (world st') !! q))
    ∧ ∀ k c, (k, File c) ∈ entries →
        is_Some (fs (world st') !! (T ++ drop (length S) k)).
Proof.
  intros S T. revert st.
  induction entries as [|[k n] entries IH]; intros st Hbase Hwf0 HT Hcopying Hin.
  - exists st. split; [done|]. split; [done|]. split; [done|].
    split; [done|]. intros k c Hk. by apply elem_of_nil in Hk.
  - destruct (Hin k n) as [Hk Hbelow]; [left|].
    apply below_spec in Hbelow as (rel & Hrel & ->).
    assert (drop (length S) (S ++ rel) = rel) as Hdrop
      by by rewrite drop_app_length.
    assert (∃ st1,
              copy_file (walk_name "static" rel) (Some n) None () st
                = (Val (None, ()), st1)
              ∧ cwd (world st1) = cwd (world st)
              ∧ copying S T f0 (fs (world st1))
              ∧ (∀ q, is_Some (fs (world st) !! q)
                      → is_Some (fs (world st1) !! q))
              ∧ ∀ c, n = File c → is_Some (fs (world st1) !! (T ++ rel)))
      as (st1 & Hrun1 & Hcwd1 & Hcopying1 & Hmono1 & Hdone1).
    { destruct (IsRegular n) eqn:Hreg.
      - destruct n as [c| |]; try done.
        destruct (copy_file_regular st f0 rel c)
          as (st1 & ? & ? & ? & ? & ?); rewrite ?Hbase; try done.
        exists st1. rewrite Hbase in *. auto.
      - exists st. split; [by apply copy_file_other|].
        split; [done|]. split; [done|]. split; [done|].
        intros c ->. done. }
    destruct (IH st1) as (st' & Hrun & Hcwd & Hcopying' & Hmono & Hdone).
    { unfold workdir in *. by rewrite Hcwd1. }
    { done. } { done. } { done. }
    { intros k' n' Hk'. apply Hin. by right. }
    exists st'. split.
    { by rewrite walk_entries_cons, Hdrop, Hrun1. }
    split; [congruence|]. split; [done|]. split; [by auto|].
    intros k' c Hk'. apply elem_of_cons in Hk' as [Heq|Hk']; [|by apply (Hdone k' c)].
    simplify_eq. rewrite Hdrop. apply Hmono. by eapply Hdone1.
Qed.

Lemma at_static_root (w : World Ext) : at_ w "static" = workdir w ++ ["static"].
Proof.
  change "static" with (Path.join ["static"]).
  rewrite (at_static w []) by done. by rewrite app_nil_r.
Qed.

Lemma at_site_root (w : World Ext) : at_ w "site" = workdir w ++ ["site"].
Proof.
  change "site" with (Path.join ["site"]).
  rewrite (at_site w []) by done. by rewrite app_nil_r.
Qed.

(** [CopyStatic] into a fresh site directory. *)
Lemma CopyStatic_copies st :
  let S := at_ (world st) "static" in
  let T := at_ (world st) "site" in
  wf (fs (world st)) →
  Fs.node_at (fs (world st)) S = Some Dir →
  Fs.node_at (fs (world st)) T = Some Dir →
  (∀ q, Fs.below T q = true → fs (world st) !! q = None) →
  ∃ st',
    CopyStatic st = (Val None, st')
    ∧ (∀ rel c, fs (world st) !! (S ++ rel) = Some (File c) →
                fs (world st') !! (T ++ rel) = Some (File c))
    ∧ (∀ q, Fs.below T q = false → fs (world st') !! q = fs (world st) !! q).
Proof.
  intros S T. subst S T. rewrite at_static_root, at_site_root.
  set (S := workdir (world st) ++ ["static"]).
  set (T := workdir (world st) ++ ["site"]).
  intros Hwf HS HT Hfresh.
  assert (copying S T (fs (world st)) (fs (world st))) as Hcopying.
  { split; [done|]. split; [done|]. intros rel n Hrel Hn.
    rewrite Hfresh in Hn; [done|]. apply below_spec. by exists rel. }
  destruct (walk_entries_copy (Fs.tree (fs (world st)) S) st (fs (world st))
              (workdir (world st)))
    as (st' & Hrun & _ & (_ & Hout & Hmirror) & _ & Hdone); try done.
  { intros k n. apply tree_spec. }
  fold S in Hrun, Hout, Hmirror, Hdone. fold T in Hout, Hmirror, Hdone.
  exists st'. split.
  { unfold CopyStatic, mbind, M_bind, filepath_Walk.
    rewrite at_static_root. fold S.
    rewrite (stat_Some _ _ _ HS). unfold mbind, M_bind.
    destruct (copy_file_other st Dir eq_refl) as [-> _].
    change (IsDir Dir) with true. cbv iota. by rewrite Hrun. }
  split; [|done].
  intros rel c Hfile.
  assert (rel ≠ []) as Hrel.
  { intros ->. rewrite app_nil_r in Hfile.
    assert (S ≠ []) by (unfold S; by destruct (workdir (world st))).
    rewrite node_at_lookup in HS by done. congruence. }
  destruct (Hdone (S ++ rel) c) as [n Hn].
  { apply tree_spec. split; [done|]. apply below_spec. by exists rel. }
  rewrite drop_app_length in Hn. rewrite Hn.
  apply Hmirror in Hn; [|done]. congruence.
Qed.


(** C8: when [os.Stat] finds no [static] the step prints that it skips and
    goes on without a failure, the file system untouched.  When [static] is
    a directory (in a well-formed file system, the site directory just made
    and still empty) the step succeeds, every regular file below [static]
    is afterwards found at the same relative path below [site] with the
    same bytes, and nothing outside [site] has changed. *)
Theorem static_files_copied (st : State) :
  (Fs.stat (fs (world st)) (at_ (world st) "static") = inl ENOENT →
   copy_static_files st
     = (Val None,
        {| world := print (world st)
                      "Failed to locate static files. Skipping...";
           trace := trace st |}))
  ∧ (wf (fs (world st)) →
     Fs.node_at (fs (world st)) (at_ (world st) "static") = Some Dir →
     Fs.node_at (fs (world st)) (at_ (world st) "site") = Some Dir →
     map_Forall (λ q _, Fs.below (at_ (world st) "site") q = false)
       (fs (world st)) →
     ∃ st',
       copy_static_files st = (Val None, st')
       ∧ (∀ rel c,
            fs (world st) !! (at_ (world st) "static" ++ rel) = Some (File c) →
            fs (world st') !! (at_ (world st) "site" ++ rel) = Some (File c))
       ∧ (∀ q, Fs.below (at_ (world st) "site") q = false →
               fs (world st') !! q = fs (world st) !! q)).
Proof.
  split.
  - intros Hstat. unfold copy_static_files, mbind, M_bind.
    rewrite os_Stat_run, Hstat. done.
  - intros Hwf HS HT Hfresh.
    destruct (CopyStatic_copies st) as (st' & Hrun & Hfiles & Hout); try done.
    { intros q Hq. destruct (fs (world st) !! q) as [n|] eqn:Hn; [|done].
      apply Hfresh in Hn. simpl in Hn. congruence. }
    exists st'. split; [|done].
    unfold copy_static_files, mbind, M_bind.
    rewrite os_Stat_run, (stat_Some _ _ _ HS), Hrun. done.
Qed.

(** C7: a site directory that is there when the command starts makes the
    command fail, with nothing changed.  At line 114 [os.Mkdir] either
    fails, and so does the command, or there was nothing at [site] and the
    command goes on with a new directory there, which (in a well-formed
    file system) has nothing in it. *)
Theorem site_directory_fresh (st : State) :
  (is_Some (Fs.node_at (fs (world st)) (at_ (world st) "site")) →
   ∃ failure,
     buildCmd st = (Val (Some failure), st)
     ∧ exit_status (Some failure) ≠ 0%Z)
  ∧ ∀ config,
      (∃ e, build_site config st
            = (Val (ErrorExit "Failed to create site directory." e), st))
      ∨ (Fs.node_at (fs (world st)) (at_ (world st) "site") = None
         ∧ build_site config st
           = build_static config
               {| world := set_fs (world st)
                             (<[at_ (world st) "site" := Dir]> (fs (world st)));
                  trace := trace st |}
         ∧ (wf (fs (world st)) →
            wf (<[at_ (world st) "site" := Dir]> (fs (world st)))
            ∧ map_Forall (λ q _, Fs.below (at_ (world st) "site") q = false)
                (<[at_ (world st) "site" := Dir]> (fs (world st))))).
Proof.
  split.
  - intros Hsite. destruct (buildCmd_to_site st) as [[fl Hf]|[config Hc]].
    + by exists fl.
    + rewrite Hc, build_site_exists by done. by eexists.
  - intros config. unfold build_site, mbind, M_bind. rewrite os_Mkdir_run.
    destruct (mkdir_cases (fs (world st)) (at_ (world st) "site"))
      as [[e ->]|(Hnone & Hparent & ->)]; simpl.
    + left. exists e. by rewrite set_fs_same, state_eta.
    + right. split; [done|]. split; [done|]. intros Hwf.
      assert (at_ (world st) "site" ≠ []) as Hne.
      { rewrite at_site_root. by destruct (workdir (world st)). }
      split.
      * apply wf_insert; [done| |done|done|by left].
        rewrite at_site_root in *. rewrite parent_snoc in Hparent.
        apply Forall_app. split; [|by constructor; [apply valid_site|]].
        destruct (decide (workdir (world st) = [])) as [->|Hw]; [done|].
        rewrite node_at_lookup in Hparent by done.
        by apply (wf_lookup _ _ _ Hwf Hparent).
      * intros q n Hq. simpl.
        destruct (Fs.below (at_ (world st) "site") q) eqn:Hb; [|done].
        rewrite lookup_insert_ne in Hq.
        -- by rewrite (wf_none_below _ _ _ Hwf Hnone Hb) in Hq.
        -- intros <-. unfold Fs.below in Hb.
           apply bool_decide_eq_true in Hb as [_ ?]. lia.
Qed.

End Static.

(** ** The validator (lines 27-33) *)

Section UrlFacts.
Implicit Types (s t a b : string) (c d : ascii).
Local Arguments String.append !_ _ / : simpl nomatch.
Local Arguments Str.HasPrefix : simpl never.

Lemma all_bytes_app P a b :
  Url.all_bytes P (a +:+ b) = (Url.all_bytes P a && Url.all_bytes P b)%bool.
Proof. induction a as [|c a IH]; simpl; [done|]. by rewrite IH, andb_assoc. Qed.

Lemma all_bytes_impl (P Q : ascii → bool) s :
  (∀ c, P c = true → Q c = true) →
  Url.all_bytes P s = true → Url.all_bytes Q s = true.
Proof.
  intros HPQ. induction s as [|c s IH]; simpl; [done|].
  intros [Hc Hs]%andb_prop. by rewrite HPQ, IH.
Qed.

Lemma HasPrefix_char c d s :
  Str.HasPrefix (String d s) (String c "") = bool_decide (c = d).
Proof.
  unfold Str.HasPrefix. simpl. destruct (ascii_dec c d) as [->|Hne].
  - rewrite bool_decide_eq_true_2 by done. by destruct s.
  - by rewrite bool_decide_eq_false_2.
Qed.

Lemma Index_lacks c s : lacks c s = true → Str.Index s (String c "") = None.
Proof.
  induction s as [|d s IH]; [done|]. unfold lacks. simpl.
  intros [Hd Hs]%andb_prop. rewrite HasPrefix_char.
  apply negb_true_iff in Hd. rewrite Hd. by rewrite IH.
Qed.

Lemma Index_first c a b :
  lacks c a = true →
  Str.Index (a +:+ String c b) (String c "") = Some (String.length a).
Proof.
  induction a as [|d a IH]; unfold lacks; simpl.
  - intros _. rewrite HasPrefix_char. by rewrite bool_decide_eq_true_2.
  - intros [Hd Ha]%andb_prop. rewrite HasPrefix_char.
    apply negb_true_iff in Hd. rewrite Hd. by rewrite IH.
Qed.

Lemma LastIndex_lacks c s :
  lacks c s = true → Url.LastIndex s (String c "") = None.
Proof.
  induction s as [|d s IH]; [done|]. unfold lacks. simpl.
  intros [Hd Hs]%andb_prop. rewrite IH by done. rewrite HasPrefix_char.
  apply negb_true_iff in Hd. by rewrite Hd.
Qed.

Lemma LastIndex_last c a b :
  lacks c b = true →
  Url.LastIndex (a +:+ String c b) (String c "") = Some (String.length a).
Proof.
  intros Hb. induction a as [|d a IH]; simpl.
  - rewrite LastIndex_lacks by done. rewrite HasPrefix_char.
    by rewrite bool_decide_eq_true_2.
  - by rewrite IH.
Qed.


Lemma lacks_app c a b : lacks c (a +:+ b) = (lacks c a && lacks c b)%bool.
Proof. apply all_bytes_app. Qed.

(** [getScheme] on a scheme followed by a colon. *)
Lemma getScheme_from_scheme raw rest s i :
  Url.all_bytes
    (λ d, Url.is_alpha d || Url.is_digit d || Url.one_of d "+-.")%bool s = true →
  (i = 0 → match s with "" => False | String c _ => Url.is_alpha c = true end) →
  Url.getScheme_from i raw (s +:+ String ":" rest)
    = inr (Str.take (i + String.length s) raw, rest).
Proof.
  revert i. induction s as [|c s IH]; intros i Hs Hi.
  - simpl. destruct (decide (i = 0)) as [->|Hne]; [by destruct Hi|].
    by rewrite Nat.add_0_r.
  - simpl in Hs. apply andb_prop in Hs as [Hc Hs].
    change (String c s +:+ String ":" rest)
      with (String c (s +:+ String ":" rest)).
    simpl Url.getScheme_from.
    replace (i + String.length (String c s)) with (S i + String.length s)
      by (simpl; lia).
    destruct (Url.is_alpha c) eqn:Ha.
    + apply IH; [done | lia].
    + simpl in Hc. rewrite Hc.
      destruct (decide (i = 0)) as [->|Hne].
      * specialize (Hi eq_refl). simpl in Hi. congruence.
      * apply IH; [done | lia].
Qed.

Lemma getScheme_scheme scheme rest :
  scheme_ok scheme = true →
  Url.getScheme (scheme +:+ String ":" rest) = inr (scheme, rest).
Proof.
  intros Hs. unfold Url.getScheme.
  destruct scheme as [|c s]; [done|]. simpl in Hs.
  apply andb_prop in Hs as [Hc Hs].
  rewrite getScheme_from_scheme.
  - by rewrite Nat.add_0_l, str_take_app.
  - simpl. rewrite Hs, Hc. done.
  - done.
Qed.


Lemma count_go_zero fuel s sep :
  Str.count_go fuel s sep = 0 → String.length s ≤ fuel → s ≠ "" →
  Str.Index s sep = None.
Proof.
  destruct fuel as [|f]; simpl.
  - intros _ Hlen Hs. destruct s; [done | simpl in Hlen; lia].
  - by destruct (Str.Index s sep).
Qed.

(** The part of the URL before the query, whichever branch of lines
    "rest ends in ? and holds one ?" [parse] takes. *)
Lemma before_query rest :
  (if (Url.HasSuffix rest "?" && bool_decide (Str.Count rest "?" = 1))%bool
   then Str.take (String.length rest - 1) rest
   else (Url.Cut rest "?").1.1)
  = (Url.Cut rest "?").1.1.
Proof.
  destruct (Url.HasSuffix rest "?" && bool_decide (Str.Count rest "?" = 1))%bool
    eqn:Hcond; [|done].
  apply andb_prop in Hcond as [Hsuf Hcount].
  apply bool_decide_eq_true in Hsuf, Hcount.
  unfold Url.Cut. destruct (Str.Index rest "?") as [i|] eqn:Hi.
  2:{ apply Count_zero in Hi; [lia | done]. }
  simpl. f_equal.
  destruct (Index_Some _ _ _ Hi) as (Heq & Hlen & _).
  set (pre := Str.take i rest) in *.
  set (post := Str.drop (i + String.length "?") rest) in *.
  assert (String.length rest = i + 1 + String.length post) as Hlen'.
  { rewrite Heq at 1. rewrite !str_length_app, Hlen. simpl. lia. }
  destruct (decide (post = "")) as [Hpost|Hpost].
  { rewrite Hlen', Hpost. simpl. lia. }
  exfalso.
  (* the count says that [post] has no [?], the suffix that it ends in one *)
  assert (Str.Index post "?" = None) as Hnone.
  { unfold Str.Count in Hcount. simpl in Hcount.
    rewrite Hlen' in Hcount.
    replace (i + 1 + String.length post) with (S (i + String.length post))
      in Hcount by lia.
    simpl in Hcount. rewrite Hi in Hcount.
    change (Str.drop (i + 1) rest) with post in Hcount.
    apply (count_go_zero (i + String.length post)); [lia | lia | done]. }
  assert (String.length post ≠ 0) as Hpl by (by destruct post).
  clearbody pre post. clear Hi Hcount. subst rest.
  assert (Str.drop (String.length post - 1) post = "?") as Hlast.
  { rewrite <- Hsuf. rewrite Hlen'.
    replace (i + 1 + String.length post - String.length "?")
      with (String.length (pre +:+ "?") + (String.length post - 1))
      by (rewrite str_length_app, Hlen; simpl; lia).
    rewrite str_drop_add, <- str_app_assoc. by rewrite str_drop_app. }
  apply (Index_None _ _ Hnone (Str.take (String.length post - 1) post) "").
  rewrite str_app_nil_r. rewrite <- Hlast at 1. by rewrite str_take_drop.
Qed.


(** Escapes in a path. *)
Lemma unescape_path s :
  escapes_ok s = true → Url.unescape_err s Url.encodePath = None.
Proof.
  assert (∀ n s, String.length s ≤ n → escapes_ok s = true →
                 Url.unescape_err s Url.encodePath = None) as Hind;
    [|by apply (Hind (String.length s))].
  clear s. induction n as [|n IH]; intros s Hlen Hs.
  - destruct s; [done | simpl in Hlen; lia].
  - destruct s as [|c s1]; [done|]. simpl in *.
    destruct (decide (c = "%"%char)).
    + destruct s1 as [|a [|b s3]]; [done..|].
      apply andb_prop in Hs as [[Ha Hb]%andb_prop Hs3].
      rewrite Ha, Hb. simpl. apply IH; [simpl in Hlen; lia | done].
    + apply IH; [lia | done].
Qed.

(** The bytes of a host with its port: unreserved characters, digits and
    the colon; the host parser lets them all through. *)
Lemma host_byte_ok c :
  (unreserved c || Url.is_digit c || bool_decide (c = ":"%char))%bool = true →
  c ≠ "%"%char ∧ c ≠ "["%char ∧ c ≠ "@"%char ∧ c ≠ "/"%char ∧ c ≠ "?"%char
  ∧ Url.is_ctl c = false
  ∧ Url.shouldEscape c Url.encodeHost = false.
Proof.
  destruct c as [[] [] [] [] [] [] [] []]; vm_compute; intros Hc;
    first [discriminate Hc | repeat split; discriminate].
Qed.

Lemma unreserved_not_colon c : unreserved c = true → c ≠ ":"%char.
Proof. intros Hc ->. by vm_compute in Hc. Qed.

Lemma digit_not_colon c : Url.is_digit c = true → c ≠ ":"%char.
Proof. intros Hc ->. by vm_compute in Hc. Qed.

Lemma unescape_host s :
  Url.all_bytes
    (λ c, unreserved c || Url.is_digit c || bool_decide (c = ":"%char))%bool s
  = true →
  Url.unescape_err s Url.encodeHost = None.
Proof.
  induction s as [|c s IH]; [done|]. simpl.
  intros [Hc Hs]%andb_prop.
  destruct (host_byte_ok c Hc) as (Hpct & _ & _ & _ & _ & _ & Hesc).
  destruct (decide (c = "%"%char)); [done|].
  rewrite Hesc, andb_false_r. by apply IH.
Qed.

Lemma all_lacks (P : ascii → bool) c s :
  (∀ d, P d = true → d ≠ c) → Url.all_bytes P s = true → lacks c s = true.
Proof.
  intros HP. apply all_bytes_impl. intros d Hd.
  apply negb_true_iff, bool_decide_eq_false. intros ->. by eapply HP.
Qed.

Lemma host_port_bytes host port :
  host_ok host = true → port_ok port = true →
  Url.all_bytes
    (λ c, unreserved c || Url.is_digit c || bool_decide (c = ":"%char))%bool
    (host +:+ port) = true.
Proof.
  intros Hh Hp. rewrite all_bytes_app. apply andb_true_intro. split.
  - revert Hh. apply all_bytes_impl. by intros c ->.
  - destruct port as [|c digits]; [done|]. simpl in *.
    apply andb_prop in Hp as [-> Hd]. rewrite orb_true_r. simpl.
    revert Hd. apply all_bytes_impl. intros d ->. by rewrite orb_true_r.
Qed.

Lemma parseHost_host_port host port :
  host_ok host = true → port_ok port = true →
  Url.parseHost (host +:+ port) = None.
Proof.
  intros Hh Hp. pose proof (host_port_bytes _ _ Hh Hp) as Hbytes.
  unfold Url.parseHost. rewrite (unescape_host _ Hbytes).
  assert (Str.HasPrefix (host +:+ port) "[" = false) as ->.
  { destruct (host +:+ port) as [|c s] eqn:Heq; [done|].
    rewrite HasPrefix_char. apply bool_decide_eq_false. intros <-.
    by simpl in Hbytes. }
  assert (lacks ":" host = true) as Hhost
    by (eapply all_lacks; [apply unreserved_not_colon | done]).
  destruct port as [|c digits].
  - rewrite str_app_nil_r. by rewrite LastIndex_lacks.
  - simpl in Hp. apply andb_prop in Hp as [Hc Hd].
    apply bool_decide_eq_true in Hc as ->.
    rewrite LastIndex_last
      by (eapply all_lacks; [apply digit_not_colon | done]).
    rewrite str_drop_app. simpl. by rewrite Hd.
Qed.

Lemma parseAuthority_host_port host port :
  host_ok host = true → port_ok port = true →
  Url.parseAuthority (host +:+ port) = None.
Proof.
  intros Hh Hp. unfold Url.parseAuthority.
  rewrite LastIndex_lacks; [by apply parseHost_host_port|].
  eapply all_lacks; [|by apply host_port_bytes].
  intros d Hd. by destruct (host_byte_ok d Hd) as (_ & _ & ? & _).
Qed.


Lemma getScheme_from_lacks raw rest i :
  lacks ":" rest = true → Url.getScheme_from i raw rest = inr ("", raw).
Proof.
  revert i. induction rest as [|c rest IH]; intros i; [done|].
  unfold lacks. simpl. intros [Hc Hrest]%andb_prop.
  apply negb_true_iff, bool_decide_eq_false in Hc.
  destruct (Url.is_alpha c); [by apply IH|].
  destruct (Url.is_digit c || Url.one_of c "+-.")%bool.
  - destruct (decide (i = 0)); [done | by apply IH].
  - by destruct (decide (c = ":"%char)).
Qed.

Lemma Cut_lacks c s : lacks c s = true → Url.Cut s (String c "") = (s, "", false).
Proof. intros Hs. unfold Url.Cut. by rewrite Index_lacks. Qed.

Lemma Cut_first c a b :
  lacks c a = true → (Url.Cut (a +:+ String c b) (String c "")).1.1 = a.
Proof.
  intros Ha. unfold Url.Cut. rewrite Index_first by done. simpl.
  apply str_take_app.
Qed.

Lemma not_ctl_app a b :
  Url.stringContainsCTLByte (a +:+ b)
  = (Url.stringContainsCTLByte a || Url.stringContainsCTLByte b)%bool.
Proof.
  unfold Url.stringContainsCTLByte. rewrite all_bytes_app.
  apply negb_andb.
Qed.

Lemma not_ctl (P : ascii → bool) s :
  (∀ c, P c = true → Url.is_ctl c = false) →
  Url.all_bytes P s = true → Url.stringContainsCTLByte s = false.
Proof.
  intros HP Hs. unfold Url.stringContainsCTLByte. apply negb_false_iff.
  revert Hs. apply all_bytes_impl. intros c Hc. by rewrite HP.
Qed.

Lemma scheme_byte_ok c :
  (Url.is_alpha c || Url.is_digit c || Url.one_of c "+-.")%bool = true →
  Url.is_ctl c = false.
Proof.
  destruct c as [[] [] [] [] [] [] [] []]; vm_compute; intros Hc;
    first [discriminate Hc | reflexivity].
Qed.

(** Everything of the form [scheme://host[:port][/path][?query]] gets
    through [url.ParseRequestURI]. *)
Lemma ParseRequestURI_absolute scheme host port path query :
  scheme_ok scheme = true → host_ok host = true → port_ok port = true →
  path_ok path = true → query_ok query = true →
  Url.ParseRequestURI (absolute_url scheme host port path query) = None.
Proof.
  intros Hscheme Hhost Hport Hpath Hquery.
  pose proof (host_port_bytes _ _ Hhost Hport) as Hhp.
  unfold path_ok in Hpath.
  apply andb_prop in Hpath as [[Hroot Hpbytes]%andb_prop Hesc].
  unfold query_ok in Hquery. apply andb_prop in Hquery as [Hqroot Hqbytes].
  assert (lacks "?" (host +:+ port) = true) as Hhpq.
  { eapply all_lacks; [|exact Hhp].
    intros d Hd. by destruct (host_byte_ok d Hd) as (_ & _ & _ & _ & ? & _). }
  assert (lacks "/" (host +:+ port) = true) as Hhps.
  { eapply all_lacks; [|exact Hhp].
    intros d Hd. by destruct (host_byte_ok d Hd) as (_ & _ & _ & ? & _). }
  assert (lacks "?" path = true) as Hpq.
  { eapply all_lacks; [|exact Hpbytes]. intros d Hd ->. by vm_compute in Hd. }
  (* the URL after its scheme, and before its query *)
  set (before := "//" +:+ (host +:+ port) +:+ path).
  assert (absolute_url scheme host port path query
          = scheme +:+ String ":" (before +:+ query)) as Hurl.
  { unfold absolute_url, before. by rewrite !str_app_assoc. }
  assert (lacks "?" before = true) as Hbq.
  { unfold before.
    rewrite (lacks_app _ "//"), (lacks_app _ (host +:+ port)), Hhpq, Hpq.
    done. }
  assert ((Url.Cut (before +:+ query) "?").1.1 = before) as Hcut.
  { destruct query as [|c q]; simpl in Hqroot.
    - rewrite str_app_nil_r. by rewrite Cut_lacks.
    - apply bool_decide_eq_true in Hqroot as ->. by apply Cut_first. }
  unfold Url.ParseRequestURI, Url.parse. rewrite Hurl.
  assert (Url.stringContainsCTLByte (scheme +:+ String ":" (before +:+ query))
          = false) as ->.
  { change (String ":" (before +:+ query)) with (":" +:+ before +:+ query).
    unfold before.
    rewrite (not_ctl_app scheme), (not_ctl_app ":"), (not_ctl_app _ query),
      (not_ctl_app "//"), (not_ctl_app (host +:+ port)).
    assert (Url.stringContainsCTLByte scheme = false) as ->.
    { destruct scheme as [|c s]; [done|]. simpl in Hscheme.
      apply andb_prop in Hscheme as [Hc Hs].
      eapply (not_ctl _ (String c s) scheme_byte_ok). simpl.
      by rewrite Hc, Hs. }
    assert (Url.stringContainsCTLByte (host +:+ port) = false) as ->.
    { eapply not_ctl; [|exact Hhp].
      intros d Hd. by destruct (host_byte_ok d Hd) as (_&_&_&_&_&?&_). }
    assert (Url.stringContainsCTLByte path = false) as ->.
    { eapply not_ctl; [|exact Hpbytes].
      intros d [Hd _]%andb_prop. by apply negb_true_iff. }
    assert (Url.stringContainsCTLByte query = false) as ->.
    { eapply not_ctl; [|exact Hqbytes]. intros d Hd. by apply negb_true_iff. }
    done. }
  destruct scheme as [|c s] eqn:Hs; [done|]. rewrite <- Hs in *.
  assert (scheme +:+ String ":" (before +:+ query) ≠ "") as Hne
    by (rewrite Hs; done).
  assert (scheme +:+ String ":" (before +:+ query) ≠ "*") as Hstar.
  { rewrite Hs. simpl. intros [= _ Heq]. by destruct s. }
  rewrite bool_decide_eq_false_2 by done. simpl andb. cbv iota.
  destruct (decide (_ = "*")); [done|].
  rewrite getScheme_scheme by done.
  rewrite before_query, Hcut.
  assert (Str.HasPrefix before "/" = true) as -> by done.
  assert (Str.HasPrefix before "//" = true) as ->
    by (unfold before; apply HasPrefix_app).
  rewrite (bool_decide_eq_false_2 (scheme = "")) by (rewrite Hs; done).
  simpl negb. simpl andb. simpl orb. cbv iota.
  assert (Str.drop 2 before = (host +:+ port) +:+ path) as -> by done.
  destruct path as [|d p].
  - rewrite str_app_nil_r, Index_lacks by done.
    by rewrite parseAuthority_host_port.
  - simpl in Hroot. apply bool_decide_eq_true in Hroot as ->.
    rewrite Index_first by done.
    rewrite str_take_app, str_drop_app.
    rewrite parseAuthority_host_port by done. by apply unescape_path.
Qed.


Lemma take_not_rooted i s :
  Str.HasPrefix s "/" = false → Str.HasPrefix (Str.take i s) "/" = false.
Proof.
  destruct s as [|c s]; [by destruct i|]. destruct i as [|i]; [done|].
  simpl Str.take. by rewrite !HasPrefix_char.
Qed.

(** Without a colon there is no scheme; what then does not begin with a
    slash is no request URI. *)
Lemma ParseRequestURI_no_scheme s :
  s ≠ "*" → lacks ":" s = true → Str.HasPrefix s "/" = false →
  ∃ e, Url.ParseRequestURI s = Some e.
Proof.
  intros Hstar Hcolon Hroot. unfold Url.ParseRequestURI, Url.parse.
  destruct (Url.stringContainsCTLByte s); [by eexists|].
  destruct (bool_decide (s = "") && true)%bool; [by eexists|].
  destruct (decide (s = "*")); [done|].
  unfold Url.getScheme. rewrite getScheme_from_lacks by done.
  rewrite before_query.
  assert (Str.HasPrefix (Url.Cut s "?").1.1 "/" = false) as ->.
  { unfold Url.Cut. destruct (Str.Index s "?"); simpl; [|done].
    by apply take_not_rooted. }
  by eexists.
Qed.

(** A path that begins with a slash is a request URI, whatever else it
    holds. *)
Lemma ParseRequestURI_rooted p :
  path_ok (String "/" p) = true →
  Url.ParseRequestURI (String "/" p) = None.
Proof.
  intros Hpath. unfold path_ok in Hpath.
  apply andb_prop in Hpath as [[_ Hbytes]%andb_prop Hesc].
  unfold Url.ParseRequestURI, Url.parse.
  assert (Url.stringContainsCTLByte (String "/" p) = false) as ->.
  { eapply not_ctl; [|exact Hbytes].
    intros d [Hd _]%andb_prop. by apply negb_true_iff. }
  rewrite bool_decide_eq_false_2 by done. simpl andb. cbv iota.
  destruct (decide (String "/" p = "*")); [done|].
  assert (Url.getScheme (String "/" p) = inr ("", String "/" p)) as -> by done.
  rewrite before_query, Cut_lacks.
  2:{ eapply all_lacks; [|exact Hbytes]. intros d Hd ->. by vm_compute in Hd. }
  simpl. rewrite HasPrefix_char. simpl.
  by apply unescape_path.
Qed.

(** C5 (as amended): [IsValid] accepts every absolute URL of the form
    [scheme://host[:port][/path][?query]], such as
    [https://example.org/sparql]; it rejects the empty string and every
    input without a colon that neither begins with a slash nor is [*], such
    as [not a url].  It accepts every path that begins with a slash,
    well-formed as a URL or not. *)
Theorem IsValid_request_uri :
  (∀ scheme host port path query,
     scheme_ok scheme = true → host_ok host = true → port_ok port = true →
     path_ok path = true → query_ok query = true →
     IsValid {| Endpoint := absolute_url scheme host port path query |} = None)
  ∧ IsValid {| Endpoint := "https://example.org/sparql" |} = None
  ∧ IsValid {| Endpoint := "" |} = Some (ErrorString "empty url")
  ∧ (∀ s, s ≠ "*" → lacks ":" s = true → Str.HasPrefix s "/" = false →
          ∃ e, IsValid {| Endpoint := s |} = Some e)
  ∧ IsValid {| Endpoint := "not a url" |}
    = Some (ErrorString "invalid URI for request")
  ∧ (∀ p, path_ok (String "/" p) = true →
          IsValid {| Endpoint := String "/" p |} = None).
Proof.
  split.
  { intros scheme host port path query ? ? ? ? ?. unfold IsValid. simpl.
    by rewrite ParseRequestURI_absolute. }
  split; [by vm_compute|]. split; [by vm_compute|]. split.
  { intros s Hstar Hcolon Hroot. unfold IsValid. simpl.
    destruct (ParseRequestURI_no_scheme s) as [e ->]; [done..|]. by exists e. }
  split; [by vm_compute|].
  intros p Hp. unfold IsValid. simpl. by rewrite ParseRequestURI_rooted.
Qed.

End UrlFacts.

(** ** More of the validator (lines 27-33) *)

Section Validator.
Implicit Types (s t a b : string) (c d : ascii).
Local Arguments String.append !_ _ / : simpl nomatch.
Local Arguments Str.HasPrefix : simpl never.


Lemma scheme_no_ctl scheme :
  scheme_ok scheme = true → Url.stringContainsCTLByte scheme = false.
Proof.
  destruct scheme as [|c s]; [done|]. simpl. intros [Hc Hs]%andb_true_iff.
  change (String c s) with (String c "" +:+ s). rewrite not_ctl_app.
  apply orb_false_iff. split.
  - unfold Url.stringContainsCTLByte. simpl.
    rewrite (scheme_byte_ok c); [done|]. by rewrite Hc.
  - eapply not_ctl; [|done]. apply scheme_byte_ok.
Qed.

(** X5: a scheme, a colon and anything that does not begin with a slash is
    accepted as it stands (an opaque URL): no host or path is looked at, so
    [example.org:8080/sparql] passes without [http://]. *)
Theorem IsValid_accepts_opaque scheme rest :
  scheme_ok scheme = true →
  Str.HasPrefix rest "/" = false →
  Url.stringContainsCTLByte rest = false →
  IsValid {| Endpoint := scheme +:+ String ":" rest |} = None.
Proof.
  intros Hscheme Hrest Hctl.
  unfold IsValid, Url.ParseRequestURI, Url.parse. simpl.
  rewrite not_ctl_app, (scheme_no_ctl _ Hscheme).
  assert (Url.stringContainsCTLByte (String ":" rest) = false) as ->.
  { change (String ":" rest) with (":" +:+ rest). by rewrite not_ctl_app, Hctl. }
  simpl.
  assert (scheme ≠ "") as Hne by (by destruct scheme).
  rewrite bool_decide_eq_false_2 by (by destruct scheme).
  simpl. destruct (decide _) as [Heq|_].
  { exfalso. destruct scheme as [|c [|]]; simplify_eq. }
  rewrite getScheme_scheme by done.
  rewrite before_query.
  assert (Str.HasPrefix (Url.Cut rest "?").1.1 "/" = false) as ->.
  { unfold Url.Cut. destruct (Str.Index rest "?"); [|done].
    by apply take_not_rooted. }
  by rewrite (bool_decide_eq_false_2 _ Hne).
Qed.

End Validator.

(** ** The configuration stage (lines 90-111) *)

Section Config.
Context `{Env}.
Implicit Types (st : State) (config : siteConfig).

Lemma read_file_File (f : FS) p data :
  Fs.read_file f p = inr data → Fs.node_at f p = Some (File data).
Proof.
  unfold Fs.read_file, Fs.stat.
  destruct (Fs.node_at f p) as [[c| |]|]; naive_solver.
Qed.

Lemma build_site_changes config st :
  (build_site config st).2 ≠ st →
  Fs.node_at (fs (world st)) (at_ (world st) "site") = None.
Proof.
  intros Hne. unfold build_site, mbind, M_bind in Hne.
  rewrite os_Mkdir_run in Hne.
  destruct (mkdir_cases (fs (world st)) (at_ (world st) "site"))
    as [[e He]|(Hnone & _)]; [|done].
  rewrite He in Hne. simpl in Hne.
  by rewrite set_fs_same, state_eta in Hne.
Qed.

(** X1: a run of the command that changes anything (a file, a directory,
    a line of output, a query, a page) had a working directory with a regular
    file [snowman.yaml] that parsed without error to a configuration
    [IsValid] accepts, and found nothing at [site]. *)
Theorem effects_need_valid_config st :
  (buildCmd st).2 ≠ st →
  getwd_err (world st) = None
  ∧ Fs.node_at (fs (world st)) (at_ (world st) "site") = None
  ∧ ∃ data config,
      Fs.node_at (fs (world st))
        (at_ (world st) (cwd (world st) +:+ "/snowman.yaml"))
        = Some (File data)
      ∧ Parse {| Endpoint := "" |} data = (None, config)
      ∧ IsValid config = None.
Proof.
  rewrite buildCmd_unfold.
  destruct (getwd_err (world st)); [done|]. simpl.
  destruct (Fs.stat _ _); [done|].
  destruct (Fs.read_file _ _) as [e|data] eqn:Hread; [done|].
  destruct (Parse _ data) as [[e|] config] eqn:Hparse; [done|].
  destruct (IsValid config) eqn:Hvalid; [done|].
  intros Hne. split; [done|]. split; [by eapply build_site_changes|].
  exists data, config. split; [by apply read_file_File|]. done.
Qed.


End Config.

(** ** What a failure reports (lines 89-164) *)

Section Reports.
Context `{Env}.
Implicit Types (st : State) (view : View Tmpl).

Lemma reports_bind {A} (m : M A) (k : A → M (option Failure)) :
  (∀ a, reports (k a)) → reports (m ≫= k).
Proof.
  intros Hk st f. unfold mbind, M_bind.
  destruct (m st) as [[a|] st1]; [apply Hk | done].
Qed.

Lemma reports_stage (msg : string) e :
  msg ∈ stage_messages → reports (mret (ErrorExit msg e)).
Proof. intros Hmsg st f [= <-]. by left. Qed.

Lemma reports_none : reports (mret None).
Proof. by intros st f. Qed.

Ltac stage := apply reports_stage; unfold stage_messages; set_solver.

Lemma rows_run_reported view hook results evs f :
  rows_run view hook results evs (Some f) →
  ∃ pre p data,
    evs = pre ++ [EvRender view p data (Some (cause f))]
    ∧ message f = "Failed to render page at " +:+ p.
Proof.
  remember (Some f) as r eqn:Hr.
  induction 1 as [|row rest e|row rest evs r Hrun IH].
  - done.
  - injection Hr as <-. by exists [], (outputPath_of view hook row), (OneRow row).
  - destruct (IH Hr) as (pre & p & data & -> & Hmsg).
    by exists (EvRender view (outputPath_of view hook row) (OneRow row) None
               :: pre), p, data.
Qed.

Lemma pages_run_reported view results evs f :
  pages_run view results evs (Some f) →
  ∃ pre p data,
    evs = pre ++ [EvRender view p data (Some (cause f))]
    ∧ message f = "Failed to render page at " +:+ p.
Proof.
  inversion 1 as [hook ? ? ? Hhook Hrows|? res Hhook]; subst.
  - by eapply rows_run_reported.
  - destruct res as [e|]; [|done].
    match goal with Hf : ErrorExit _ _ = Some f |- _ => injection Hf as <- end.
    by exists [], (siteDir +:+ Output (ViewConfig view)), (AllRows results).
Qed.

Lemma views_run_reported (views : list (View Tmpl)) evs f tr :
  views_run views evs (Some f) → reported f (tr ++ evs).
Proof.
  remember (Some f) as r eqn:Hr. intros Hrun. revert tr.
  induction Hrun as [|view rest evs f' Hview|view rest evs evs' r Hview Hrun IH];
    intros tr.
  - done.
  - injection Hr as ->.
    inversion Hview as [e|e|results evs0 r Hpages]; subst.
    + left. unfold stage_messages. set_solver.
    + left. unfold stage_messages. set_solver.
    + destruct (pages_run_reported _ _ _ _ Hpages)
        as (pre & p & data & -> & Hmsg).
      right. exists view, p, data. split; [|done].
      by rewrite app_comm_cons, app_assoc, last_snoc.
  - rewrite app_assoc. by apply IH.
Qed.

Lemma reports_build_views config (views : list (View Tmpl)) :
  reports (build_views config views).
Proof.
  intros st f.
  destruct (build_views_run config views st) as (evs & r & w' & -> & Hrun).
  simpl. intros [= ->]. by apply (views_run_reported views).
Qed.

Lemma reports_build_pages config : reports (build_pages config).
Proof.
  unfold build_pages. apply reports_bind. intros [e|layouts]; [stage|].
  apply reports_bind. intros [e|views]; [stage|].
  apply reports_build_views.
Qed.

Lemma copy_static_files_message st f :
  (copy_static_files st).1 = Val (Some f) →
  message f = "Failed to copy static files.".
Proof.
  unfold copy_static_files, mbind, M_bind. rewrite os_Stat_run.
  destruct (match Fs.stat _ _ with inl e => IsNotExist e | inr _ => false end).
  - done.
  - destruct (CopyStatic st) as [[[e|]|] st']; simpl; [|done..].
    by intros [= <-].
Qed.

Lemma reports_build_static config : reports (build_static config).
Proof.
  intros st f. unfold build_static, mbind, M_bind.
  pose proof (copy_static_files_message st) as Hmsg.
  destruct (copy_static_files st) as [[[f'|]|] st1]; simpl in *.
  - intros [= ->]. left. rewrite (Hmsg f eq_refl).
    unfold stage_messages. set_solver.
  - apply reports_build_pages.
  - done.
Qed.

(** X3: whenever the command fails, the failure carries the fixed message
    of the stage that failed or, when a page failed to render, the text
    [Failed to render page at] followed by the path handed to the last
    [RenderPage] call, with the error of that call as its cause. *)
Theorem failure_names_stage st f :
  (buildCmd st).1 = Val (Some f) →
  message f ∈ stage_messages
  ∨ ∃ view p data,
      last (trace (buildCmd st).2)
        = Some (EvRender view p data (Some (cause f)))
      ∧ message f = "Failed to render page at " +:+ p.
Proof.
  revert st f. change (reports buildCmd).
  unfold buildCmd. apply reports_bind. intros [e|wd]; [stage|].
  apply reports_bind. intros [e|_]; [stage|].
  apply reports_bind. intros [e|data]; [stage|].
  destruct (Parse _ data) as [[e|] config]; [stage|].
  destruct (IsValid config); [stage|].
  unfold build_site. apply reports_bind. intros [e|]; [stage|].
  apply reports_build_static.
Qed.

End Reports.

(** ** The includes (lines 35-50) *)

Section Includes.
Context `{Env}.
Implicit Types (st : State) (f : FS) (rel : list string).

(** The function [DiscoverIncludes] walks with. *)
Local Abbreviation collect :=
  (λ (path : string) (info : option Node) (err : option error)
     (paths : list string),
     match err with
     | Some e => mret (Some e, paths)
     | None =>
         match info with
         | None => panic
         | Some info =>
             if negb (IsDir info) then mret (None, paths ++ [path])
             else mret (None, paths)
         end
     end).

Lemma collect_entries root depth entries (acc : list string) st :
  walk_entries collect root depth entries acc st
    = (Val (None,
            acc ++ ((λ kv, walk_name root (drop depth kv.1))
                      <$> filter (λ kv : list string * Node, IsDir kv.2 = false)
                            entries)), st).
Proof.
  revert acc. induction entries as [|[p n] rest IH]; intros acc.
  - simpl. by rewrite app_nil_r.
  - rewrite walk_entries_cons, filter_cons. simpl.
    destruct (IsDir n); simpl.
    + apply IH.
    + rewrite IH. by rewrite <- app_assoc.
Qed.

(** [DiscoverIncludes], call by call. *)
Lemma DiscoverIncludes_run st :
  DiscoverIncludes st =
    (Val match Fs.stat (fs (world st)) (at_ (world st) "templates/includes") with
         | inl e => inl e
         | inr info =>
             inr (if IsDir info
                  then (λ kv, walk_name "templates/includes"
                                (drop (length (at_ (world st)
                                                 "templates/includes")) kv.1))
                         <$> filter (λ kv : list string * Node,
                                       IsDir kv.2 = false)
                               (Fs.tree (fs (world st))
                                  (at_ (world st) "templates/includes"))
                  else ["templates/includes"])
         end, st).
Proof.
  unfold DiscoverIncludes. unfold mbind at 1, M_bind at 1.
  unfold filepath_Walk.
  destruct (Fs.stat _ _) as [e|info]; [done|].
  unfold mbind at 1, M_bind at 1.
  destruct (IsDir info) eqn:Hdir; simpl; [|done].
  by rewrite collect_entries.
Qed.

Lemma at_includes (w : World Ext) rel :
  Forall valid_name rel →
  at_ w (Path.join ("templates" :: "includes" :: rel))
    = workdir w ++ "templates" :: "includes" :: rel.
Proof.
  intros Hrel. unfold at_. rewrite resolve_join; [done|done|].
  by repeat (constructor; [by repeat split|]).
Qed.

Lemma at_includes_root (w : World Ext) :
  at_ w "templates/includes" = workdir w ++ ["templates"; "includes"].
Proof. apply (at_includes w []). constructor. Qed.

Lemma walk_name_includes rel :
  Forall valid_name rel →
  walk_name "templates/includes" rel
    = Path.join ("templates" :: "includes" :: rel).
Proof.
  intros Hrel. change "templates/includes"
    with (Path.join ["templates"; "includes"]).
  rewrite walk_name_join; [done|done| |done].
  by repeat (constructor; [by repeat split|]).
Qed.

(** X6: [DiscoverIncludes] changes nothing and, unlike [CopyStatic], looks
    at the error of the walk before it looks at the file: it returns an
    error exactly when [templates/includes] cannot be examined, and
    [templates/includes] alone when that is not a directory. *)
Theorem DiscoverIncludes_reads_only st :
  ∃ r,
    DiscoverIncludes st = (Val r, st)
    ∧ (∀ e, r = inl e
            ↔ Fs.stat (fs (world st)) (at_ (world st) "templates/includes")
              = inl e)
    ∧ ∀ info,
        Fs.stat (fs (world st)) (at_ (world st) "templates/includes")
          = inr info →
        IsDir info = false → r = inr ["templates/includes"].
Proof.
  eexists. split; [apply DiscoverIncludes_run|].
  destruct (Fs.stat _ _) as [e|info]; split.
  - intros e'. split; congruence.
  - done.
  - intros e'. split; congruence.
  - by intros ? [= <-] ->.
Qed.

(** What the walk finds below [templates/includes] in a well-formed
    file system. *)
Lemma includes_tree st k n :
  wf (fs (world st)) →
  (k, n) ∈ Fs.tree (fs (world st))
             (workdir (world st) ++ ["templates"; "includes"]) →
  ∃ rel, rel ≠ []
         ∧ k = (workdir (world st) ++ ["templates"; "includes"]) ++ rel
         ∧ Forall valid_name rel
         ∧ fs (world st) !! k = Some n.
Proof.
  intros Hwf [Hk Hb]%tree_spec.
  apply below_spec in Hb as (rel & Hrel & ->).
  exists rel. split; [done|]. split; [done|]. split; [|done].
  destruct (wf_lookup _ _ _ Hwf Hk) as (Hv & _).
  by apply Forall_app in Hv as [_ ?].
Qed.

Lemma includes_drop (W : list string) rel :
  drop (length W) ((W ++ ["templates"; "includes"]) ++ rel)
    = "templates" :: "includes" :: rel.
Proof. rewrite <- app_assoc. by rewrite drop_app_length. Qed.

(** The names [DiscoverIncludes] returns for a directory
    [templates/includes]. *)
Lemma DiscoverIncludes_names st :
  wf (fs (world st)) →
  Fs.node_at (fs (world st)) (at_ (world st) "templates/includes")
    = Some Dir →
  DiscoverIncludes st
    = (Val (inr ((λ kv, Path.join (drop (length (workdir (world st))) kv.1))
                   <$> filter (λ kv : list string * Node, IsDir kv.2 = false)
                         (Fs.tree (fs (world st))
                            (at_ (world st) "templates/includes")))), st).
Proof.
  intros Hwf Hdir. rewrite DiscoverIncludes_run, (stat_Some _ _ _ Hdir).
  change (IsDir Dir) with true. cbv iota.
  rewrite at_includes_root in *.
  set (W := workdir (world st)) in *.
  set (R := W ++ ["templates"; "includes"]) in *.
  do 3 f_equal.
  apply Forall_fmap_ext, Forall_forall.
  intros [k n] [_ Hin]%list_elem_of_filter.
  destruct (includes_tree st k n Hwf Hin) as (rel & _ & -> & Hv & _). simpl.
  fold W R. rewrite drop_app_length. unfold R. rewrite includes_drop.
  by apply walk_name_includes.
Qed.

(** X7: with [templates/includes] a directory of a well-formed file
    system, [DiscoverIncludes] returns the files below it in the order of
    the walk, each once and under the name
    [templates/includes/...] that leads to it; directories are left out,
    everything else (also what is not a regular file) is listed. *)
Theorem DiscoverIncludes_lists st :
  wf (fs (world st)) →
  Fs.node_at (fs (world st)) (at_ (world st) "templates/includes")
    = Some Dir →
  ∃ paths,
    DiscoverIncludes st = (Val (inr paths), st)
    ∧ paths
      = (λ kv, Path.join (drop (length (workdir (world st))) kv.1))
          <$> filter (λ kv : list string * Node, IsDir kv.2 = false)
                (Fs.tree (fs (world st))
                   (at_ (world st) "templates/includes"))
    ∧ NoDup paths
    ∧ ∀ p,
        p ∈ paths ↔
        ∃ rel n,
          rel ≠ []
          ∧ fs (world st) !! (at_ (world st) "templates/includes" ++ rel)
            = Some n
          ∧ IsDir n = false
          ∧ p = Path.join ("templates" :: "includes" :: rel)
          ∧ at_ (world st) p = at_ (world st) "templates/includes" ++ rel.
Proof.
  intros Hwf Hdir.
  eexists. split; [by apply DiscoverIncludes_names|]. split; [done|].
  rewrite at_includes_root in *.
  set (W := workdir (world st)) in *.
  set (R := W ++ ["templates"; "includes"]) in *.
  pose proof (λ k n, includes_tree st k n Hwf) as Htree.
  pose proof (includes_drop W) as Hdrop.
  fold W R in Htree, Hdrop.
  split.
  - apply NoDup_fmap_2_strong.
    + intros [k n] [k' n'] [_ Hin]%list_elem_of_filter
        [_ Hin']%list_elem_of_filter. simpl.
      destruct (Htree k n Hin) as (rel & Hrel & -> & Hv & Hk).
      destruct (Htree k' n' Hin') as (rel' & Hrel' & -> & Hv' & Hk').
      rewrite !Hdrop. intros Heq.
      apply (f_equal Path.split) in Heq.
      rewrite !split_join in Heq; [| done | | done |].
      * simplify_eq. congruence.
      * apply valid_no_slash.
        by repeat (constructor; [by repeat split|]).
      * apply valid_no_slash.
        by repeat (constructor; [by repeat split|]).
    + apply NoDup_filter. unfold Fs.tree.
      rewrite merge_sort_Permutation.
      apply NoDup_filter, NoDup_map_to_list.
  - intros p. rewrite list_elem_of_fmap. split.
    + intros ([k n] & -> & [Hn Hin]%list_elem_of_filter). simpl in *.
      destruct (Htree k n Hin) as (rel & Hrel & -> & Hv & Hk).
      exists rel, n. rewrite Hdrop. repeat split; try done.
      rewrite at_includes by done. unfold R. by rewrite <- app_assoc.
    + intros (rel & n & Hrel & Hk & Hn & -> & _).
      exists (R ++ rel, n). simpl. rewrite Hdrop. split; [done|].
      apply list_elem_of_filter. split; [done|].
      apply tree_spec. split; [done|]. apply below_spec. by exists rel.
Qed.

End Includes.

(** ** The order of a walk *)

Section WalkOrder.
Implicit Types (a b c : string) (p q r : list string).

Lemma string_compare_refl a : String.compare a a = Eq.
Proof.
  induction a as [|x a IH]; [done|]. simpl.
  unfold Ascii.compare. by rewrite N.compare_refl.
Qed.

Lemma string_lt_trans a b c :
  String.ltb a b = true → String.ltb b c = true → String.ltb a c = true.
Proof.
  unfold String.ltb. revert b c.
  induction a as [|x a IH]; intros [|y b] [|z c]; simpl; try done.
  unfold Ascii.compare.
  destruct (N.compare_spec (N_of_ascii x) (N_of_ascii y)) as [Hxy|Hxy|Hxy];
    [|  |done];
    destruct (N.compare_spec (N_of_ascii y) (N_of_ascii z)) as [Hyz|Hyz|Hyz];
    try done.
  - rewrite Hxy, Hyz, N.compare_refl. apply IH.
  - intros _ _. rewrite Hxy. by apply N.compare_lt_iff in Hyz as ->.
  - intros _ _. rewrite <- Hyz. by apply N.compare_lt_iff in Hxy as ->.
  - intros _ _.
    assert (N_of_ascii x < N_of_ascii z)%N as Hxz by lia.
    by apply N.compare_lt_iff in Hxz as ->.
Qed.

Lemma string_lt_irrefl a : String.ltb a a = false.
Proof. unfold String.ltb. by rewrite string_compare_refl. Qed.

Lemma string_lt_total a b :
  a ≠ b → String.ltb a b = true ∨ String.ltb b a = true.
Proof.
  intros Hne. unfold String.ltb. rewrite (String.compare_antisym b a).
  destruct (String.compare a b) eqn:Hc; simpl; auto.
  by apply String.compare_eq_iff in Hc.
Qed.

Lemma le_trans p q r :
  Path.le p q = true → Path.le q r = true → Path.le p r = true.
Proof.
  revert q r. induction p as [|a p IH]; intros [|b q] [|c r]; simpl; try done.
  destruct (decide (a = b)) as [->|Hab], (decide (b = c)) as [->|Hbc].
  - apply IH.
  - done.
  - intros Hlt _. by rewrite decide_False by done.
  - intros Hlt Hlt'. pose proof (string_lt_trans _ _ _ Hlt Hlt') as Hac.
    destruct (decide (a = c)) as [->|_]; [|done].
    by rewrite string_lt_irrefl in Hac.
Qed.

Lemma le_total p q : Path.le p q = true ∨ Path.le q p = true.
Proof.
  revert q. induction p as [|a p IH]; intros [|b q]; simpl; auto.
  destruct (decide (a = b)) as [->|Hab].
  - rewrite decide_True by done. apply IH.
  - rewrite decide_False by done. by apply string_lt_total.
Qed.

Lemma le_app p q r : Path.le (p ++ q) (p ++ r) = Path.le q r.
Proof.
  induction p as [|a p IH]; [done|]. simpl. by rewrite decide_True.
Qed.

(** What a walk finds comes in the order [Path.le]. *)
Lemma tree_sorted (f : FS) root :
  StronglySorted (λ kv kv' : list string * Node, Path.le kv.1 kv'.1)
    (Fs.tree f root).
Proof.
  unfold Fs.tree.
  set (R := λ kv kv' : list string * Node, Is_true (Path.le kv.1 kv'.1)).
  assert (Transitive R) as Htrans.
  { intros x y z Hxy%Is_true_true Hyz%Is_true_true.
    apply Is_true_true. by eapply le_trans. }
  assert (Total R) as Htotal.
  { intros x y. destruct (le_total x.1 y.1); [left|right];
      by apply Is_true_true. }
  apply (StronglySorted_merge_sort R).
Qed.

Lemma StronglySorted_filter {A} (R : relation A) (P : A → Prop)
    `{∀ x, Decision (P x)} (l : list A) :
  StronglySorted R l → StronglySorted R (filter P l).
Proof.
  induction 1 as [|x l Hl IH Hx]; [constructor|].
  rewrite filter_cons. destruct (decide (P x)); [|done].
  constructor; [done|].
  apply Forall_forall. intros y [_ Hy]%list_elem_of_filter.
  rewrite Forall_forall in Hx. by apply Hx.
Qed.

End WalkOrder.

Section IncludesOrder.
Context `{Env}.

(** X14: the names [DiscoverIncludes] returns are in the order of the
    walk: compared element by element, a name before every later one, so
    the files of a directory come in the byte order of their names and
    before those of the directory that follows. *)
Theorem DiscoverIncludes_sorted (st : State) :
  wf (fs (world st)) →
  Fs.node_at (fs (world st)) (at_ (world st) "templates/includes")
    = Some Dir →
  ∃ paths,
    DiscoverIncludes st = (Val (inr paths), st)
    ∧ StronglySorted
        (λ p q, Path.le (Path.split p) (Path.split q) = true) paths.
Proof.
  intros Hwf Hdir.
  eexists. split; [by apply DiscoverIncludes_names|].
  rewrite at_includes_root in *.
  set (W := workdir (world st)) in *.
  set (R := W ++ ["templates"; "includes"]) in *.
  pose proof (StronglySorted_filter _
                (λ kv : list string * Node, IsDir kv.2 = false) _
                (tree_sorted (fs (world st)) R)) as Hsorted.
  assert (Forall (λ kv : list string * Node,
                    ∃ rel, kv.1 = R ++ rel ∧ Forall valid_name rel)
            (filter (λ kv : list string * Node, IsDir kv.2 = false)
               (Fs.tree (fs (world st)) R))) as Hall.
  { apply Forall_forall. intros [k n] [_ [Hk Hb]%tree_spec]%list_elem_of_filter.
    apply below_spec in Hb as (rel & _ & ->). exists rel. split; [done|].
    destruct (wf_lookup _ _ _ Hwf Hk) as (Hv & _).
    by apply Forall_app in Hv as [_ ?]. }
  induction Hsorted as [|[k n] l Hl IH Hk]; [constructor|].
  apply Forall_cons in Hall as [(rel & Hrel & Hv) Hall]. simpl in Hrel.
  rewrite fmap_cons. constructor; [by apply IH|].
  apply Forall_fmap, Forall_forall. intros [k' n'] Hin. simpl.
  rewrite Forall_forall in Hk, Hall.
  specialize (Hk _ Hin). destruct (Hall _ Hin) as (rel' & Hrel' & Hv').
  simpl in Hk, Hrel'. subst k k'.
  assert (∀ rel0, Forall valid_name rel0 →
            Path.split (Path.join (drop (length W) (R ++ rel0)))
            = "templates" :: "includes" :: rel0) as Hsplit.
  { intros rel0 Hv0. unfold R. rewrite <- app_assoc, drop_app_length.
    apply split_join; [done|]. apply valid_no_slash.
    by repeat (constructor; [by repeat split|]). }
  rewrite !Hsplit by done.
  rewrite le_app in Hk. apply Is_true_true in Hk.
  change (Path.le (["templates"; "includes"] ++ rel)
            (["templates"; "includes"] ++ rel') = true).
  by rewrite le_app.
Qed.

End IncludesOrder.

(** ** More of the static files (lines 52-82 and 119-125) *)

Section StaticEdges.
Context `{Env}.
Implicit Types (st : State) (f : FS) (rel : list string).

(** X8: [CopyStatic] reads the [FileInfo] before it looks at the error of
    the walk, so where [static] cannot be examined it panics instead of
    returning the error.  The command guards the call against the error
    [os.IsNotExist] recognises and against no other. *)
Theorem CopyStatic_panics_without_static st e :
  Fs.stat (fs (world st)) (at_ (world st) "static") = inl e →
  CopyStatic st = (Panicked, st)
  ∧ copy_static_files st
    = if IsNotExist e
      then (Val None,
            {| world := print (world st)
                          "Failed to locate static files. Skipping...";
               trace := trace st |})
      else (Panicked, st).
Proof.
  intros Hstat.
  assert (CopyStatic st = (Panicked, st)) as Hpanic.
  { unfold CopyStatic, mbind, M_bind, filepath_Walk. by rewrite Hstat. }
  split; [done|].
  unfold copy_static_files, mbind, M_bind. rewrite os_Stat_run, Hstat.
  destruct (IsNotExist e); [done|]. by rewrite Hpanic.
Qed.

Lemma mkdir_all_dir f p :
  Fs.node_at f p = Some Dir → Fs.mkdir_all f p = (None, f).
Proof.
  intros Hp. unfold Fs.mkdir_all.
  assert (Fs.stat f (rev (rev p)) = inr Dir) as Hstat.
  { rewrite rev_involutive. by apply stat_Some. }
  destruct (rev p); cbn [Fs.mkdir_all_rev]; by rewrite Hstat.
Qed.

Lemma at_dot (w : World Ext) : at_ w "." = workdir w.
Proof.
  unfold at_, Path.resolve, workdir.
  change (Str.HasPrefix "." "/") with false. cbv iota.
  rewrite clean_from_app. reflexivity.
Qed.

(** X9: a regular file named [static] is taken for the one file to copy.
    Its target is computed as [static] itself, since there is no
    [static/] in that name to replace; [os.Create] empties the file before
    [io.Copy] reads it, so the command goes on without a failure and the
    bytes of the file are gone. *)
Theorem static_file_is_emptied st c :
  wf (fs (world st)) →
  fs (world st) !! at_ (world st) "static" = Some (File c) →
  copy_static_files st
    = (Val None,
       {| world := print (set_fs (world st)
                            (<[at_ (world st) "static" := File []]>
                               (fs (world st))))
                     "Copied static file to: static";
          trace := trace st |}).
Proof.
  intros Hwf Hfile.
  destruct (wf_lookup _ _ _ Hwf Hfile) as (_ & Hne & Hparent).
  assert (Fs.node_at (fs (world st)) (at_ (world st) "static")
          = Some (File c)) as Hnode by (by rewrite node_at_lookup).
  rewrite at_static_root, parent_snoc in Hparent.
  unfold copy_static_files, mbind at 1, M_bind at 1.
  rewrite os_Stat_run, (stat_Some _ _ _ Hnode). cbv iota.
  unfold CopyStatic, mbind, M_bind, filepath_Walk.
  rewrite (stat_Some _ _ _ Hnode).
  unfold copy_file. cbv beta iota delta [IsRegular].
  change (Str.Replace "static" "static/" "site/" 1) with "static".
  change (Path.Dir "static") with ".".
  unfold mbind, M_bind.
  rewrite (os_MkdirAll_run _ _ None (fs (world st)))
    by (rewrite at_dot; by apply mkdir_all_dir).
  rewrite set_fs_same, state_eta.
  rewrite os_Open_run. unfold Fs.open. rewrite (stat_Some _ _ _ Hnode).
  rewrite (os_Create_run _ _ (inr (at_ (world st) "static"))
             (<[at_ (world st) "static" := File []]> (fs (world st))))
    by (unfold Fs.create; by rewrite Hnode).
  rewrite (io_Copy_run _ _ _ None
             (<[at_ (world st) "static" := File []]> (fs (world st)))).
  2:{ rewrite world_mk, fs_set_fs.
      rewrite (copy_ok _ _ _ []); [by rewrite insert_insert_eq | |];
        by apply node_at_insert_eq. }
  rewrite fmt_Println_run. done.
Qed.

End StaticEdges.

(** ** What the file operations of the command never do *)

Section Kept.
Implicit Types (f : FS) (p q : list string) (n : Node).

Lemma kept_refl f : kept f f.
Proof. intros q n Hq. by left. Qed.

Lemma kept_trans f1 f2 f3 : kept f1 f2 → kept f2 f3 → kept f1 f3.
Proof.
  intros H12 H23 q n Hq.
  destruct (H12 q n Hq) as [Hq2|(Hreg & c & Hq2)].
  - by apply H23.
  - right. split; [done|].
    destruct (H23 q _ Hq2) as [Hq3|(_ & c' & Hq3)]; eauto.
Qed.

Lemma kept_insert_new f p n : f !! p = None → kept f (<[p := n]> f).
Proof.
  intros Hp q m Hq. left.
  rewrite lookup_insert_ne; [done|]. intros ->. congruence.
Qed.

Lemma kept_insert_file f p c c' :
  f !! p = Some (File c) → kept f (<[p := File c']> f).
Proof.
  intros Hp q m Hq. destruct (decide (p = q)) as [<-|Hne].
  - right. rewrite lookup_insert_eq. simplify_eq. split; [done|]. by exists c'.
  - left. by rewrite lookup_insert_ne.
Qed.

Lemma node_at_None f p : Fs.node_at f p = None → f !! p = None.
Proof. unfold Fs.node_at. by destruct (decide (p = [])). Qed.

Lemma node_at_File f p c : Fs.node_at f p = Some (File c) → f !! p = Some (File c).
Proof. unfold Fs.node_at. by destruct (decide (p = [])). Qed.

Lemma kept_mkdir f p : kept f (Fs.mkdir f p).2.
Proof.
  unfold Fs.mkdir. destruct (Fs.node_at f p) eqn:Hp; [apply kept_refl|].
  destruct (Fs.stat f (Fs.parent p)) as [e|[]]; simpl;
    try apply kept_refl.
  by apply kept_insert_new, node_at_None.
Qed.

Lemma kept_mkdir_all_rev f rp : kept f (Fs.mkdir_all_rev f rp).2.
Proof.
  induction rp as [|x rp IH]; cbn [Fs.mkdir_all_rev].
  - destruct (Fs.stat f (rev [])); [apply kept_mkdir | apply kept_refl].
  - destruct (Fs.stat f (rev (x :: rp))) as [e0|n0]; [|apply kept_refl].
    destruct (Fs.mkdir_all_rev f rp) as [[e|] f1]; [done|]. simpl in IH.
    pose proof (kept_mkdir f1 (rev (x :: rp))) as Hmk.
    destruct (Fs.mkdir f1 (rev (x :: rp))) as [[e'|] f2]; simpl in Hmk.
    + destruct (Fs.stat f2 (rev (x :: rp))) as [?|[]]; simpl;
        by eapply kept_trans.
    + by eapply kept_trans.
Qed.

Lemma kept_mkdir_all f p : kept f (Fs.mkdir_all f p).2.
Proof. apply kept_mkdir_all_rev. Qed.

Lemma kept_create f p : kept f (Fs.create f p).2.
Proof.
  unfold Fs.create. destruct (Fs.node_at f p) as [[c| |]|] eqn:Hp; simpl;
    try apply kept_refl.
  - by eapply kept_insert_file, node_at_File.
  - destruct (Fs.stat f (Fs.parent p)) as [e|[]]; simpl;
      try apply kept_refl.
    by apply kept_insert_new, node_at_None.
Qed.

Lemma kept_copy f dst src : kept f (Fs.copy f dst src).2.
Proof.
  unfold Fs.copy.
  destruct (Fs.node_at f src) as [[c| |]|]; simpl; try apply kept_refl.
  destruct (Fs.node_at f dst) as [[d| |]|] eqn:Hd; simpl;
    try apply kept_refl.
  by eapply kept_insert_file, node_at_File.
Qed.

Lemma later_refl {E} (w : World E) : later w w.
Proof. repeat split; try done. apply kept_refl. Qed.

Lemma later_trans {E} (w1 w2 w3 : World E) :
  later w1 w2 → later w2 w3 → later w1 w3.
Proof.
  intros (? & ? & ? & ? & ?) (? & ? & ? & ? & ?).
  repeat split; try congruence.
  - by etrans.
  - by eapply kept_trans.
Qed.

Lemma later_set_fs {E} (w : World E) f :
  kept (fs w) f → later w (set_fs w f).
Proof. intros Hf. by repeat split. Qed.

Lemma later_print {E} (w : World E) line : later w (print w line).
Proof.
  repeat split; try done; simpl.
  - by apply prefix_app_r.
  - apply kept_refl.
Qed.

End Kept.

Section Keeps.
Context `{Env}.
Implicit Types (st : State) (f : FS).

Lemma keeps_ret {A} (a : A) : keeps (mret a).
Proof. intros st. apply later_refl. Qed.

Lemma keeps_panic {A} : keeps (@panic _ A).
Proof. intros st. apply later_refl. Qed.

Lemma keeps_bind {A B} (m : M A) (k : A → M B) :
  keeps m → (∀ a, keeps (k a)) → keeps (m ≫= k).
Proof.
  intros Hm Hk st. unfold mbind, M_bind. specialize (Hm st).
  destruct (m st) as [[a|] st1]; simpl in *; [|done].
  eapply later_trans; [done | apply Hk].
Qed.

Lemma keeps_on_world {A} (g : World Ext → A * World Ext) :
  (∀ w, later w (g w).2) → keeps (on_world g).
Proof.
  intros Hg st. unfold on_world. specialize (Hg (world st)).
  by destruct (g (world st)).
Qed.

Lemma keeps_Println line : keeps (fmt_Println line).
Proof. apply keeps_on_world. intros w. apply later_print. Qed.

Lemma keeps_Stat path : keeps (os_Stat path).
Proof. apply keeps_on_world. intros w. apply later_refl. Qed.

Lemma keeps_Open path : keeps (os_Open path).
Proof. apply keeps_on_world. intros w. apply later_refl. Qed.

Lemma keeps_MkdirAll path : keeps (os_MkdirAll path).
Proof.
  apply keeps_on_world. intros w.
  pose proof (kept_mkdir_all (fs w) (at_ w path)).
  destruct (Fs.mkdir_all _ _). by apply later_set_fs.
Qed.

Lemma keeps_Create path : keeps (os_Create path).
Proof.
  apply keeps_on_world. intros w.
  pose proof (kept_create (fs w) (at_ w path)).
  destruct (Fs.create _ _). by apply later_set_fs.
Qed.

Lemma keeps_Copy dst src : keeps (io_Copy dst src).
Proof.
  apply keeps_on_world. intros w.
  pose proof (kept_copy (fs w) dst src).
  destruct (Fs.copy _ _ _). by apply later_set_fs.
Qed.

Lemma keeps_walk_entries {A} (fn : WalkFunc A) root depth entries a :
  (∀ p i e a, keeps (fn p i e a)) →
  keeps (walk_entries fn root depth entries a).
Proof.
  intros Hfn. revert a.
  induction entries as [|[p info] rest IH]; intros a; simpl.
  - apply keeps_ret.
  - apply keeps_bind; [apply Hfn|].
    intros [[e|] a']; [apply keeps_ret | apply IH].
Qed.

Lemma keeps_Walk {A} root (fn : WalkFunc A) a :
  (∀ p i e a, keeps (fn p i e a)) → keeps (filepath_Walk root fn a).
Proof.
  intros Hfn st. unfold filepath_Walk.
  destruct (Fs.stat _ _) as [e|info]; [apply Hfn|].
  apply (keeps_bind (fn root (Some info) None a)); [apply Hfn|].
  intros [[e|] a']; [apply keeps_ret|].
  destruct (IsDir info); [by apply keeps_walk_entries | apply keeps_ret].
Qed.

Lemma keeps_copy_file p i e a : keeps (copy_file p i e a).
Proof.
  unfold copy_file. destruct i as [info|]; [|apply keeps_panic].
  destruct (IsRegular info); [|apply keeps_ret].
  apply keeps_bind; [apply keeps_MkdirAll|]. intros [?|]; [apply keeps_ret|].
  apply keeps_bind; [apply keeps_Open|]. intros [?|?]; [apply keeps_ret|].
  apply keeps_bind; [apply keeps_Create|]. intros [?|?]; [apply keeps_ret|].
  apply keeps_bind; [apply keeps_Copy|]. intros [?|]; [apply keeps_ret|].
  apply keeps_bind; [apply keeps_Println|]. intros _. apply keeps_ret.
Qed.

Lemma keeps_CopyStatic : keeps CopyStatic.
Proof.
  unfold CopyStatic. apply keeps_bind.
  - apply keeps_Walk, keeps_copy_file.
  - intros [e []]. apply keeps_ret.
Qed.

Lemma keeps_copy_static_files : keeps copy_static_files.
Proof.
  unfold copy_static_files. apply keeps_bind; [apply keeps_Stat|].
  intros r. destruct (match r with inl e => IsNotExist e | inr _ => false end).
  - apply keeps_bind; [apply keeps_Println | intros; apply keeps_ret].
  - apply keeps_bind; [apply keeps_CopyStatic|]. intros [?|]; apply keeps_ret.
Qed.

(** X10: whatever the file system and however it ends (done, failed or
    panicked), [CopyStatic] removes nothing: what was at a location is
    still there afterwards, a directory or special file as it was, a
    regular file possibly with other bytes.  It makes no query, renders no
    page, stays in the working directory and only adds lines to the
    output. *)
Theorem CopyStatic_removes_nothing st :
  trace (CopyStatic st).2 = trace st
  ∧ cwd (world (CopyStatic st).2) = cwd (world st)
  ∧ stdout (world st) `prefix_of` stdout (world (CopyStatic st).2)
  ∧ ∀ q n,
      fs (world st) !! q = Some n →
      fs (world (CopyStatic st).2) !! q = Some n
      ∨ (IsRegular n = true
         ∧ ∃ c, fs (world (CopyStatic st).2) !! q = Some (File c)).
Proof.
  split; [apply quiet_CopyStatic|].
  destruct (keeps_CopyStatic st) as (Hcwd & _ & _ & Hout & Hkept). done.
Qed.

End Keeps.

(** ** What the site directory holds after the copy (lines 52-82) *)

Section SiteContents.
Context `{Env}.
Implicit Types (st : State) (f : FS) (rel : list string).

Lemma mkdir_all_rev_keys f rp q :
  (Fs.mkdir_all_rev f rp).2 !! q = f !! q
  ∨ (f !! q = None ∧ (Fs.mkdir_all_rev f rp).2 !! q = Some Dir
     ∧ ∃ i, q = take i (rev rp)).
Proof.
  revert q. induction rp as [|x rp IH]; intros q; cbn [Fs.mkdir_all_rev].
  - destruct (Fs.stat f (rev [])); [|by left]. by left.
  - destruct (Fs.stat f (rev (x :: rp))) as [e0|n0]; [|by left].
    destruct (Fs.mkdir_all_rev f rp) as [[e|] f1] eqn:Hrec; simpl in IH.
    + simpl. destruct (IH q) as [?|(? & ? & i & ->)]; [by left|].
      right. split; [done|]. split; [done|].
      exists (i `min` length (rev rp)). simpl.
      rewrite take_app_le by lia. by rewrite take_min.
    + assert ((let '(e1, f2) := Fs.mkdir f1 (rev (x :: rp)) in
               match e1 with
               | Some e =>
                   match Fs.stat f2 (rev (x :: rp)) with
                   | inr Dir => (None, f2)
                   | _ => (Some e, f2)
                   end
               | None => (None, f2)
               end).2 = (Fs.mkdir f1 (rev (x :: rp))).2) as Hsnd.
      { destruct (Fs.mkdir f1 _) as [[e|] f2]; [|done]. simpl.
        by destruct (Fs.stat f2 _) as [?|[]]. }
      match goal with
      | |- ?t.2 !! q = _ ∨ _ =>
          assert (t.2 = (Fs.mkdir f1 (rev (x :: rp))).2) as -> by apply Hsnd
      end.
      clear Hsnd.
      destruct (mkdir_cases f1 (rev (x :: rp)))
        as [[e ->]|(Hnone & _ & ->)]; simpl.
      * destruct (IH q) as [?|(? & ? & i & ->)]; [by left|].
        right. split; [done|]. split; [done|].
        exists (i `min` length (rev rp)).
        rewrite take_app_le by lia. by rewrite take_min.
      * apply node_at_None in Hnone. simpl in Hnone.
        destruct (decide (rev rp ++ [x] = q)) as [<-|Hne].
        -- right. rewrite lookup_insert_eq.
           split; [|split; [done|]].
           ++ destruct (IH (rev rp ++ [x])) as [<-|(? & _)]; done.
           ++ exists (length (rev rp ++ [x])). by rewrite firstn_all.
        -- rewrite lookup_insert_ne by done.
           destruct (IH q) as [?|(? & ? & i & ->)]; [by left|].
           right. split; [done|]. split; [done|].
           exists (i `min` length (rev rp)).
           rewrite take_app_le by lia. by rewrite take_min.
Qed.

Lemma mkdir_all_keys f p q :
  (Fs.mkdir_all f p).2 !! q = f !! q
  ∨ (f !! q = None ∧ (Fs.mkdir_all f p).2 !! q = Some Dir
     ∧ ∃ i, q = take i p).
Proof.
  unfold Fs.mkdir_all.
  destruct (mkdir_all_rev_keys f (rev p) q) as [?|(? & ? & i & Hi)];
    [by left|].
  right. rewrite rev_involutive in Hi. eauto.
Qed.

(** One regular file, call by call. *)
Lemma copy_file_regular_run st f0 rel c :
  let S := workdir (world st) ++ ["static"] in
  let T := workdir (world st) ++ ["site"] in
  wf f0 → copying S T f0 (fs (world st)) → Fs.node_at f0 T = Some Dir →
  rel ≠ [] → f0 !! (S ++ rel) = Some (File c) →
  ∃ f1,
    Fs.mkdir_all (fs (world st)) (T ++ removelast rel) = (None, f1)
    ∧ copy_file (walk_name "static" rel) (Some (File c)) None () st
      = (Val (None, ()),
         {| world := print (set_fs (world st) (<[T ++ rel := File c]> f1))
                       ("Copied static file to: "
                          +:+ Path.join ("site" :: rel));
            trace := trace st |})
    ∧ copying S T f0 (<[T ++ rel := File c]> f1).
Proof.
  intros S T Hwf0 Hcopying HT Hrel Hfile.
  destruct (wf_lookup _ _ _ Hwf0 Hfile) as (Hvalid & _ & _).
  apply Forall_app in Hvalid as [_ Hvalid].
  destruct (copy_one f0 (fs (world st)) (workdir (world st)) rel c)
    as (f1 & Hmk & Hopen & Hcreate & Hcopy & Hcopying' & Hmono); [done..|].
  fold S in Hopen, Hcopy, Hcopying'.
  fold T in Hmk, Hcreate, Hcopy, Hcopying', Hmono.
  exists f1. split; [done|]. split; [|done].
  assert (walk_name "static" rel = Path.join ("static" :: rel)) as ->.
  { change "static" with (Path.join ["static"]) at 1.
    rewrite walk_name_join; [done | done | | done].
    constructor; [apply valid_static | done]. }
  unfold copy_file. cbv beta iota delta [IsRegular].
  rewrite Replace_static by done.
  destruct rel as [|x rel' _] using rev_ind; [done|].
  apply Forall_app in Hvalid as [Hvalid' Hx].
  rewrite Forall_singleton in Hx.
  rewrite removelast_last in Hmk.
  assert (Path.Dir (Path.join ("site" :: rel' ++ [x]))
          = Path.join ("site" :: rel')) as ->.
  { apply (Dir_join ("site" :: rel') x); [done| |done].
    constructor; [apply valid_site | done]. }
  unfold mbind, M_bind.
  rewrite (os_MkdirAll_run _ _ None f1) by (by rewrite at_site).
  rewrite os_Open_run, !world_mk, fs_set_fs, at_set_fs.
  rewrite at_static by (apply Forall_app; split; [done | by constructor]).
  fold S. rewrite Hopen.
  rewrite (os_Create_run _ _ (inr (T ++ rel' ++ [x]))
             (<[T ++ rel' ++ [x] := File []]> f1)).
  2:{ rewrite !world_mk, fs_set_fs, at_set_fs.
      rewrite at_site by (apply Forall_app; split; [done | by constructor]).
      done. }
  rewrite (io_Copy_run _ _ _ None (<[T ++ rel' ++ [x] := File c]> f1))
    by done.
  rewrite fmt_Println_run. done.
Qed.

(** The directories [os.MkdirAll] makes on the way to a file lead to that
    file. *)
Lemma mirrors_copy S T f0 f rel c :
  rel ≠ [] → f0 !! (S ++ rel) = Some (File c) →
  mirrors S T f0 f →
  mirrors S T f0
    (<[T ++ rel := File c]> (Fs.mkdir_all f (T ++ removelast rel)).2).
Proof.
  intros Hrel Hfile Hm rel2 n Hrel2 Hn.
  destruct (decide (rel2 = rel)) as [->|Hne].
  { rewrite lookup_insert_eq in Hn. left. exists c. by simplify_eq. }
  rewrite lookup_insert_ne in Hn by (by intros ?%app_inv_head).
  destruct (mkdir_all_keys f (T ++ removelast rel) (T ++ rel2))
    as [Heq|(_ & Hdir & i & Hi)].
  { rewrite Heq in Hn. by apply Hm. }
  right. split; [congruence|].
  destruct rel as [|x rel' _] using rev_ind; [done|].
  rewrite removelast_last in Hi.
  assert (rel2 = take (i - length T) rel') as ->.
  { destruct (decide (i ≤ length T)) as [Hle|Hgt].
    - rewrite take_app_le in Hi by done. apply (f_equal length) in Hi.
      rewrite length_app, length_take in Hi. destruct rel2; [done|].
      simpl in Hi. lia.
    - rewrite take_app_ge in Hi by lia. by apply app_inv_head in Hi. }
  exists (drop (i - length T) rel' ++ [x]), c.
  split; [by destruct (drop _ _)|].
  by rewrite (app_assoc (take _ _)), take_drop.
Qed.

Lemma walk_entries_copy_run entries st f0 base :
  let S := base ++ ["static"] in
  let T := base ++ ["site"] in
  workdir (world st) = base →
  wf f0 → Fs.node_at f0 T = Some Dir → copying S T f0 (fs (world st)) →
  mirrors S T f0 (fs (world st)) →
  (∀ k n, (k, n) ∈ entries → f0 !! k = Some n ∧ Fs.below S k = true) →
  ∃ st',
    walk_entries copy_file "static" (length S) entries () st
      = (Val (None, ()), st')
    ∧ cwd (world st') = cwd (world st)
    ∧ copying S T f0 (fs (world st'))
    ∧ mirrors S T f0 (fs (world st'))
    ∧ stdout (world st')
      = stdout (world st)
          ++ ((λ kv, copied_line (length S) kv.1)
                <$> filter (λ kv : list string * Node, IsRegular kv.2 = true)
                      entries).
Proof.
  intros S T. revert st.
  induction entries as [|[k n] entries IH];
    intros st Hbase Hwf0 HT Hcopying Hmirrors Hin.
  - exists st. simpl. by rewrite app_nil_r.
  - destruct (Hin k n) as [Hk Hbelow]; [left|].
    apply below_spec in Hbelow as (rel & Hrel & ->).
    assert (drop (length S) (S ++ rel) = rel) as Hdrop
      by by rewrite drop_app_length.
    rewrite walk_entries_cons, Hdrop.
    assert (∀ k' n', (k', n') ∈ entries →
              f0 !! k' = Some n' ∧ Fs.below S k' = true) as Hin'.
    { intros k' n' Hk'. apply Hin. by right. }
    destruct (IsRegular n) eqn:Hreg.
    + destruct n as [c| |]; try done.
      destruct (copy_file_regular_run st f0 rel c)
        as (f1 & Hmk & Hrun1 & Hcopying1); rewrite ?Hbase; try done.
      rewrite Hbase in Hmk, Hrun1, Hcopying1.
      fold S T in Hmk, Hrun1, Hcopying1. rewrite Hrun1.
      set (st1 := {| world := _; trace := _ |}).
      destruct (IH st1) as (st' & -> & Hcwd & Hcopying' & Hmirrors' & Hout);
        try done.
      { subst st1. simpl.
        replace f1 with (Fs.mkdir_all (fs (world st)) (T ++ removelast rel)).2
          by by rewrite Hmk.
        by apply mirrors_copy. }
      exists st'. split; [done|]. split; [done|]. split; [done|].
      split; [done|]. rewrite Hout. subst st1.
      rewrite filter_cons_True by done.
      rewrite fmap_cons. cbn [fst]. unfold copied_line at 2.
      rewrite Hdrop. cbn [world stdout print set_fs].
      by rewrite <- app_assoc.
    + destruct (copy_file_other st n Hreg) as [_ ->].
      rewrite filter_cons_False by (simpl; congruence).
      by apply IH.
Qed.

(** [CopyStatic] into a fresh site directory, with what it leaves. *)
Lemma CopyStatic_run st :
  let S := at_ (world st) "static" in
  let T := at_ (world st) "site" in
  wf (fs (world st)) →
  Fs.node_at (fs (world st)) S = Some Dir →
  Fs.node_at (fs (world st)) T = Some Dir →
  (∀ q, Fs.below T q = true → fs (world st) !! q = None) →
  ∃ st',
    CopyStatic st = (Val None, st')
    ∧ copying S T (fs (world st)) (fs (world st'))
    ∧ mirrors S T (fs (world st)) (fs (world st'))
    ∧ stdout (world st')
      = stdout (world st)
          ++ ((λ kv, copied_line (length S) kv.1)
                <$> filter (λ kv : list string * Node, IsRegular kv.2 = true)
                      (Fs.tree (fs (world st)) S)).
Proof.
  intros S T. subst S T. rewrite at_static_root, at_site_root.
  set (S := workdir (world st) ++ ["static"]).
  set (T := workdir (world st) ++ ["site"]).
  intros Hwf HS HT Hfresh.
  assert (copying S T (fs (world st)) (fs (world st))) as Hcopying.
  { split; [done|]. split; [done|]. intros rel n Hrel Hn.
    rewrite Hfresh in Hn; [done|]. apply below_spec. by exists rel. }
  assert (mirrors S T (fs (world st)) (fs (world st))) as Hmirrors.
  { intros rel n Hrel Hn.
    rewrite Hfresh in Hn; [done|]. apply below_spec. by exists rel. }
  destruct (walk_entries_copy_run (Fs.tree (fs (world st)) S) st
              (fs (world st)) (workdir (world st)))
    as (st' & Hrun & _ & Hcopying' & Hmirrors' & Hout); try done.
  { intros k n. apply tree_spec. }
  fold S in Hrun, Hcopying', Hmirrors', Hout.
  fold T in Hcopying', Hmirrors'.
  exists st'. split; [|done].
  unfold CopyStatic, mbind, M_bind, filepath_Walk.
  rewrite at_static_root. fold S.
  rewrite (stat_Some _ _ _ HS). unfold mbind, M_bind.
  destruct (copy_file_other st Dir eq_refl) as [-> _].
  change (IsDir Dir) with true. cbv iota. by rewrite Hrun.
Qed.

(** X12: after [CopyStatic] into a fresh site directory, the site
    directory holds the regular files of [static], each at its relative
    path with its bytes, the directories that lead to them, and nothing
    else: a directory of [static] without a regular file below it and
    anything that is not a regular file have no counterpart. *)
Theorem site_holds_static_files st :
  wf (fs (world st)) →
  Fs.node_at (fs (world st)) (at_ (world st) "static") = Some Dir →
  Fs.node_at (fs (world st)) (at_ (world st) "site") = Some Dir →
  map_Forall (λ q _, Fs.below (at_ (world st) "site") q = false)
    (fs (world st)) →
  ∃ st',
    CopyStatic st = (Val None, st')
    ∧ ∀ rel n,
        rel ≠ [] →
        fs (world st') !! (at_ (world st) "site" ++ rel) = Some n
        ↔ (∃ c, n = File c
                ∧ fs (world st) !! (at_ (world st) "static" ++ rel)
                  = Some (File c))
          ∨ (n = Dir
             ∧ ∃ rel' c,
                 rel' ≠ []
                 ∧ fs (world st) !! (at_ (world st) "static" ++ rel ++ rel')
                   = Some (File c)).
Proof.
  intros Hwf HS HT Hfresh.
  assert (∀ q, Fs.below (at_ (world st) "site") q = true →
               fs (world st) !! q = None) as Hfresh'.
  { intros q Hq. destruct (fs (world st) !! q) as [n|] eqn:Hn; [|done].
    apply Hfresh in Hn. simpl in Hn. congruence. }
  destruct (CopyStatic_run st) as (st' & Hrun & (Hwf' & _) & Hmirrors & _);
    try done.
  destruct (CopyStatic_copies st) as (st'' & Hrun' & Hfiles & _); try done.
  assert (st'' = st') as -> by congruence.
  exists st'. split; [done|]. intros rel n Hrel. split; [by apply Hmirrors|].
  intros [(c & -> & Hc)|(-> & rel' & c & Hrel' & Hc)]; [by apply Hfiles|].
  apply Hfiles in Hc.
  assert (at_ (world st) "site" ++ rel ≠ []) as Hne.
  { intros [_ ?]%app_eq_nil. done. }
  rewrite <- node_at_lookup by done.
  replace (at_ (world st) "site" ++ rel)
    with (take (length (at_ (world st) "site" ++ rel))
            (at_ (world st) "site" ++ rel ++ rel'))
    by (by rewrite app_assoc, take_app_length).
  apply wf_prefix_dir; [done | |].
  - rewrite node_at_lookup by (intros [_ [? _]%app_eq_nil]%app_eq_nil; done).
    by eexists.
  - rewrite !length_app. destruct rel'; [done|]. simpl. lia.
Qed.

(** X13: [CopyStatic] prints one line for each regular file below
    [static], in the order of the walk, that names the place of the copy,
    [site/...]; directories and other files print nothing. *)
Theorem CopyStatic_prints st :
  wf (fs (world st)) →
  Fs.node_at (fs (world st)) (at_ (world st) "static") = Some Dir →
  Fs.node_at (fs (world st)) (at_ (world st) "site") = Some Dir →
  map_Forall (λ q _, Fs.below (at_ (world st) "site") q = false)
    (fs (world st)) →
  ∃ st',
    CopyStatic st = (Val None, st')
    ∧ stdout (world st')
      = stdout (world st)
          ++ ((λ kv, copied_line (length (at_ (world st) "static")) kv.1)
                <$> filter (λ kv : list string * Node, IsRegular kv.2 = true)
                      (Fs.tree (fs (world st)) (at_ (world st) "static"))).
Proof.
  intros Hwf HS HT Hfresh.
  destruct (CopyStatic_run st) as (st' & Hrun & _ & _ & Hout); try done.
  { intros q Hq. destruct (fs (world st) !! q) as [n|] eqn:Hn; [|done].
    apply Hfresh in Hn. simpl in Hn. congruence. }
  by exists st'.
Qed.

End SiteContents.

(** ** A build that fails after line 114 *)

Section Rebuild.
Context `{Env}.
Implicit Types (st : State) (f : FS) (view : View Tmpl).

Lemma views_run_message (views : list (View Tmpl)) evs fl :
  views_run views evs (Some fl) →
  message fl = "Failed to connect to SPARQL endpoint."
  ∨ message fl = "SPARQL query failed."
  ∨ ∃ p, message fl = "Failed to render page at " +:+ p.
Proof.
  remember (Some fl) as r eqn:Hr.
  induction 1 as [|view rest evs f' Hview|view rest evs evs' r Hview Hrun IH].
  - done.
  - injection Hr as ->.
    inversion Hview as [e|e|results evs0 r Hpages]; subst; auto.
    destruct (pages_run_reported _ _ _ _ Hpages) as (_ & p & _ & _ & Hmsg).
    right. right. by exists p.
  - by apply IH.
Qed.

Lemma build_pages_cases config st :
  (∃ e, build_pages config st
        = (Val (ErrorExit "Failed to discover layouts." e), st))
  ∨ (∃ e w', build_pages config st
             = (Val (ErrorExit "Failed to discover views." e),
                {| world := w'; trace := trace st |}))
  ∨ (∃ views w', build_pages config st
                 = build_views config views
                     {| world := w'; trace := trace st |}).
Proof.
  unfold build_pages, mbind, M_bind, on_world.
  rewrite DiscoverIncludes_run.
  destruct (Fs.stat _ _) as [e|info]; [left; by exists e|].
  right.
  destruct (views_DiscoverViews _ _) as [[e|views] w'].
  - left. by exists e, w'.
  - right. by exists views, w'.
Qed.

Lemma build_pages_layouts config st fl :
  (build_pages config st).1 = Val (Some fl) →
  message fl = "Failed to discover layouts." →
  (build_pages config st).2 = st.
Proof.
  destruct (build_pages_cases config st)
    as [[e ->]|[(e & w' & ->)|(views & w' & ->)]]; [done| |].
  { simpl. by intros [= <-]. }
  destruct (build_views_run config views {| world := w'; trace := trace st |})
    as (evs & r & w'' & -> & Hrun).
  simpl. intros [= ->] Hmsg.
  destruct (views_run_message _ _ _ Hrun) as [Hm|[Hm|[p Hm]]];
    rewrite Hm in Hmsg; done.
Qed.

Lemma build_pages_not_static config st fl :
  (build_pages config st).1 = Val (Some fl) →
  message fl ≠ "Failed to copy static files.".
Proof.
  destruct (build_pages_cases config st)
    as [[e ->]|[(e & w' & ->)|(views & w' & ->)]].
  { simpl. by intros [= <-]. }
  { simpl. by intros [= <-]. }
  destruct (build_views_run config views {| world := w'; trace := trace st |})
    as (evs & r & w'' & -> & Hrun).
  simpl. intros [= ->] Hmsg.
  destruct (views_run_message _ _ _ Hrun) as [Hm|[Hm|[p Hm]]];
    rewrite Hm in Hmsg; done.
Qed.

(** After the site directory is made, up to the discovery of the layouts,
    the directory stays. *)
Lemma build_static_keeps_site config st fl :
  (build_static config st).1 = Val (Some fl) →
  message fl = "Failed to copy static files."
  ∨ message fl = "Failed to discover layouts." →
  later (world st) (world (build_static config st).2).
Proof.
  unfold build_static, mbind, M_bind.
  pose proof (keeps_copy_static_files st) as Hkeeps.
  pose proof (copy_static_files_message st) as Hcopy.
  destruct (copy_static_files st) as [[[fl'|]|] st1]; simpl in *; [done| |done].
  intros Hfl [Hmsg|Hmsg].
  - by apply build_pages_not_static in Hfl.
  - by rewrite (build_pages_layouts _ _ _ Hfl Hmsg).
Qed.

(** X11: a build that fails while it copies the static files or looks for
    the layouts had made the site directory and leaves it where it is; so a
    second run, started in the state the first one left, fails as well and
    changes nothing. *)
Theorem failed_build_leaves_site st fl :
  (buildCmd st).1 = Val (Some fl) →
  message fl = "Failed to copy static files."
  ∨ message fl = "Failed to discover layouts." →
  Fs.node_at (fs (world st)) (at_ (world st) "site") = None
  ∧ Fs.node_at (fs (world (buildCmd st).2))
      (at_ (world (buildCmd st).2) "site") = Some Dir
  ∧ ∃ fl', buildCmd (buildCmd st).2 = (Val (Some fl'), (buildCmd st).2).
Proof.
  intros Hfl Hmsg.
  assert (Fs.node_at (fs (world st)) (at_ (world st) "site") = None
          ∧ Fs.node_at (fs (world (buildCmd st).2))
              (at_ (world (buildCmd st).2) "site") = Some Dir) as [Hnone Hdir].
  { revert Hfl. rewrite buildCmd_unfold.
    destruct (getwd_err (world st)).
    { intros [= <-]. by destruct Hmsg. }
    simpl. destruct (Fs.stat _ _).
    { intros [= <-]. by destruct Hmsg. }
    destruct (Fs.read_file _ _) as [e|data].
    { intros [= <-]. by destruct Hmsg. }
    destruct (Parse _ data) as [[e|] config].
    { intros [= <-]. by destruct Hmsg. }
    destruct (IsValid config).
    { intros [= <-]. by destruct Hmsg. }
    unfold build_site, mbind, M_bind. rewrite os_Mkdir_run.
    destruct (mkdir_cases (fs (world st)) (at_ (world st) "site"))
      as [[e ->]|(Hnone & Hparent & ->)]; simpl.
    { intros [= <-]. by destruct Hmsg. }
    intros Hfl. split; [done|].
    destruct (build_static_keeps_site _ _ _ Hfl Hmsg)
      as (Hcwd & _ & _ & _ & Hkept).
    simpl in Hcwd, Hkept.
    assert (at_ (world st) "site" ≠ []) as Hne.
    { rewrite at_site_root. by destruct (workdir (world st)). }
    unfold at_ in *. rewrite Hcwd.
    rewrite node_at_lookup by done.
    destruct (Hkept (Path.resolve (cwd (world st)) "site") Dir)
      as [Hd|[? _]]; [apply lookup_insert_eq | done | done]. }
  split; [done|]. split; [done|].
  destruct (buildCmd_to_site (buildCmd st).2) as [[fl' Hf]|[config Hc]].
  - by exists fl'.
  - rewrite Hc, build_site_exists by (by rewrite Hdir). by eexists.
Qed.

End Rebuild.

(** ** From the configuration to the pages (lines 90-127) *)

Section Stages.
Context `{Env}.
Implicit Types (st : State) (f : FS) (rel : list string).

(** X15: in a well-formed project with a valid configuration, a directory
    [static] and nothing at [site], the command gets to line 127 without a
    query made, with a new directory [site] that holds every regular file
    of [static] at its relative path, and with everything else as it
    was. *)
Theorem build_reaches_pages st data config :
  getwd_err (world st) = None →
  wf (fs (world st)) →
  Fs.node_at (fs (world st))
    (at_ (world st) (cwd (world st) +:+ "/snowman.yaml")) = Some (File data) →
  Parse {| Endpoint := "" |} data = (None, config) →
  IsValid config = None →
  Fs.node_at (fs (world st)) (at_ (world st) "site") = None →
  Fs.node_at (fs (world st)) (at_ (world st) "static") = Some Dir →
  ∃ st',
    buildCmd st = build_pages config st'
    ∧ trace st' = trace st
    ∧ cwd (world st') = cwd (world st)
    ∧ fs (world st') !! at_ (world st) "site" = Some Dir
    ∧ (∀ rel c,
         fs (world st) !! (at_ (world st) "static" ++ rel) = Some (File c) →
         fs (world st') !! (at_ (world st) "site" ++ rel) = Some (File c))
    ∧ ∀ q, q ≠ at_ (world st) "site" →
           Fs.below (at_ (world st) "site") q = false →
           fs (world st') !! q = fs (world st) !! q.
Proof.
  intros Hwd Hwf Hyaml Hparse Hvalid Hnone Hstatic.
  rewrite buildCmd_unfold, Hwd. simpl.
  unfold Fs.read_file. rewrite (stat_Some _ _ _ Hyaml), Hparse, Hvalid.
  rewrite at_site_root, at_static_root in *.
  set (W := workdir (world st)) in *.
  set (S := W ++ ["static"]) in *. set (T := W ++ ["site"]) in *.
  assert (S ≠ []) as HSne by (unfold S; by destruct W).
  assert (T ≠ []) as HTne by (unfold T; by destruct W).
  assert (fs (world st) !! S = Some Dir) as HS
    by by rewrite <- node_at_lookup.
  destruct (wf_lookup _ _ _ Hwf HS) as (HvS & _ & HW).
  unfold S in HW. rewrite parent_snoc in HW.
  assert (Forall valid_name T) as HvT.
  { apply Forall_app in HvS as [HvW _]. apply Forall_app.
    split; [done|]. constructor; [apply valid_site | done]. }
  set (f1 := <[T := Dir]> (fs (world st))).
  set (st1 := {| world := set_fs (world st) f1; trace := trace st |}).
  assert (build_site config st = build_static config st1) as ->.
  { unfold build_site, mbind, M_bind. rewrite os_Mkdir_run, at_site_root.
    fold W T. rewrite mkdir_new; [done | done |].
    unfold T. by rewrite parent_snoc. }
  assert (wf f1) as Hwf1.
  { apply wf_insert; [done | done | done | | by left].
    unfold T. by rewrite parent_snoc. }
  assert (S ≠ T) as HST by (unfold S, T; by intros [= ]%app_inv_head).
  assert (at_ (world st1) "static" = S) as HatS
    by exact (at_static_root (world st)).
  assert (at_ (world st1) "site" = T) as HatT
    by exact (at_site_root (world st)).
  destruct (CopyStatic_copies st1) as (st' & Hrun & Hfiles & Hout).
  { done. }
  { rewrite HatS. simpl. unfold f1. by rewrite node_at_insert_ne. }
  { rewrite HatT. by apply node_at_insert_eq. }
  { rewrite HatT. simpl. intros q Hq. unfold f1.
    rewrite lookup_insert_ne.
    - by apply (wf_none_below _ T).
    - intros Heq. rewrite <- Heq in Hq.
      pose proof (site_not_below_site T). congruence. }
  rewrite HatS, HatT in Hfiles. rewrite HatT in Hout. simpl in Hfiles, Hout.
  exists st'. split.
  { unfold build_static, copy_static_files, mbind, M_bind.
    rewrite os_Stat_run, HatS.
    rewrite (stat_Some _ _ Dir)
      by (simpl; unfold f1; by rewrite node_at_insert_ne).
    by rewrite Hrun. }
  split.
  { pose proof (quiet_CopyStatic st1) as Hq. by rewrite Hrun in Hq. }
  split.
  { destruct (keeps_CopyStatic st1) as [Hcwd _]. by rewrite Hrun in Hcwd. }
  split.
  { rewrite Hout by apply site_not_below_site. apply lookup_insert_eq. }
  split.
  - intros rel c Hc. apply Hfiles. unfold f1. rewrite lookup_insert_ne; [done|].
    unfold S, T. rewrite <- app_assoc. by intros [= ]%app_inv_head.
  - intros q Hq Hb. rewrite Hout by done. unfold f1.
    by rewrite lookup_insert_ne.
Qed.

End Stages.

(** ** Where a page can end up (line 150) *)

Section Traversal.
Context `{Env}.
Local Arguments String.append !_ _ / : simpl nomatch.
Local Arguments Str.HasPrefix : simpl never.

(** X16: the value of a row goes into the path of its page as it is, so a
    value that begins with [../] names a file beside the site directory,
    not in it: the path still begins with [site/], the file it leads to is
    in the working directory. *)
Theorem page_path_can_leave_site (w : World Ext) (view : View Tmpl)
    hook row name post :
  Output (ViewConfig view) = ("{{" +:+ hook +:+ "}}") +:+ post →
  Value (row_index row hook) = "../" +:+ name →
  valid_name (name +:+ post) →
  outputPath_of view hook row = "site/../" +:+ name +:+ post
  ∧ at_ w (outputPath_of view hook row) = workdir w ++ [name +:+ post]
  ∧ Fs.below (at_ w "site") (at_ w (outputPath_of view hook row)) = false.
Proof.
  intros Hout Hvalue Hname.
  assert (outputPath_of view hook row = "site/../" +:+ name +:+ post) as ->.
  { unfold outputPath_of. rewrite Hout, Hvalue, Replace_one.
    rewrite (Index_prefix _ _ (HasPrefix_app _ post)).
    change (0 + ?n) with n. rewrite str_drop_app. by simpl. }
  split; [done|].
  assert (at_ w ("site/../" +:+ name +:+ post) = workdir w ++ [name +:+ post])
    as ->.
  { unfold at_, Path.resolve, workdir.
    change ("site/../" +:+ name +:+ post)
      with ("site" +:+ "/" +:+ ".." +:+ "/" +:+ (name +:+ post)).
    assert (Str.HasPrefix ("site" +:+ "/" +:+ ".." +:+ "/" +:+ (name +:+ post))
              "/" = false) as ->.
    { destruct (Str.HasPrefix _ _) eqn:Hp; [|done].
      apply HasPrefix_spec in Hp as [t Ht]. by simpl in Ht. }
    rewrite !split_app_slash.
    rewrite (split_no_slash (name +:+ post)) by apply Hname.
    rewrite clean_from_app.
    set (W := Path.clean_from true [] (Path.split (cwd w))).
    change (Path.split "site" ++ Path.split ".." ++ [name +:+ post])
      with (["site"] ++ [".."] ++ [name +:+ post]).
    rewrite !clean_from_app. unfold Path.clean_from at 3. simpl fold_left.
    rewrite (clean_step_valid true W "site") by apply valid_site.
    unfold Path.clean_from at 2. simpl fold_left.
    assert (Path.clean_step true (W ++ ["site"]) ".." = W) as ->.
    { unfold Path.clean_step.
      rewrite decide_False by (by intros [|]).
      rewrite decide_True by done.
      rewrite last_snoc, decide_False by done.
      apply removelast_last. }
    unfold Path.clean_from. simpl fold_left.
    by apply clean_step_valid. }
  split; [done|].
  rewrite at_site_root. unfold Fs.below. apply bool_decide_eq_false.
  intros [_ Hlen]. rewrite !length_app in Hlen. simpl in Hlen. lia.
Qed.

End Traversal.

(** C5, counterexample: [/not a url] has no scheme and holds spaces, and
    [IsValid] accepts it; [http://%41.example/] is an absolute URL whose
    host spells a letter as an escape, and [IsValid] rejects it. *)
Lemma malformed_accepted_counterexample :
  Url.getScheme "/not a url" = inr ("", "/not a url")
  ∧ lacks " " "/not a url" = false
  ∧ IsValid {| Endpoint := "/not a url" |} = None
  ∧ IsValid {| Endpoint := "http://%41.example/" |} = Some Url.EscapeError.
Proof.
  split; [by vm_compute|]. split; [by vm_compute|]. split; by vm_compute.
Qed.

Lemma IsValid_request_uri_witness :
  scheme_ok "https" = true ∧ host_ok "example.org" = true
  ∧ port_ok ":8890" = true ∧ path_ok "/sparql" = true
  ∧ query_ok "?default-graph-uri=" = true
  ∧ IsValid {| Endpoint :=
                 absolute_url "https" "example.org" ":8890" "/sparql"
                   "?default-graph-uri=" |} = None
  ∧ "not a url" ≠ "*" ∧ lacks ":" "not a url" = true
  ∧ Str.HasPrefix "not a url" "/" = false
  ∧ (∃ e, IsValid {| Endpoint := "not a url" |} = Some e)
  ∧ path_ok "/not a url" = true
  ∧ IsValid {| Endpoint := "/not a url" |} = None.
Proof.
  destruct IsValid_request_uri as (Haccept & _ & _ & Hreject & _ & Hrooted).
  split; [by vm_compute|]. split; [by vm_compute|]. split; [by vm_compute|].
  split; [by vm_compute|]. split; [by vm_compute|].
  split; [apply Haccept; by vm_compute|].
  split; [discriminate|]. split; [by vm_compute|]. split; [by vm_compute|].
  split; [apply Hreject; [discriminate | by vm_compute | by vm_compute]|].
  split; [by vm_compute|].
  apply Hrooted. by vm_compute.
Defined.

(** ** The pages of the example site *)

Section ExamplePages.
Import Example.



(** C4, counterexample: the one page of the view with pattern [index.html]
    and rows [{a:1},{a:2}] is rendered at [site/index.html], which is not the
    pattern. *)
Lemma single_page_path_counterexample :
  MultipageVariableHook index_view = None
  ∧ (render_view (H := site) index_view two_rows (start project)).1 = Val None
  ∧ rendered (trace (render_view (H := site) index_view two_rows (start project)).2)
    = [ ("site/index.html", AllRows two_rows) ]
  ∧ Output (ViewConfig index_view) = "index.html"
  ∧ "site/index.html" ≠ "index.html".
Proof.
  split; [reflexivity|]. split; [by vm_compute|]. split; [by vm_compute|].
  split; [reflexivity | discriminate].
Qed.

Lemma single_page_job_witness :
  MultipageVariableHook index_view = None
  ∧ ∃ res w',
      render_view (H := site) index_view two_rows (start project)
        = (Val (match res with
                | Some e =>
                    ErrorExit ("Failed to render page at site/"
                                 +:+ Output (ViewConfig index_view)) e
                | None => None
                end),
           {| world := w';
              trace := trace (start project) ++
                [EvRender (H := site) index_view
                   ("site/" +:+ Output (ViewConfig index_view))
                   (AllRows two_rows) res] |}).
Proof.
  split; [reflexivity|].
  apply (single_page_job (H := site) index_view two_rows (start project)).
  reflexivity.
Defined.

(** C1, counterexample: two distinct rows with the same slug; the step
    succeeds, both pages are rendered at [site/posts/x.html], and the file
    holds the second page only. *)
Lemma collision_counterexample :
  MultipageVariableHook posts_view = Some "slug"
  ∧ post_x !! "title" ≠ post_x' !! "title"
  ∧ (render_view (H := site) posts_view same_slug (start project)).1 = Val None
  ∧ rendered (trace (render_view (H := site) posts_view same_slug (start project)).2)
    = [ ("site/posts/x.html", OneRow post_x);
        ("site/posts/x.html", OneRow post_x') ]
  ∧ fs (world (render_view (H := site) posts_view same_slug (start project)).2)
      !! ["srv"; "blog"; "site"; "posts"; "x.html"]
    = Some (File (b "post:Second")).
Proof.
  split; [reflexivity|]. split; [by vm_compute|]. split; [by vm_compute|].
  split; by vm_compute.
Qed.

Lemma same_path_rows_both_rendered_witness :
  MultipageVariableHook posts_view = Some "slug"
  ∧ 0 < 1 ∧ same_slug !! 0 = Some post_x ∧ same_slug !! 1 = Some post_x'
  ∧ outputPath_of (H := site) posts_view "slug" post_x
    = outputPath_of (H := site) posts_view "slug" post_x'
  ∧ ∃ evs r w',
      render_view (H := site) posts_view same_slug (start project)
        = (Val r, {| world := w'; trace := trace (start project) ++ evs |})
      ∧ match r with
        | None =>
            evs !! 0 = Some (EvRender (H := site) posts_view
                               (outputPath_of (H := site) posts_view "slug" post_x)
                               (OneRow post_x) None)
            ∧ evs !! 1 = Some (EvRender (H := site) posts_view
                                 (outputPath_of (H := site) posts_view "slug" post_x)
                                 (OneRow post_x') None)
        | Some f =>
            ∃ row e,
              row ∈ same_slug
              ∧ last evs
                = Some (EvRender (H := site) posts_view
                          (outputPath_of (H := site) posts_view "slug" row)
                          (OneRow row) (Some e))
              ∧ f = {| message := "Failed to render page at "
                                    +:+ outputPath_of (H := site) posts_view "slug" row;
                       cause := e |}
        end.
Proof.
  assert (outputPath_of (H := site) posts_view "slug" post_x
          = outputPath_of (H := site) posts_view "slug" post_x') as Hsame
    by (vm_compute; reflexivity).
  split; [reflexivity|]. split; [lia|]. split; [reflexivity|].
  split; [reflexivity|]. split; [exact Hsame|].
  apply (same_path_rows_both_rendered (H := site) posts_view "slug" same_slug
           (start project) 0 1 post_x post_x');
    [reflexivity | lia | reflexivity | reflexivity | exact Hsame].
Defined.

(** C2, counterexample: the second row has no [slug]; the step succeeds and
    renders the page of that row at [site/posts/.html]. *)
Lemma missing_column_counterexample :
  MultipageVariableHook posts_view = Some "slug"
  ∧ untitled !! "slug" = None
  ∧ (render_view (H := site) posts_view no_slug (start project)).1 = Val None
  ∧ rendered (trace (render_view (H := site) posts_view no_slug (start project)).2)
    = [ ("site/posts/x.html", OneRow post_x);
        ("site/posts/.html", OneRow untitled) ].
Proof.
  split; [reflexivity|]. split; [by vm_compute|]. split; by vm_compute.
Qed.

Lemma row_without_key_rendered_witness :
  MultipageVariableHook posts_view = Some "slug"
  ∧ no_slug !! 1 = Some untitled ∧ untitled !! "slug" = None
  ∧ outputPath_of (H := site) posts_view "slug" untitled
    = "site/" +:+ Str.Replace (Output (ViewConfig posts_view))
                    ("{{" +:+ "slug" +:+ "}}") "" 1
  ∧ ∃ evs r w',
      render_view (H := site) posts_view no_slug (start project)
        = (Val r, {| world := w'; trace := trace (start project) ++ evs |})
      ∧ match r with
        | None =>
            evs !! 1 = Some (EvRender (H := site) posts_view
                               (outputPath_of (H := site) posts_view "slug" untitled)
                               (OneRow untitled) None)
        | Some f =>
            ∃ row' e,
              row' ∈ no_slug
              ∧ last evs
                = Some (EvRender (H := site) posts_view
                          (outputPath_of (H := site) posts_view "slug" row')
                          (OneRow row') (Some e))
              ∧ f = {| message := "Failed to render page at "
                                    +:+ outputPath_of (H := site) posts_view "slug" row';
                       cause := e |}
        end.
Proof.
  assert (untitled !! "slug" = None) as Hnone by (vm_compute; reflexivity).
  split; [reflexivity|]. split; [reflexivity|]. split; [exact Hnone|].
  apply (row_without_key_rendered (H := site) posts_view "slug" no_slug
           (start project) 1 untitled); [reflexivity | reflexivity | exact Hnone].
Defined.

End ExamplePages.

(** ** The files of the example site *)

Section ExampleFiles.
Import Example.

Lemma missing_config_fails_witness :
  Fs.node_at (fs (world (start project_without_config)))
    (at_ (H := site) (world (start project_without_config))
       (cwd (world (start project_without_config)) +:+ "/snowman.yaml"))
  = None
  ∧ ∃ f,
      buildCmd (H := site) (start project_without_config)
        = (Val (Some f), start project_without_config)
      ∧ exit_status (Some f) ≠ 0%Z
      ∧ (getwd_err (world (start project_without_config)) = None →
         ConfigError f
         ∧ message f
           = "Unable to locate snowman.yaml in the current working directory.").
Proof.
  split; [by vm_compute|].
  apply (missing_config_fails (H := site) (start project_without_config)).
  by vm_compute.
Defined.

Lemma site_directory_fresh_witness :
  is_Some (Fs.node_at (fs (world (start project_with_site)))
             (at_ (H := site) (world (start project_with_site)) "site"))
  ∧ ∃ failure,
      buildCmd (H := site) (start project_with_site)
        = (Val (Some failure), start project_with_site)
      ∧ exit_status (Some failure) ≠ 0%Z.
Proof.
  assert (is_Some (Fs.node_at (fs (world (start project_with_site)))
             (at_ (H := site) (world (start project_with_site)) "site")))
    as Hsite by (exists Dir; by vm_compute).
  split; [exact Hsite|].
  exact (proj1 (site_directory_fresh (H := site) (start project_with_site))
           Hsite).
Defined.

Lemma static_files_copied_witness :
  Fs.stat (fs (world (start bare_project)))
    (at_ (H := site) (world (start bare_project)) "static") = inl ENOENT
  ∧ wf (fs (world (start project_with_site)))
  ∧ Fs.node_at (fs (world (start project_with_site)))
      (at_ (H := site) (world (start project_with_site)) "static") = Some Dir
  ∧ Fs.node_at (fs (world (start project_with_site)))
      (at_ (H := site) (world (start project_with_site)) "site") = Some Dir
  ∧ map_Forall
      (λ q _, Fs.below (at_ (H := site) (world (start project_with_site)) "site")
                q = false)
      (fs (world (start project_with_site)))
  ∧ copy_static_files (H := site) (start bare_project)
    = (Val None,
       @Build_State site
         (print (world (start bare_project))
            "Failed to locate static files. Skipping...")
         (trace (start bare_project)))
  ∧ ∃ st',
      copy_static_files (H := site) (start project_with_site) = (Val None, st')
      ∧ (∀ rel c,
           fs (world (start project_with_site))
             !! (at_ (H := site) (world (start project_with_site)) "static"
                   ++ rel) = Some (File c) →
           fs (world st')
             !! (at_ (H := site) (world (start project_with_site)) "site"
                   ++ rel) = Some (File c))
      ∧ (∀ q, Fs.below (at_ (H := site) (world (start project_with_site)) "site")
                q = false →
              fs (world st') !! q = fs (world (start project_with_site)) !! q).
Proof.
  assert (Fs.stat (fs (world (start bare_project)))
            (at_ (H := site) (world (start bare_project)) "static")
          = inl ENOENT) as Habsent by (by vm_compute).
  assert (wf (fs (world (start project_with_site)))) as Hwf
    by (apply (bool_decide_unpack _); by vm_compute).
  assert (Fs.node_at (fs (world (start project_with_site)))
            (at_ (H := site) (world (start project_with_site)) "static")
          = Some Dir) as Hstatic by (by vm_compute).
  assert (Fs.node_at (fs (world (start project_with_site)))
            (at_ (H := site) (world (start project_with_site)) "site")
          = Some Dir) as Hsite by (by vm_compute).
  assert (map_Forall
            (λ q _, Fs.below
                      (at_ (H := site) (world (start project_with_site)) "site")
                      q = false)
            (fs (world (start project_with_site)))) as Hfresh
    by (apply (bool_decide_unpack _); by vm_compute).
  split; [exact Habsent|]. split; [exact Hwf|]. split; [exact Hstatic|].
  split; [exact Hsite|]. split; [exact Hfresh|].
  split.
  - exact (proj1 (static_files_copied (H := site) (start bare_project)) Habsent).
  - exact (proj2 (static_files_copied (H := site) (start project_with_site))
             Hwf Hstatic Hsite Hfresh).
Defined.

End ExampleFiles.

(** ** The further properties on the example site *)

Section ExampleMore.
Import Example.

Lemma effects_need_valid_config_witness :
  (buildCmd (H := site) (start project)).2 ≠ start project
  ∧ getwd_err (world (start project)) = None
  ∧ Fs.node_at (fs (world (start project)))
      (at_ (H := site) (world (start project)) "site") = None
  ∧ ∃ data config,
      Fs.node_at (fs (world (start project)))
        (at_ (H := site) (world (start project))
           (cwd (world (start project)) +:+ "/snowman.yaml"))
        = Some (File data)
      ∧ Parse (H := site) {| Endpoint := "" |} data = (None, config)
      ∧ IsValid config = None.
Proof.
  assert ((buildCmd (H := site) (start project)).2 ≠ start project) as Hne.
  { intros Heq.
    apply (f_equal (λ s : @State site, length (stdout (world s)))) in Heq.
    vm_compute in Heq. discriminate. }
  split; [exact Hne|].
  exact (effects_need_valid_config (H := site) (start project) Hne).
Defined.


Lemma failure_names_stage_witness :
  (buildCmd (H := site) (start unbuilt)).1
    = Val (Some {| message := "Failed to discover layouts.";
                   cause := ENOENT |})
  ∧ ("Failed to discover layouts." ∈ stage_messages
     ∨ ∃ view p data,
         last (trace (buildCmd (H := site) (start unbuilt)).2)
           = Some (EvRender view p data (Some ENOENT))
         ∧ "Failed to discover layouts." = "Failed to render page at " +:+ p).
Proof.
  assert ((buildCmd (H := site) (start unbuilt)).1
          = Val (Some {| message := "Failed to discover layouts.";
                         cause := ENOENT |})) as Hfail by (by vm_compute).
  split; [exact Hfail|].
  exact (failure_names_stage (H := site) (start unbuilt) _ Hfail).
Defined.


Lemma IsValid_accepts_opaque_witness :
  scheme_ok "example.org" = true
  ∧ Str.HasPrefix "8080/sparql" "/" = false
  ∧ Url.stringContainsCTLByte "8080/sparql" = false
  ∧ IsValid {| Endpoint := "example.org" +:+ String ":" "8080/sparql" |} = None.
Proof.
  split; [reflexivity|]. split; [reflexivity|]. split; [reflexivity|].
  by apply (IsValid_accepts_opaque "example.org" "8080/sparql").
Defined.

Lemma DiscoverIncludes_lists_witness :
  wf (fs (world (start project)))
  ∧ Fs.node_at (fs (world (start project)))
      (at_ (H := site) (world (start project)) "templates/includes")
    = Some Dir
  ∧ ∃ paths,
      DiscoverIncludes (H := site) (start project)
        = (Val (inr paths), start project)
      ∧ paths
        = (λ kv, Path.join (drop (length (workdir (world (start project))))
                              kv.1))
            <$> filter (λ kv : list string * Node, IsDir kv.2 = false)
                  (Fs.tree (fs (world (start project)))
                     (at_ (H := site) (world (start project))
                        "templates/includes"))
      ∧ NoDup paths
      ∧ ∀ p,
          p ∈ paths ↔
          ∃ rel n,
            rel ≠ []
            ∧ fs (world (start project))
                !! (at_ (H := site) (world (start project))
                      "templates/includes" ++ rel)
              = Some n
            ∧ IsDir n = false
            ∧ p = Path.join ("templates" :: "includes" :: rel)
            ∧ at_ (H := site) (world (start project)) p
              = at_ (H := site) (world (start project)) "templates/includes"
                  ++ rel.
Proof.
  assert (wf (fs (world (start project)))) as Hwf
    by (apply (bool_decide_unpack _); by vm_compute).
  assert (Fs.node_at (fs (world (start project)))
            (at_ (H := site) (world (start project)) "templates/includes")
          = Some Dir) as Hdir by (by vm_compute).
  split; [exact Hwf|]. split; [exact Hdir|].
  exact (DiscoverIncludes_lists (H := site) (start project) Hwf Hdir).
Defined.

Lemma DiscoverIncludes_sorted_witness :
  wf (fs (world (start project)))
  ∧ Fs.node_at (fs (world (start project)))
      (at_ (H := site) (world (start project)) "templates/includes")
    = Some Dir
  ∧ ∃ paths,
      DiscoverIncludes (H := site) (start project)
        = (Val (inr paths), start project)
      ∧ StronglySorted
          (λ p q, Path.le (Path.split p) (Path.split q) = true) paths.
Proof.
  assert (wf (fs (world (start project)))) as Hwf
    by (apply (bool_decide_unpack _); by vm_compute).
  assert (Fs.node_at (fs (world (start project)))
            (at_ (H := site) (world (start project)) "templates/includes")
          = Some Dir) as Hdir by (by vm_compute).
  split; [exact Hwf|]. split; [exact Hdir|].
  exact (DiscoverIncludes_sorted (H := site) (start project) Hwf Hdir).
Defined.

Lemma CopyStatic_panics_without_static_witness :
  Fs.stat (fs (world (start bare_project)))
    (at_ (H := site) (world (start bare_project)) "static") = inl ENOENT
  ∧ CopyStatic (H := site) (start bare_project)
    = (Panicked, start bare_project)
  ∧ copy_static_files (H := site) (start bare_project)
    = if IsNotExist ENOENT
      then (Val None,
            @Build_State site
              (print (world (start bare_project))
                 "Failed to locate static files. Skipping...")
              (trace (start bare_project)))
      else (Panicked, start bare_project).
Proof.
  assert (Fs.stat (fs (world (start bare_project)))
            (at_ (H := site) (world (start bare_project)) "static")
          = inl ENOENT) as Habsent by (by vm_compute).
  split; [exact Habsent|].
  exact (CopyStatic_panics_without_static (H := site) (start bare_project)
           ENOENT Habsent).
Defined.

Lemma static_file_is_emptied_witness :
  wf (fs (world (start static_file)))
  ∧ fs (world (start static_file))
      !! at_ (H := site) (world (start static_file)) "static"
    = Some (File (b "body{}"))
  ∧ copy_static_files (H := site) (start static_file)
    = (Val None,
       @Build_State site
         (print (set_fs (world (start static_file))
                   (<[at_ (H := site) (world (start static_file)) "static"
                      := File []]> (fs (world (start static_file)))))
            "Copied static file to: static")
         (trace (start static_file))).
Proof.
  assert (wf (fs (world (start static_file)))) as Hwf
    by (apply (bool_decide_unpack _); by vm_compute).
  assert (fs (world (start static_file))
            !! at_ (H := site) (world (start static_file)) "static"
          = Some (File (b "body{}"))) as Hfile by (by vm_compute).
  split; [exact Hwf|]. split; [exact Hfile|].
  exact (static_file_is_emptied (H := site) (start static_file) _ Hwf Hfile).
Defined.

Lemma failed_build_leaves_site_witness :
  (buildCmd (H := site) (start unbuilt)).1
    = Val (Some {| message := "Failed to discover layouts.";
                   cause := ENOENT |})
  ∧ ("Failed to discover layouts." = "Failed to copy static files."
     ∨ "Failed to discover layouts." = "Failed to discover layouts.")
  ∧ Fs.node_at (fs (world (start unbuilt)))
      (at_ (H := site) (world (start unbuilt)) "site") = None
  ∧ Fs.node_at (fs (world (buildCmd (H := site) (start unbuilt)).2))
      (at_ (H := site) (world (buildCmd (H := site) (start unbuilt)).2) "site")
    = Some Dir
  ∧ ∃ fl',
      buildCmd (H := site) (buildCmd (H := site) (start unbuilt)).2
        = (Val (Some fl'), (buildCmd (H := site) (start unbuilt)).2).
Proof.
  assert ((buildCmd (H := site) (start unbuilt)).1
          = Val (Some {| message := "Failed to discover layouts.";
                         cause := ENOENT |})) as Hfail by (by vm_compute).
  split; [exact Hfail|]. split; [by right|].
  exact (failed_build_leaves_site (H := site) (start unbuilt) _ Hfail
           (or_intror eq_refl)).
Defined.

Lemma site_holds_static_files_witness :
  wf (fs (world (start project_with_site)))
  ∧ Fs.node_at (fs (world (start project_with_site)))
      (at_ (H := site) (world (start project_with_site)) "static") = Some Dir
  ∧ Fs.node_at (fs (world (start project_with_site)))
      (at_ (H := site) (world (start project_with_site)) "site") = Some Dir
  ∧ map_Forall
      (λ q _, Fs.below (at_ (H := site) (world (start project_with_site)) "site")
                q = false)
      (fs (world (start project_with_site)))
  ∧ ∃ st',
      CopyStatic (H := site) (start project_with_site) = (Val None, st')
      ∧ ∀ rel n,
          rel ≠ [] →
          fs (world st')
            !! (at_ (H := site) (world (start project_with_site)) "site" ++ rel)
          = Some n
          ↔ (∃ c, n = File c
                  ∧ fs (world (start project_with_site))
                      !! (at_ (H := site) (world (start project_with_site))
                            "static" ++ rel)
                    = Some (File c))
            ∨ (n = Dir
               ∧ ∃ rel' c,
                   rel' ≠ []
                   ∧ fs (world (start project_with_site))
                       !! (at_ (H := site) (world (start project_with_site))
                             "static" ++ rel ++ rel')
                     = Some (File c)).
Proof.
  assert (wf (fs (world (start project_with_site)))) as Hwf
    by (apply (bool_decide_unpack _); by vm_compute).
  assert (Fs.node_at (fs (world (start project_with_site)))
            (at_ (H := site) (world (start project_with_site)) "static")
          = Some Dir) as Hstatic by (by vm_compute).
  assert (Fs.node_at (fs (world (start project_with_site)))
            (at_ (H := site) (world (start project_with_site)) "site")
          = Some Dir) as Hsite by (by vm_compute).
  assert (map_Forall
            (λ q _, Fs.below
                      (at_ (H := site) (world (start project_with_site)) "site")
                      q = false)
            (fs (world (start project_with_site)))) as Hfresh
    by (apply (bool_decide_unpack _); by vm_compute).
  split; [exact Hwf|]. split; [exact Hstatic|]. split; [exact Hsite|].
  split; [exact Hfresh|].
  exact (site_holds_static_files (H := site) (start project_with_site)
           Hwf Hstatic Hsite Hfresh).
Defined.

Lemma CopyStatic_prints_witness :
  wf (fs (world (start project_with_site)))
  ∧ Fs.node_at (fs (world (start project_with_site)))
      (at_ (H := site) (world (start project_with_site)) "static") = Some Dir
  ∧ Fs.node_at (fs (world (start project_with_site)))
      (at_ (H := site) (world (start project_with_site)) "site") = Some Dir
  ∧ map_Forall
      (λ q _, Fs.below (at_ (H := site) (world (start project_with_site)) "site")
                q = false)
      (fs (world (start project_with_site)))
  ∧ ∃ st',
      CopyStatic (H := site) (start project_with_site) = (Val None, st')
      ∧ stdout (world st')
        = stdout (world (start project_with_site))
            ++ ((λ kv, copied_line
                         (length (at_ (H := site)
                                    (world (start project_with_site)) "static"))
                         kv.1)
                  <$> filter (λ kv : list string * Node, IsRegular kv.2 = true)
                        (Fs.tree (fs (world (start project_with_site)))
                           (at_ (H := site) (world (start project_with_site))
                              "static"))).
Proof.
  assert (wf (fs (world (start project_with_site)))) as Hwf
    by (apply (bool_decide_unpack _); by vm_compute).
  assert (Fs.node_at (fs (world (start project_with_site)))
            (at_ (H := site) (world (start project_with_site)) "static")
          = Some Dir) as Hstatic by (by vm_compute).
  assert (Fs.node_at (fs (world (start project_with_site)))
            (at_ (H := site) (world (start project_with_site)) "site")
          = Some Dir) as Hsite by (by vm_compute).
  assert (map_Forall
            (λ q _, Fs.below
                      (at_ (H := site) (world (start project_with_site)) "site")
                      q = false)
            (fs (world (start project_with_site)))) as Hfresh
    by (apply (bool_decide_unpack _); by vm_compute).
  split; [exact Hwf|]. split; [exact Hstatic|]. split; [exact Hsite|].
  split; [exact Hfresh|].
  exact (CopyStatic_prints (H := site) (start project_with_site)
           Hwf Hstatic Hsite Hfresh).
Defined.

Lemma build_reaches_pages_witness :
  getwd_err (world (start project)) = None
  ∧ wf (fs (world (start project)))
  ∧ Fs.node_at (fs (world (start project)))
      (at_ (H := site) (world (start project))
         (cwd (world (start project)) +:+ "/snowman.yaml"))
    = Some (File (b "sparql_endpoint: https://example.org/sparql"))
  ∧ Parse (H := site) {| Endpoint := "" |}
      (b "sparql_endpoint: https://example.org/sparql")
    = (None, {| Endpoint := "https://example.org/sparql" |})
  ∧ IsValid {| Endpoint := "https://example.org/sparql" |} = None
  ∧ Fs.node_at (fs (world (start project)))
      (at_ (H := site) (world (start project)) "site") = None
  ∧ Fs.node_at (fs (world (start project)))
      (at_ (H := site) (world (start project)) "static") = Some Dir
  ∧ ∃ st',
      buildCmd (H := site) (start project)
        = build_pages (H := site)
            {| Endpoint := "https://example.org/sparql" |} st'
      ∧ trace st' = trace (start project)
      ∧ cwd (world st') = cwd (world (start project))
      ∧ fs (world st') !! at_ (H := site) (world (start project)) "site"
        = Some Dir
      ∧ (∀ rel c,
           fs (world (start project))
             !! (at_ (H := site) (world (start project)) "static" ++ rel)
           = Some (File c) →
           fs (world st')
             !! (at_ (H := site) (world (start project)) "site" ++ rel)
           = Some (File c))
      ∧ ∀ q, q ≠ at_ (H := site) (world (start project)) "site" →
             Fs.below (at_ (H := site) (world (start project)) "site") q
             = false →
             fs (world st') !! q = fs (world (start project)) !! q.
Proof.
  assert (wf (fs (world (start project)))) as Hwf
    by (apply (bool_decide_unpack _); by vm_compute).
  split; [reflexivity|]. split; [exact Hwf|].
  split; [by vm_compute|]. split; [by vm_compute|]. split; [by vm_compute|].
  split; [by vm_compute|]. split; [by vm_compute|].
  apply (build_reaches_pages (H := site) (start project)
           (b "sparql_endpoint: https://example.org/sparql")
           {| Endpoint := "https://example.org/sparql" |});
    try exact Hwf; by vm_compute.
Defined.

Lemma page_path_can_leave_site_witness :
  Output (ViewConfig flat_view) = ("{{" +:+ "slug" +:+ "}}") +:+ ".html"
  ∧ Value (row_index upward "slug") = "../" +:+ "index"
  ∧ valid_name ("index" +:+ ".html")
  ∧ outputPath_of (H := site) flat_view "slug" upward
    = "site/../" +:+ "index" +:+ ".html"
  ∧ at_ (H := site) (world (start project))
      (outputPath_of (H := site) flat_view "slug" upward)
    = workdir (world (start project)) ++ ["index" +:+ ".html"]
  ∧ Fs.below (at_ (H := site) (world (start project)) "site")
      (at_ (H := site) (world (start project))
         (outputPath_of (H := site) flat_view "slug" upward))
    = false.
Proof.
  assert (valid_name ("index" +:+ ".html")) as Hname
    by (apply (bool_decide_unpack _); by vm_compute).
  split; [reflexivity|]. split; [by vm_compute|]. split; [exact Hname|].
  apply (page_path_can_leave_site (H := site) (world (start project))
           flat_view "slug" upward "index" ".html");
    [reflexivity | by vm_compute | exact Hname].
Defined.

End ExampleMore.
